(** * txtnets: named-axis spaces (cpu/space.py) and minibatch providers
      (cpu/optimize/data_provider.py)

    A shallow embedding of the two Python modules and the properties their
    specification states about them.

    Conventions of the embedding:
    - a Python exception is a value of [exn]; a call that can raise returns
      [res A];
    - an axis label is one character (['b'], ['w'], ...), as in the
      repository's own calls: [list(ax)] splits a string axis into its
      characters, so a longer string and a tuple of labels are both groups
      of labels;
    - an [OrderedDict] is an association list in insertion order, updated
      in place by [od_set];
    - a Python set of labels is iterated in an order the program does not
      choose: the order is a parameter, [set_iter];
    - a numpy array is its shape together with its elements in row-major
      (C) order;
    - extents, dimensions and replica counts are natural numbers, and
      [np.prod] is the exact product: the wrap-around of numpy's 64-bit
      integers is out of reach of the shapes of arrays held in memory. The
      products as numpy takes them are [size_int64], [shape_int64] and
      [get_extent_int64]; the properties of a Space without an array are
      stated where the two agree ([fits_int64]);
    - batch indices and batch sizes are Python integers ([Z]), with
      Python 2's floor division and modulo;
    - the random generators are the sequence of permutations they are going
      to return, [rng]. *)

From Stdlib Require Import List Arith ZArith Lia Bool String Ascii Permutation PrimFloat.
Import ListNotations.

Set Implicit Arguments.

(** ** Exceptions and results *)

Inductive exn : Type :=
| ShapeMismatch      (* AssertionError of Space.infer, space.py line 17 *)
| IncompatibleAxes   (* AssertionError of Space.transform, line 36 *)
| InconsistentSize   (* AssertionError of Space.broadcast, line 53 *)
| ValueError         (* numpy reshape/transpose/concatenate/max, list.index *)
| KeyError           (* dict subscript on a missing key *)
| IndexError         (* numpy index out of bounds *)
| ZeroDivisionError. (* integer division or modulo by zero *)

Inductive res (A : Type) : Type :=
| Ok (a : A)
| Raise (e : exn).

Arguments Ok {A} a.
Arguments Raise {A} e.

Definition bind {A B : Type} (m : res A) (f : A -> res B) : res B :=
  match m with
  | Ok a => f a
  | Raise e => Raise e
  end.

Notation "x <- m ;; k" := (bind m (fun x => k))
  (at level 61, m at next level, right associativity).

Fixpoint mapM {A B : Type} (f : A -> res B) (l : list A) : res (list B) :=
  match l with
  | [] => Ok []
  | a :: l' => b <- f a ;; bs <- mapM f l' ;; Ok (b :: bs)
  end.

Fixpoint foldM {A B : Type} (f : B -> A -> res B) (l : list A) (b : B) : res B :=
  match l with
  | [] => Ok b
  | a :: l' => b' <- f b a ;; foldM f l' b'
  end.

Definition is_ok {A : Type} (m : res A) : Prop :=
  match m with Ok _ => True | Raise _ => False end.

(** ** Python lists and sets of labels *)

Definition label := ascii.

(* An axis of a Space: the string 'b', the string 'bw' or the tuple
   ('b', 'w'); list(ax) is the sequence of its labels. *)
Definition axis := string.

Definition axis_of_label (c : label) : axis := String c EmptyString.

(* x in l *)
Fixpoint mem (x : label) (l : list label) : bool :=
  match l with
  | [] => false
  | y :: l' => Ascii.eqb x y || mem x l'
  end.

(* l.index(x): the first position of x, ValueError when there is none *)
Fixpoint index (x : label) (l : list label) : res nat :=
  match l with
  | [] => Raise ValueError
  | y :: l' => if Ascii.eqb x y then Ok 0 else i <- index x l' ;; Ok (S i)
  end.

(* set(a) <= set(b) *)
Definition subset (a b : list label) : bool := forallb (fun x => mem x b) a.

(* set(a) == set(b) *)
Definition set_eqb (a b : list label) : bool := subset a b && subset b a.

(* set(b) - set(a), as the duplicate-free list of its members *)
Fixpoint set_diff (b a : list label) : list label :=
  match b with
  | [] => []
  | x :: b' =>
      if mem x a || mem x b' then set_diff b' a else x :: set_diff b' a
  end.

(** ** OrderedDict *)

Definition odict (V : Type) := list (label * V).

Definition od_keys {V} (d : odict V) : list label := map fst d.
Definition od_values {V} (d : odict V) : list V := map snd d.

(* d.get(k, dflt) *)
Fixpoint od_get {V} (d : odict V) (k : label) (dflt : V) : V :=
  match d with
  | [] => dflt
  | (k', v) :: d' => if Ascii.eqb k k' then v else od_get d' k dflt
  end.

(* d[k] *)
Fixpoint od_lookup {V} (d : odict V) (k : label) : res V :=
  match d with
  | [] => Raise KeyError
  | (k', v) :: d' => if Ascii.eqb k k' then Ok v else od_lookup d' k
  end.

(* d[k] = v: an existing key keeps its position, a new one goes last *)
Fixpoint od_set {V} (d : odict V) (k : label) (v : V) : odict V :=
  match d with
  | [] => [(k, v)]
  | (k', v') :: d' =>
      if Ascii.eqb k k' then (k', v) :: d' else (k', v') :: od_set d' k v
  end.

(* OrderedDict(pairs) *)
Definition od_of_pairs {V} (pairs : list (label * V)) : odict V :=
  fold_left (fun d kv => od_set d (fst kv) (snd kv)) pairs [].

(** ** numpy arrays *)

Definition np_prod (l : list nat) : nat := fold_right Nat.mul 1 l.

(* the value of n in a 64-bit signed integer: n modulo 2^64, between -2^63
   and 2^63 - 1 *)
Definition int64 (n : Z) : Z := ((n + 2 ^ 63) mod 2 ^ 64 - 2 ^ 63)%Z.

(* int(np.prod(l)) as numpy takes it on a list of Python integers below 2^63:
   the product in 64-bit integers, wrapping around (numpy picks another type
   for a list with a larger entry, which [fits_int64] leaves out) *)
Definition np_prod_int64 (l : list nat) : Z :=
  fold_left (fun acc v => int64 (acc * int64 (Z.of_nat v))) l 1%Z.

Record ndarray (A : Type) : Type := mkArray {
  nd_shape : list nat;
  nd_data : list A          (* row-major *)
}.

Arguments mkArray {A} nd_shape nd_data.

(* X.size *)
Definition nd_size {A} (X : ndarray A) : nat := np_prod (nd_shape X).

(* what every numpy array satisfies *)
Definition nd_wf {A} (X : ndarray A) : Prop :=
  List.length (nd_data X) = np_prod (nd_shape X).

(* np.reshape(X, newshape) *)
Definition np_reshape {A} (X : ndarray A) (newshape : list nat) : res (ndarray A) :=
  if np_prod newshape =? nd_size X
  then Ok (mkArray newshape (nd_data X))
  else Raise ValueError.

(** ** numpy: transpose and concatenate on row-major data *)

(* np.unravel_index(n, sh) and np.ravel_multi_index(idx, sh) *)
Fixpoint unravel (sh : list nat) (n : nat) : list nat :=
  match sh with
  | [] => []
  | _ :: sh' => n / np_prod sh' :: unravel sh' (n mod np_prod sh')
  end.

Fixpoint ravel (sh idx : list nat) : nat :=
  match sh, idx with
  | _ :: sh', i :: idx' => i * np_prod sh' + ravel sh' idx'
  | _, _ => 0
  end.

(* [l[k] for k in perm] *)
Definition permute (perm l : list nat) : list nat :=
  map (fun k => nth k l 0) perm.

(* the first position of x in l (the length of l when there is none) *)
Fixpoint position {T} (eqb : T -> T -> bool) (x : T) (l : list T) : nat :=
  match l with
  | [] => 0
  | y :: l' => if eqb x y then 0 else S (position eqb x l')
  end.

Definition pos (m : nat) (p : list nat) : nat := position Nat.eqb m p.

(* the permutation that undoes p *)
Definition inv_perm (p : list nat) : list nat :=
  map (fun m => pos m p) (seq 0 (List.length p)).

Fixpoint nodupb (p : list nat) : bool :=
  match p with
  | [] => true
  | k :: p' => negb (existsb (Nat.eqb k) p') && nodupb p'
  end.

(* perm names every axis of an n-dimensional array once *)
Definition is_permb (perm : list nat) (n : nat) : bool :=
  (List.length perm =? n) && forallb (fun k => k <? n) perm && nodupb perm.

(* [d[i] for i in idxs] *)
Fixpoint gather {A} (d : list A) (idxs : list nat) : list A :=
  match idxs with
  | [] => []
  | i :: idxs' =>
      match nth_error d i with
      | Some x => x :: gather d idxs'
      | None => gather d idxs'
      end
  end.

(* the elements of the transposed array: the element at the multi-index j
   of the result is the element of the array at the multi-index i with
   i[p[k]] = j[k] *)
Definition transposed {T} (d : list T) (sh p : list nat) : list T :=
  gather d
    (map (fun n => ravel sh (permute (inv_perm p) (unravel (permute p sh) n)))
         (seq 0 (np_prod (permute p sh)))).

(* np.transpose(X, perm): axis k of the result is axis perm[k] of X *)
Definition np_transpose {A} (X : ndarray A) (perm : list nat) : res (ndarray A) :=
  if is_permb perm (List.length (nd_shape X)) then
    Ok (mkArray (permute perm (nd_shape X))
                (transposed (nd_data X) (nd_shape X) perm))
  else Raise ValueError.

Fixpoint list_eqb (a b : list nat) : bool :=
  match a, b with
  | [], [] => true
  | x :: a', y :: b' => (x =? y) && list_eqb a' b'
  | _, _ => false
  end.

(* the o-th block of X along axis k: the elements whose first k indices
   ravel to o *)
Definition block {A} (k : nat) (X : ndarray A) (o : nat) : list A :=
  let inner := np_prod (skipn k (nd_shape X)) in
  firstn inner (skipn (o * inner) (nd_data X)).

(* np.concatenate(Xs, axis=k) *)
Definition np_concatenate {A} (Xs : list (ndarray A)) (k : nat) : res (ndarray A) :=
  match Xs with
  | [] => Raise ValueError
  | X0 :: _ =>
      let sh0 := nd_shape X0 in
      if (k <? List.length sh0)
         && forallb (fun X => list_eqb (firstn k (nd_shape X)) (firstn k sh0)
                              && list_eqb (skipn (S k) (nd_shape X)) (skipn (S k) sh0)
                              && (List.length (nd_shape X) =? List.length sh0)) Xs
      then
        Ok (mkArray
              (firstn k sh0
                 ++ list_sum (map (fun X => nth k (nd_shape X) 0) Xs)
                 :: skipn (S k) sh0)
              (flat_map (fun o => flat_map (fun X => block k X o) Xs)
                 (seq 0 (np_prod (firstn k sh0)))))
      else Raise ValueError
  end.

(** ** class Space *)

Definition _fold_axes (unfolded : list axis) : list label :=
  let folded := map list_ascii_of_string unfolded in
  List.concat folded.

Record Space : Type := mkSpace {
  _axes : list axis;
  _extent : odict nat
}.

Definition axes (self : Space) : list axis := _axes self.

Definition folded_axes (self : Space) : list label := _fold_axes (axes self).

Definition size (self : Space) : nat := np_prod (od_values (_extent self)).

Definition folded_shape (self : Space) : list nat := od_values (_extent self).

Definition _size_of_axis (self : Space) (ax : axis) : nat :=
  np_prod (map snd
    (filter (fun kv => mem (fst kv) (list_ascii_of_string ax)) (_extent self))).

Definition shape (self : Space) : list nat :=
  map (_size_of_axis self) (_axes self).

Definition get_extent (self : Space) (axes : list axis) : list nat :=
  map (_size_of_axis self) axes.

(* [size], [_size_of_axis], [shape] and [get_extent] above take their
   products exactly. numpy takes them in 64-bit integers: these are the
   values the code returns, which are the exact ones as long as the products
   fit. *)
Definition size_int64 (self : Space) : Z :=
  np_prod_int64 (od_values (_extent self)).

Definition _size_of_axis_int64 (self : Space) (ax : axis) : Z :=
  np_prod_int64 (map snd
    (filter (fun kv => mem (fst kv) (list_ascii_of_string ax)) (_extent self))).

Definition shape_int64 (self : Space) : list Z :=
  map (_size_of_axis_int64 self) (_axes self).

Definition get_extent_int64 (self : Space) (axes : list axis) : list Z :=
  map (_size_of_axis_int64 self) axes.

(* Space.infer(X, axes), axes a flat list of labels *)
Definition infer {A} (X : ndarray A) (axes : list label) : res Space :=
  if List.length (nd_shape X) =? List.length axes
  then Ok (mkSpace (map axis_of_label axes) (od_of_pairs (combine axes (nd_shape X))))
  else Raise ShapeMismatch.

Definition _fold {A} (self : Space) (X : ndarray A) : res (ndarray A) :=
  np_reshape X (folded_shape self).

Definition _unfold {A} (self : Space) (X : ndarray A) : res (ndarray A) :=
  np_reshape X (shape self).

(** ** Space.transform and Space.broadcast *)

Section SetIteration.

(* The order in which Python iterates over a set of labels. *)
Variable set_iter : list label -> list label.

(* lines 26-34 of transform *)
Definition expand (self new_space : Space) : Space :=
  if subset (folded_axes self) (folded_axes new_space) then
    let missing := set_iter (set_diff (folded_axes new_space) (folded_axes self)) in
    let expanded_axes := axes self ++ map axis_of_label missing in
    let expanded_extent :=
      fold_left (fun d ax => od_set d ax 1) missing (_extent self) in
    mkSpace expanded_axes expanded_extent
  else self.

Definition transform {A} (self : Space) (X : ndarray A) (new_axes : list axis)
  : res (ndarray A * Space) :=
  let new_extent :=
    od_of_pairs (map (fun ax => (ax, od_get (_extent self) ax 1))
                     (_fold_axes new_axes)) in
  let new_space := mkSpace new_axes new_extent in
  let expanded_space := expand self new_space in
  if set_eqb (folded_axes expanded_space) (folded_axes new_space) then
    X <- _fold expanded_space X ;;
    perm <- mapM (fun d => index d (folded_axes expanded_space))
                 (folded_axes new_space) ;;
    X <- np_transpose X perm ;;
    X <- _unfold new_space X ;;
    Ok (X, new_space)
  else Raise IncompatibleAxes.

End SetIteration.

(* replicas: the keyword arguments, in the dictionary's iteration order *)
Definition broadcast {A} (self : Space) (X : ndarray A) (replicas : odict nat)
  : res (ndarray A * Space) :=
  new_extent <-
    mapM (fun ax => e <- od_lookup (_extent self) ax ;;
                    Ok (ax, e * od_get replicas ax 1))
         (_fold_axes (axes self)) ;;
  let new_space := mkSpace (axes self) (od_of_pairs new_extent) in
  X <- _fold self X ;;
  X <- foldM (fun X (r : label * nat) =>
                let (ax, times) := r in
                k <- index ax (folded_axes self) ;;
                np_concatenate (repeat X times) k)
             replicas X ;;
  if nd_size X =? size new_space then
    X <- _unfold new_space X ;;
    Ok (X, new_space)
  else Raise InconsistentSize.

(** ** Space objects: clone and set_extent

    [transform], [broadcast] and [infer] only read [self._extent] and build
    fresh dictionaries, so they are functions of the value of the space.
    [set_extent] writes into a dictionary, so it is modelled over the store
    of dictionary objects, a Space object holding the address of its
    [_extent]. *)

Module Obj.

Definition ref := nat.
Definition store := list (odict nat).

Record SpaceRef : Type := mkRef {
  _axes : list axis;
  _extent : ref
}.

(* st[r] *)
Definition read (st : store) (r : ref) : odict nat := nth r st [].

(* st[r][k] = v *)
Fixpoint setitem (st : store) (r : ref) (k : label) (v : nat) : store :=
  match st, r with
  | [], _ => []
  | d :: st', 0 => od_set d k v :: st'
  | d :: st', S r' => d :: setitem st' r' k v
  end.

(* the space a Space object stands for in a store *)
Definition value (st : store) (self : SpaceRef) : Space :=
  mkSpace (_axes self) (read st (_extent self)).

(* Space(self._axes, self._extent) *)
Definition clone (self : SpaceRef) : SpaceRef :=
  mkRef (_axes self) (_extent self).

(* extents: the keyword arguments, in the dictionary's iteration order *)
Definition set_extent (st : store) (self : SpaceRef) (extents : odict nat)
  : SpaceRef * store :=
  let space := clone self in
  (space,
   fold_left (fun st (e : label * nat) => setitem st (_extent space) (fst e) (snd e))
             extents st).

End Obj.

(** ** Python integers, slices and the random generators *)

(* a / b on Python 2 integers, and a % b *)
Definition py_div (a b : Z) : res Z :=
  if (b =? 0)%Z then Raise ZeroDivisionError else Ok (a / b)%Z.

Definition py_mod (a b : Z) : res Z :=
  if (b =? 0)%Z then Raise ZeroDivisionError else Ok (a mod b)%Z.

(* where a slice bound lands in a sequence of length len *)
Definition slice_bound (len i : Z) : Z :=
  if (i <? 0)%Z then Z.max 0 (i + len) else Z.min i len.

(* l[start:stop] *)
Definition py_slice {A} (l : list A) (start stop : Z) : list A :=
  let len := Z.of_nat (List.length l) in
  let a := slice_bound len start in
  let b := slice_bound len stop in
  firstn (Z.to_nat (b - a)) (skipn (Z.to_nat a) l).

(* The generator behind np.random.permutation and random.shuffle: the
   permutations it is going to return, and how many it has returned. *)
Record rng : Type := mkRng {
  perm_at : nat -> nat -> list nat;
  drawn : nat
}.

(* np.random.permutation(n) *)
Definition np_random_permutation (g : rng) (n : nat) : list nat * rng :=
  (perm_at g (drawn g) n, mkRng (perm_at g) (S (drawn g))).

Definition rng_ok (g : rng) : Prop :=
  forall k n, Permutation (perm_at g k n) (seq 0 n).

(* d[idxs] on a numpy array, idxs an array of indices *)
Definition take {A} (d : list A) (idxs : list nat) : res (list A) :=
  if forallb (fun i => i <? List.length d) idxs
  then Ok (gather d idxs)
  else Raise IndexError.

(* a two-dimensional array, by rows *)
Record matrix (A : Type) : Type := mkMatrix {
  rows : list (list A);
  width : nat
}.

Arguments mkMatrix {A} rows width.

Definition nd_of_matrix {A} (M : matrix A) : ndarray A :=
  mkArray [List.length (rows M); width M] (List.concat (rows M)).

Record meta_t : Type := mkMeta {
  meta_lengths : list nat;
  space_below : Space
}.

(* max of a non-empty sequence, ValueError on an empty one *)
Definition np_max_nat (l : list nat) : res nat :=
  match l with
  | [] => Raise ValueError
  | x :: l' => Ok (fold_left Nat.max l' x)
  end.

Definition np_max (l : list Z) : res Z :=
  match l with
  | [] => Raise ValueError
  | x :: l' => Ok (fold_left Z.max l' x)
  end.

(* np.arange(n) *)
Definition np_arange (n : Z) : list Z :=
  map Z.of_nat (seq 0 (Z.to_nat n)).

(* x + [padding] * (length - len(x)) *)
Definition _add_padding {A} (padding : A) (x : list A) (length : nat) : list A :=
  x ++ repeat padding (length - List.length x).

(** ** class MinibatchDataProvider *)

Module MinibatchDataProvider.
Section Provider.
Variables A B : Type.

Record t : Type := mk {
  X : matrix A;
  Y : list B;
  lengths : list nat;
  batch_size : Z;
  _batch_index : Z;
  batches_per_epoch : Z
}.

Definition __init__ (X : matrix A) (Y : list B) (lengths : list nat) (batch_size : Z)
  : res t :=
  batches_per_epoch <- py_div (Z.of_nat (List.length (rows X))) batch_size ;;
  Ok (mk X Y lengths batch_size (-1) batches_per_epoch).

Definition _shuffle_data (self : t) (g : rng) : res (t * rng) :=
  let (perm, g') := np_random_permutation g (List.length (rows (X self))) in
  X' <- take (rows (X self)) perm ;;
  Y' <- take (Y self) perm ;;
  lengths' <- take (lengths self) perm ;;
  Ok (mk (mkMatrix X' (width (X self))) Y' lengths'
         (batch_size self) (_batch_index self) (batches_per_epoch self),
      g').

Definition _prepare_for_next_batch (self : t) (g : rng) : res (t * rng) :=
  i <- py_mod (_batch_index self + 1) (batches_per_epoch self) ;;
  let self := mk (X self) (Y self) (lengths self) (batch_size self) i
                 (batches_per_epoch self) in
  if (_batch_index self =? 0)%Z then _shuffle_data self g else Ok (self, g).

Definition batch_start (self : t) : Z := (_batch_index self * batch_size self)%Z.
Definition batch_end (self : t) : Z := (batch_start self + batch_size self)%Z.

Definition next_batch (self : t) (g : rng)
  : res ((matrix A * list B * meta_t) * t * rng) :=
  sg <- _prepare_for_next_batch self g ;;
  let (self, g) := sg in
  let X_batch :=
    mkMatrix (py_slice (rows (X self)) (batch_start self) (batch_end self))
             (width (X self)) in
  let Y_batch := py_slice (Y self) (batch_start self) (batch_end self) in
  let lengths_batch := py_slice (lengths self) (batch_start self) (batch_end self) in
  space_below <- infer (nd_of_matrix X_batch) ["b"%char; "w"%char] ;;
  Ok ((X_batch, Y_batch, mkMeta lengths_batch space_below), self, g).

(* the provider and the generator after n calls of next_batch *)
Fixpoint after (n : nat) (self : t) (g : rng) : res (t * rng) :=
  match n with
  | 0 => Ok (self, g)
  | S n' =>
      sg <- after n' self g ;;
      r <- next_batch (fst sg) (snd sg) ;;
      Ok (snd (fst r), snd r)
  end.

(* the row positions the n-th call of next_batch slices *)
Definition visited (self : t) (g : rng) (n : nat) : list nat :=
  match after n self g with
  | Ok (s, _) => seq (Z.to_nat (batch_start s)) (Z.to_nat (batch_size s))
  | Raise _ => []
  end.

End Provider.
End MinibatchDataProvider.

(** ** class BatchDataProvider *)

Module BatchDataProvider.
Section Provider.
Variables A B : Type.

Record t : Type := mk {
  X : matrix A;
  Y : list B;
  lengths : list nat;
  batch_size : nat;
  batches_per_epoch : Z
}.

Definition __init__ (X : matrix A) (Y : list B) (lengths : list nat) : t :=
  mk X Y lengths (List.length (rows X)) 1.

Definition next_batch (self : t) : res (matrix A * list B * meta_t) :=
  space_below <- infer (nd_of_matrix (X self)) ["b"%char; "w"%char] ;;
  Ok (X self, Y self, mkMeta (lengths self) space_below).

End Provider.
End BatchDataProvider.

(** ** class PaddedSequenceMinibatchProvider *)

Module PaddedSequenceMinibatchProvider.
Section Provider.
Variable A : Type.

Record t : Type := mk {
  X : list (list A);
  batch_size : Z;
  padding : A;
  shuffle : bool;
  _batch_index : Z;
  batches_per_epoch : Z
}.

Definition __init__ (X : list (list A)) (batch_size : Z) (padding : A) (shuffle : bool)
  : res t :=
  batches_per_epoch <- py_div (Z.of_nat (List.length X)) batch_size ;;
  Ok (mk X batch_size padding shuffle (-1) batches_per_epoch).

(* random.shuffle(self.X) *)
Definition _shuffle_data (self : t) (g : rng) : t * rng :=
  let (perm, g') := np_random_permutation g (List.length (X self)) in
  (mk (gather (X self) perm) (batch_size self) (padding self) (shuffle self)
      (_batch_index self) (batches_per_epoch self),
   g').

Definition _prepare_for_next_batch (self : t) (g : rng) : res (t * rng) :=
  i <- py_mod (_batch_index self + 1) (batches_per_epoch self) ;;
  let self := mk (X self) (batch_size self) (padding self) (shuffle self) i
                 (batches_per_epoch self) in
  if (_batch_index self =? 0)%Z && shuffle self
  then Ok (_shuffle_data self g) else Ok (self, g).

Definition next_batch (self : t) (g : rng) : res ((matrix A * meta_t) * t * rng) :=
  sg <- _prepare_for_next_batch self g ;;
  let (self, g) := sg in
  let batch_start := (_batch_index self * batch_size self)%Z in
  let batch_end := (batch_start + batch_size self)%Z in
  let X_batch := py_slice (X self) batch_start batch_end in
  let lengths_batch := map (@List.length A) X_batch in
  max_length_batch <- np_max_nat lengths_batch ;;
  let X_batch :=
    mkMatrix (map (fun x => _add_padding (padding self) x max_length_batch) X_batch)
             max_length_batch in
  space_below <- infer (nd_of_matrix X_batch) ["b"%char; "w"%char] ;;
  Ok ((X_batch, mkMeta lengths_batch space_below), self, g).

End Provider.
End PaddedSequenceMinibatchProvider.

(** ** class LabelledSequenceMinibatchProvider *)

Module LabelledSequenceMinibatchProvider.
Section Provider.
Variable A : Type.

Record t : Type := mk {
  X : list (list A);
  Y : list Z;
  batch_size : Z;
  padding : A;
  shuffle : bool;
  _batch_index : Z;
  batches_per_epoch : Z
}.

Definition __init__ (X : list (list A)) (Y : list Z) (batch_size : Z) (padding : A)
  (shuffle : bool) : res t :=
  batches_per_epoch <- py_div (Z.of_nat (List.length X)) batch_size ;;
  Ok (mk X Y batch_size padding shuffle (-1) batches_per_epoch).

(* combined = zip(X, Y); random.shuffle(combined); X, Y = map(list, zip( *combined)) *)
Definition _shuffle_data (self : t) (g : rng) : res (t * rng) :=
  let combined := combine (X self) (Y self) in
  let (perm, g') := np_random_permutation g (List.length combined) in
  match gather combined perm with
  | [] => Raise ValueError
  | combined =>
      Ok (mk (map fst combined) (map snd combined) (batch_size self) (padding self)
             (shuffle self) (_batch_index self) (batches_per_epoch self),
          g')
  end.

Definition _prepare_for_next_batch (self : t) (g : rng) : res (t * rng) :=
  i <- py_mod (_batch_index self + 1) (batches_per_epoch self) ;;
  let self := mk (X self) (Y self) (batch_size self) (padding self) (shuffle self) i
                 (batches_per_epoch self) in
  if (_batch_index self =? 0)%Z && shuffle self
  then _shuffle_data self g else Ok (self, g).

(* np.equal.outer(Y_batch, np.arange(n)).astype(np.float) *)
Definition one_hot (Y_batch : list Z) (n : Z) : list (list float) :=
  map (fun y => map (fun j => if (y =? j)%Z then 1%float else 0%float) (np_arange n))
      Y_batch.

Definition next_batch (self : t) (g : rng)
  : res ((list (list A) * list (list float) * meta_t) * t * rng) :=
  sg <- _prepare_for_next_batch self g ;;
  let (self, g) := sg in
  let batch_start := (_batch_index self * batch_size self)%Z in
  let batch_end := (batch_start + batch_size self)%Z in
  let X_batch := py_slice (X self) batch_start batch_end in
  let Y_batch := py_slice (Y self) batch_start batch_end in
  m <- np_max Y_batch ;;
  let Y_batch := one_hot Y_batch (m + 1) in
  let lengths_batch := map (@List.length A) X_batch in
  max_length_batch <- np_max_nat lengths_batch ;;
  let X_batch := map (fun x => _add_padding (padding self) x max_length_batch) X_batch in
  let space_below :=
    mkSpace ["b"; "w"]%string
            (od_of_pairs [("b"%char, List.length X_batch); ("w"%char, max_length_batch)]) in
  Ok ((X_batch, Y_batch, mkMeta lengths_batch space_below), self, g).

(* the labels of the batch the provider is at *)
Definition batch_labels (self : t) : list Z :=
  py_slice (Y self) (_batch_index self * batch_size self)
           (_batch_index self * batch_size self + batch_size self).

End Provider.
End LabelledSequenceMinibatchProvider.

(** * Vocabulary of the properties *)

(** ** Spaces and arrays *)

(* The invariant of a Space: the extent has one entry for each leaf label of
   the axes, in folding order, and no leaf label appears twice. *)
Definition wf (S : Space) : Prop :=
  od_keys (_extent S) = folded_axes S /\ NoDup (folded_axes S).

(* the product of the extents a dictionary has for the labels of l *)
Definition extent_in (d : odict nat) (l : list label) : nat :=
  np_prod (map snd (filter (fun kv => mem (fst kv) l) d)).

(* the extents a dictionary has for the labels of l, which _size_of_axis
   multiplies *)
Definition selected (d : odict nat) (l : list label) : list nat :=
  map snd (filter (fun kv => mem (fst kv) l) d).

(* the numbers of l and their product fit 64-bit signed integers *)
Definition fits_int64 (l : list nat) : Prop :=
  Forall (fun v => (Z.of_nat v < 2 ^ 63)%Z) l /\ (Z.of_nat (np_prod l) < 2 ^ 63)%Z.

(* every product a Space takes of its extents fits 64-bit signed integers:
   the product of all of them and the product of each axis *)
Definition int64_safe (S : Space) : Prop :=
  fits_int64 (od_values (_extent S))
  /\ Forall (fun ax => fits_int64 (selected (_extent S) (list_ascii_of_string ax)))
            (axes S).

(* the product of integers *)
Definition Zprod (l : list Z) : Z := fold_right Z.mul 1%Z l.

(* the Space of the target axes that transform builds first *)
Definition new_space_of (S : Space) (new_axes : list axis) : Space :=
  mkSpace new_axes
    (od_of_pairs (map (fun ax => (ax, od_get (_extent S) ax 1)) (_fold_axes new_axes))).

(* the Space transform returns for target axes without repeated labels *)
Definition target (S : Space) (new_axes : list axis) : Space :=
  mkSpace new_axes
    (map (fun ax => (ax, od_get (_extent S) ax 1)) (_fold_axes new_axes)).

Section Layout.

Variable set_iter : list label -> list label.

(* the leaf labels of the target that the space does not have, in the
   order in which transform appends them *)
Definition missing (S : Space) (new_axes : list axis) : list label :=
  set_iter (set_diff (_fold_axes new_axes) (folded_axes S)).

(* the layout of the space once the missing leaf labels are appended *)
Definition expanded (S : Space) (new_axes : list axis) : Space :=
  mkSpace (axes S ++ map axis_of_label (missing S new_axes))
          (_extent S ++ map (fun m => (m, 1)) (missing S new_axes)).

(* where each leaf of the target sits in the expanded layout *)
Definition axis_perm (S : Space) (new_axes : list axis) : list nat :=
  map (fun d => position Ascii.eqb d (folded_axes S ++ missing S new_axes))
      (_fold_axes new_axes).

End Layout.

(* the multi-index over the leaves of S that a multi-index j over the leaves
   of S' stands for: each leaf of S has the index j gives to its label *)
Definition source_index (S S' : Space) (j : list nat) : list nat :=
  map (fun a => nth (position Ascii.eqb a (folded_axes S')) j 0) (folded_axes S).

(* q undoes p and p undoes q *)
Definition inverse_perms (p q : list nat) : Prop :=
  List.length p = List.length q
  /\ (forall k, k < List.length p ->
        nth k p 0 < List.length p /\ nth (nth k p 0) q 0 = k)
  /\ (forall k, k < List.length q ->
        nth k q 0 < List.length q /\ nth (nth k q 0) p 0 = k).

(* the array the concatenation of t copies of X along the axis k is *)
Definition replicated {T} (X : ndarray T) (t k : nat) : ndarray T :=
  mkArray
    (firstn k (nd_shape X) ++ t * nth k (nd_shape X) 0 :: skipn (S k) (nd_shape X))
    (flat_map (fun o => flat_map (fun X' => block k X' o) (repeat X t))
              (seq 0 (np_prod (firstn k (nd_shape X))))).

(* idx with its k-th index taken modulo d *)
Definition wrap_axis (k d : nat) (idx : list nat) : list nat :=
  firstn k idx ++ nth k idx 0 mod d :: skipn (S k) idx.

(* idx with every index taken modulo the extent of its axis *)
Definition wrapped (sh idx : list nat) : list nat :=
  map (fun p => fst p mod snd p) (combine idx sh).

(* a replica count broadcast accepts: for a leaf label of the space, and at
   least 1 *)
Definition replica_ok (A : list label) (r : label * nat) : Prop :=
  In (fst r) A /\ 1 <= snd r.

(* the array the loop of broadcast builds from the folded array *)
Definition replicate_all {T} (A : list label) (replicas : odict nat) (X : ndarray T)
  : ndarray T :=
  fold_left (fun X r => replicated X (snd r) (position Ascii.eqb (fst r) A))
            replicas X.

(* Xc repeats the array of shape sh and elements d along its axes *)
Definition tiles {T} (sh : list nat) (d : list T) (Xc : ndarray T) : Prop :=
  nd_wf Xc
  /\ List.length (nd_shape Xc) = List.length sh
  /\ (forall i, i < List.length sh -> exists m, nth i (nd_shape Xc) 0 = m * nth i sh 0)
  /\ (forall idx, Forall2 lt idx (nd_shape Xc) ->
        nth_error (nd_data Xc) (ravel (nd_shape Xc) idx)
        = nth_error d (ravel sh (wrapped sh idx))).

(* the Space broadcast returns *)
Definition scaled (S : Space) (replicas : odict nat) : Space :=
  mkSpace (axes S)
    (map (fun ax => (ax, od_get (_extent S) ax 0 * od_get replicas ax 1))
         (folded_axes S)).

(** ** Providers *)

(* floor(D / B) for a dataset X0 of D rows and a batch size B *)
Definition bpe {A} (X0 : matrix A) (bs : Z) : Z :=
  (Z.of_nat (List.length (rows X0)) / bs)%Z.

(* what holds of the provider s and the generator g after n calls of
   next_batch on the provider of the dataset X0 with batch size bs, started
   with the generator g0 *)
Definition cycle_inv {A B} (X0 : matrix A) (bs : Z) (g0 : rng) (n : nat)
  (s : MinibatchDataProvider.t A B) (g : rng) : Prop :=
  MinibatchDataProvider.batch_size s = bs
  /\ MinibatchDataProvider.batches_per_epoch s = bpe X0 bs
  /\ MinibatchDataProvider._batch_index s
     = (if (n =? 0)%nat then -1 else (Z.of_nat n - 1) mod bpe X0 bs)%Z
  /\ List.length (rows (MinibatchDataProvider.X s)) = List.length (rows X0)
  /\ List.length (MinibatchDataProvider.Y s) = List.length (rows X0)
  /\ List.length (MinibatchDataProvider.lengths s) = List.length (rows X0)
  /\ Permutation (rows (MinibatchDataProvider.X s)) (rows X0)
  /\ perm_at g = perm_at g0.

(* the examples a provider holds: every row with its label and its length *)
Definition examples {A B} (s : MinibatchDataProvider.t A B)
  : list (list A * (B * nat)) :=
  combine (rows (MinibatchDataProvider.X s))
          (combine (MinibatchDataProvider.Y s) (MinibatchDataProvider.lengths s)).

(* the examples of a batch *)
Definition batch_examples {A B} (X_batch : matrix A) (Y_batch : list B)
  (meta : meta_t) : list (list A * (B * nat)) :=
  combine (rows X_batch) (combine Y_batch (meta_lengths meta)).

(* the sequences of the batch a padded provider is at *)
Definition padded_batch_rows {A} (s : PaddedSequenceMinibatchProvider.t A)
  : list (list A) :=
  py_slice (PaddedSequenceMinibatchProvider.X s)
    (PaddedSequenceMinibatchProvider._batch_index s
     * PaddedSequenceMinibatchProvider.batch_size s)
    (PaddedSequenceMinibatchProvider._batch_index s
     * PaddedSequenceMinibatchProvider.batch_size s
     + PaddedSequenceMinibatchProvider.batch_size s).

(* a padded provider and the generator after n calls of next_batch *)
Fixpoint padded_after {A} (n : nat) (self : PaddedSequenceMinibatchProvider.t A)
  (g : rng) : res (PaddedSequenceMinibatchProvider.t A * rng) :=
  match n with
  | 0 => Ok (self, g)
  | S n' =>
      sg <- padded_after n' self g ;;
      r <- PaddedSequenceMinibatchProvider.next_batch (fst sg) (snd sg) ;;
      Ok (snd (fst r), snd r)
  end.

(* what holds of the padded provider s and the generator g after n calls of
   next_batch on the provider of the sequences X0, started with g0 *)
Definition padded_inv {A} (X0 : list (list A)) (bs : Z) (pad : A) (sh : bool)
  (g0 : rng) (n : nat) (s : PaddedSequenceMinibatchProvider.t A) (g : rng) : Prop :=
  PaddedSequenceMinibatchProvider.batch_size s = bs
  /\ PaddedSequenceMinibatchProvider.batches_per_epoch s
     = (Z.of_nat (List.length X0) / bs)%Z
  /\ PaddedSequenceMinibatchProvider._batch_index s
     = (if (n =? 0)%nat then -1
        else (Z.of_nat n - 1) mod (Z.of_nat (List.length X0) / bs))%Z
  /\ PaddedSequenceMinibatchProvider.padding s = pad
  /\ PaddedSequenceMinibatchProvider.shuffle s = sh
  /\ Permutation (PaddedSequenceMinibatchProvider.X s) X0
  /\ perm_at g = perm_at g0
  /\ (sh = false -> PaddedSequenceMinibatchProvider.X s = X0 /\ g = g0).

(* the sequences of the batch a labelled provider is at *)
Definition labelled_batch_rows {A} (s : LabelledSequenceMinibatchProvider.t A)
  : list (list A) :=
  py_slice (LabelledSequenceMinibatchProvider.X s)
    (LabelledSequenceMinibatchProvider._batch_index s
     * LabelledSequenceMinibatchProvider.batch_size s)
    (LabelledSequenceMinibatchProvider._batch_index s
     * LabelledSequenceMinibatchProvider.batch_size s
     + LabelledSequenceMinibatchProvider.batch_size s).

(* a labelled provider and the generator after n calls of next_batch *)
Fixpoint labelled_after {A} (n : nat) (self : LabelledSequenceMinibatchProvider.t A)
  (g : rng) : res (LabelledSequenceMinibatchProvider.t A * rng) :=
  match n with
  | 0 => Ok (self, g)
  | S n' =>
      sg <- labelled_after n' self g ;;
      r <- LabelledSequenceMinibatchProvider.next_batch (fst sg) (snd sg) ;;
      Ok (snd (fst r), snd r)
  end.

(* what holds of the labelled provider s and the generator g after n calls
   of next_batch on the provider of the sequences X0 and labels Y0, started
   with g0 *)
Definition labelled_inv {A} (X0 : list (list A)) (Y0 : list Z) (bs : Z) (pad : A)
  (sh : bool) (g0 : rng) (n : nat) (s : LabelledSequenceMinibatchProvider.t A)
  (g : rng) : Prop :=
  LabelledSequenceMinibatchProvider.batch_size s = bs
  /\ LabelledSequenceMinibatchProvider.batches_per_epoch s
     = (Z.of_nat (List.length X0) / bs)%Z
  /\ LabelledSequenceMinibatchProvider._batch_index s
     = (if (n =? 0)%nat then -1
        else (Z.of_nat n - 1) mod (Z.of_nat (List.length X0) / bs))%Z
  /\ LabelledSequenceMinibatchProvider.padding s = pad
  /\ LabelledSequenceMinibatchProvider.shuffle s = sh
  /\ List.length (LabelledSequenceMinibatchProvider.X s)
     = List.length (LabelledSequenceMinibatchProvider.Y s)
  /\ Permutation (combine (LabelledSequenceMinibatchProvider.X s)
                          (LabelledSequenceMinibatchProvider.Y s))
                 (combine X0 Y0)
  /\ perm_at g = perm_at g0
  /\ (sh = false ->
      LabelledSequenceMinibatchProvider.X s = X0
      /\ LabelledSequenceMinibatchProvider.Y s = Y0 /\ g = g0).

(** ** Examples *)

Definition S_bw : Space :=
  mkSpace ["b"; "w"]%string [("b"%char, 4); ("w"%char, 10)].

Definition S_23 : Space := mkSpace ["b"; "w"]%string [("b"%char, 2); ("w"%char, 3)].

(* seven axes of extent 2^9: their product is 2^63 *)
Definition S_wide : Space :=
  mkSpace ["abcdefg"%string]
    [("a"%char, 512); ("b"%char, 512); ("c"%char, 512); ("d"%char, 512);
     ("e"%char, 512); ("f"%char, 512); ("g"%char, 512)].

Definition X_23 : ndarray Z := mkArray [2; 3] [1; 2; 3; 4; 5; 6]%Z.
Definition X_6 : ndarray Z := mkArray [6] [1; 2; 3; 4; 5; 6]%Z.

(* a set listed in the order of its first occurrences *)
Definition in_order (l : list label) : list label := l.

Definition st_bw : Obj.store := [[("b"%char, 4); ("w"%char, 10)]].
Definition ref_bw : Obj.SpaceRef := Obj.mkRef ["b"; "w"]%string 0.

Definition X_2rows : matrix Z := mkMatrix [[1; 2]; [3; 4]]%Z 2.

Definition X_5rows : matrix Z :=
  mkMatrix [[1; 2]; [3; 4]; [5; 6]; [7; 8]; [9; 10]]%Z 2.

Definition rng_id : rng := mkRng (fun _ n => seq 0 n) 0.

(* a generator that reverses the dataset at each shuffle *)
Definition rng_rev : rng := mkRng (fun _ n => rev (seq 0 n)) 0.

Definition labelled_021 : LabelledSequenceMinibatchProvider.t Z :=
  LabelledSequenceMinibatchProvider.mk
    [[5]; [6; 7]; [8]]%Z [0; 2; 1]%Z 3 0%Z false (-1) 1.

(** * Properties *)

(** ** Labels, sets and dictionaries *)

Lemma mem_In (x : label) (l : list label) : mem x l = true <-> In x l.
Proof.
  induction l as [|y l IH]; simpl.
  - split; [discriminate | tauto].
  - rewrite orb_true_iff, IH, Ascii.eqb_eq. split; intros [H|H]; auto.
Qed.

Lemma mem_false (x : label) (l : list label) : mem x l = false <-> ~ In x l.
Proof.
  rewrite <- mem_In. destruct (mem x l); split; congruence.
Qed.

Lemma subset_incl (a b : list label) : subset a b = true <-> incl a b.
Proof.
  unfold subset, incl. rewrite forallb_forall.
  split; intros H x Hx; apply mem_In; auto.
Qed.

Lemma set_eqb_spec (a b : list label) :
  set_eqb a b = true <-> incl a b /\ incl b a.
Proof.
  unfold set_eqb. now rewrite andb_true_iff, !subset_incl.
Qed.

Lemma set_diff_In (b a : list label) (x : label) :
  In x (set_diff b a) <-> In x b /\ ~ In x a.
Proof.
  induction b as [|y b IH]; simpl; [tauto|].
  destruct (mem y a || mem y b) eqn:E.
  - rewrite IH. apply orb_true_iff in E. rewrite !mem_In in E.
    split; [tauto|]. intros [[Hy|H] Hn]; [subst y|tauto].
    destruct E as [E|E]; tauto.
  - apply orb_false_iff in E. rewrite !mem_false in E. simpl. rewrite IH.
    split.
    + intros [Hy|H]; [subst y|]; tauto.
    + tauto.
Qed.

Lemma set_diff_NoDup (b a : list label) : NoDup (set_diff b a).
Proof.
  induction b as [|y b IH]; simpl; [constructor|].
  destruct (mem y a || mem y b) eqn:E; auto.
  apply orb_false_iff in E. rewrite !mem_false in E.
  constructor; auto. rewrite set_diff_In. tauto.
Qed.

Lemma od_set_fresh {V} (d : odict V) (k : label) (v : V) :
  ~ In k (od_keys d) -> od_set d k v = d ++ [(k, v)].
Proof.
  unfold od_keys.
  induction d as [|[k' v'] d IH]; simpl; intros H; auto.
  destruct (Ascii.eqb k k') eqn:E.
  - apply Ascii.eqb_eq in E. subst k'. tauto.
  - rewrite IH; tauto.
Qed.

Lemma od_of_pairs_NoDup {V} (pairs : list (label * V)) :
  NoDup (map fst pairs) -> od_of_pairs pairs = pairs.
Proof.
  unfold od_of_pairs.
  enough (G : forall d, NoDup (map fst (d ++ pairs)) ->
                        fold_left (fun d kv => od_set d (fst kv) (snd kv)) pairs d
                        = d ++ pairs) by (intros H; apply (G [] H)).
  induction pairs as [|[k v] pairs IH]; simpl; intros d H.
  - now rewrite app_nil_r.
  - rewrite od_set_fresh.
    + rewrite IH; rewrite <- app_assoc; simpl; auto.
    + rewrite map_app in H. simpl in H. apply NoDup_remove_2 in H.
      intros Hin. apply H. apply in_or_app. now left.
Qed.

Lemma od_get_not_key {V} (d : odict V) (k : label) (dflt : V) :
  ~ In k (od_keys d) -> od_get d k dflt = dflt.
Proof.
  unfold od_keys.
  induction d as [|[k' v'] d IH]; simpl; intros H; auto.
  destruct (Ascii.eqb k k') eqn:E.
  - apply Ascii.eqb_eq in E. subst k'. tauto.
  - apply IH. tauto.
Qed.

Lemma od_get_app {V} (d1 d2 : odict V) (k : label) (dflt : V) :
  od_get (d1 ++ d2) k dflt
  = if mem k (od_keys d1) then od_get d1 k dflt else od_get d2 k dflt.
Proof.
  induction d1 as [|[k' v'] d1 IH]; simpl; auto.
  destruct (Ascii.eqb k k'); simpl; auto.
Qed.

(** ** Products *)

Lemma np_prod_app (l1 l2 : list nat) :
  np_prod (l1 ++ l2) = np_prod l1 * np_prod l2.
Proof.
  induction l1 as [|x l1 IH]; simpl; [lia|]. rewrite IH. lia.
Qed.

Lemma np_prod_map_mul {T} (f h : T -> nat) (l : list T) :
  np_prod (map (fun x => f x * h x) l) = np_prod (map f l) * np_prod (map h l).
Proof.
  induction l as [|x l IH]; simpl; [lia|]. rewrite IH. lia.
Qed.

Lemma np_prod_ones {T} (l : list T) : np_prod (map (fun _ => 1) l) = 1.
Proof.
  induction l as [|x l IH]; simpl; lia.
Qed.

Lemma np_prod_map_ext {T} (f h : T -> nat) (l : list T) :
  (forall x, In x l -> f x = h x) -> np_prod (map f l) = np_prod (map h l).
Proof.
  intros H. f_equal. apply map_ext_in. exact H.
Qed.

(* the factor a dictionary entry with key k contributes to the axes of l *)
Lemma np_prod_select (k : label) (v : nat) (l : list label) :
  NoDup l ->
  np_prod (map (fun x => if mem k [x] then v else 1) l)
  = if mem k l then v else 1.
Proof.
  induction 1 as [|x l Hx Hl IH]; simpl; auto.
  simpl in IH. rewrite IH. rewrite orb_false_r.
  destruct (Ascii.eqb k x) eqn:E; simpl.
  - apply Ascii.eqb_eq in E. subst x.
    apply mem_false in Hx. rewrite Hx. lia.
  - lia.
Qed.

Lemma extent_in_cons (k : label) (v : nat) (d : odict nat) (l : list label) :
  extent_in ((k, v) :: d) l = (if mem k l then v else 1) * extent_in d l.
Proof.
  unfold extent_in, np_prod. cbn [filter fst]. destruct (mem k l); simpl; lia.
Qed.

Lemma extent_in_leaves (d : odict nat) (l : list label) :
  NoDup l ->
  extent_in d l = np_prod (map (fun x => extent_in d [x]) l).
Proof.
  intros Hl. induction d as [|[k v] d IH].
  - unfold extent_in. cbn [filter map np_prod fold_right]. now rewrite np_prod_ones.
  - rewrite extent_in_cons.
    rewrite (np_prod_map_ext (fun x => extent_in ((k, v) :: d) [x])
               (fun x => (if mem k [x] then v else 1) * extent_in d [x]))
      by (intros; apply extent_in_cons).
    rewrite np_prod_map_mul, np_prod_select, <- IH by assumption.
    reflexivity.
Qed.

Lemma _size_of_axis_extent_in (S : Space) (ax : axis) :
  _size_of_axis S ax = extent_in (_extent S) (list_ascii_of_string ax).
Proof. reflexivity. Qed.

(** ** Products in 64-bit integers *)

Lemma int64_small (n : Z) : (0 <= n < 2 ^ 63)%Z -> int64 n = n.
Proof.
  intros H. unfold int64. rewrite Z.mod_small by lia. lia.
Qed.

Lemma int64_eq_mod (a b : Z) :
  (a mod 2 ^ 64 = b mod 2 ^ 64)%Z -> int64 a = int64 b.
Proof.
  intros H. unfold int64.
  rewrite <- (Z.add_mod_idemp_l a), H, Z.add_mod_idemp_l by lia. reflexivity.
Qed.

Lemma int64_mod (a : Z) : (int64 a mod 2 ^ 64 = a mod 2 ^ 64)%Z.
Proof.
  unfold int64. rewrite Zminus_mod_idemp_l. f_equal. lia.
Qed.

Lemma int64_mul (a b : Z) : int64 (int64 a * int64 b) = int64 (a * b).
Proof.
  apply int64_eq_mod.
  rewrite Z.mul_mod by lia. rewrite !int64_mod. rewrite <- Z.mul_mod by lia.
  reflexivity.
Qed.

Lemma np_prod_int64_fold (l : list nat) (acc : Z) :
  fold_left (fun acc v => int64 (acc * int64 (Z.of_nat v))) l (int64 acc)
  = int64 (acc * Z.of_nat (np_prod l)).
Proof.
  revert acc. induction l as [|v l IH]; intros acc; cbn [fold_left np_prod fold_right].
  - f_equal. lia.
  - rewrite int64_mul, IH. f_equal. fold (np_prod l). lia.
Qed.

(* numpy's product is the exact product wrapped once *)
Lemma np_prod_int64_wraps (l : list nat) :
  np_prod_int64 l = int64 (Z.of_nat (np_prod l)).
Proof.
  transitivity (fold_left (fun acc v => int64 (acc * int64 (Z.of_nat v))) l (int64 1));
    [reflexivity|].
  rewrite np_prod_int64_fold. f_equal. lia.
Qed.

(* and it is the exact product when that fits *)
Lemma np_prod_int64_exact (l : list nat) :
  fits_int64 l -> np_prod_int64 l = Z.of_nat (np_prod l).
Proof.
  intros [_ H]. rewrite np_prod_int64_wraps. apply int64_small. lia.
Qed.

Lemma Zprod_of_nat (l : list nat) : Zprod (map Z.of_nat l) = Z.of_nat (np_prod l).
Proof.
  induction l as [|v l IH]; cbn [map Zprod np_prod fold_right]; [reflexivity|].
  fold (Zprod (map Z.of_nat l)). fold (np_prod l). rewrite IH. lia.
Qed.

(* the size of a Space of seven axes of extent 2^9 is 2^63, and the code
   returns -2^63 for it *)
Lemma size_int64_wraps :
  Z.of_nat (size S_wide) = (2 ^ 63)%Z /\ size_int64 S_wide = (- 2 ^ 63)%Z.
Proof.
  split.
  - unfold size. rewrite <- Zprod_of_nat. reflexivity.
  - reflexivity.
Qed.

Lemma selected_cons (k : label) (v : nat) (d : odict nat) (L : list label) :
  selected ((k, v) :: d) L = if mem k L then v :: selected d L else selected d L.
Proof.
  unfold selected. cbn [filter fst]. now destruct (mem k L).
Qed.

Lemma selected_not_key (d : odict nat) (l : label) :
  ~ In l (od_keys d) -> selected d [l] = [].
Proof.
  unfold od_keys. induction d as [|[k v] d IH]; intros H; [reflexivity|].
  rewrite selected_cons. simpl in H.
  assert (Em : mem k [l] = false).
  { apply mem_false. intros [E|[]]. apply H. left. congruence. }
  rewrite Em. apply IH. tauto.
Qed.

Lemma selected_leaf (d : odict nat) (L : list label) (l : label) :
  NoDup (od_keys d) -> In l L ->
  selected d [l] = [] \/ exists v, selected d [l] = [v] /\ In v (selected d L).
Proof.
  intros Hk Hl. unfold od_keys in Hk.
  induction d as [|[k v] d IH]; [now left|].
  simpl in Hk. apply NoDup_cons_iff in Hk. destruct Hk as [Hnk Hk].
  rewrite !selected_cons.
  destruct (mem k [l]) eqn:Em.
  - apply mem_In in Em. destruct Em as [E|[]]. subst k.
    right. exists v. rewrite (@selected_not_key d l Hnk).
    split; [reflexivity|].
    apply mem_In in Hl. rewrite Hl. now left.
  - destruct (IH Hk) as [H|(v' & H & Hin)]; [now left|].
    right. exists v'. split; [exact H|].
    destruct (mem k L); [right|]; exact Hin.
Qed.

Lemma selected_leaf_fits (d : odict nat) (L : list label) (l : label) :
  NoDup (od_keys d) -> In l L -> fits_int64 (selected d L) ->
  fits_int64 (selected d [l]).
Proof.
  intros Hk Hl [Hall Hprod].
  destruct (@selected_leaf d L l Hk Hl) as [->|(v & -> & Hin)].
  - split; [constructor | reflexivity].
  - rewrite Forall_forall in Hall. specialize (Hall v Hin).
    split; [repeat constructor; exact Hall|].
    cbn [np_prod fold_right]. lia.
Qed.

Lemma _size_of_axis_int64_exact (S : Space) (ax : axis) :
  fits_int64 (selected (_extent S) (list_ascii_of_string ax)) ->
  _size_of_axis_int64 S ax = Z.of_nat (_size_of_axis S ax).
Proof. apply np_prod_int64_exact. Qed.

Lemma get_extent_int64_exact (S : Space) (axs : list axis) :
  Forall (fun ax => fits_int64 (selected (_extent S) (list_ascii_of_string ax))) axs ->
  get_extent_int64 S axs = map Z.of_nat (get_extent S axs).
Proof.
  intros H. unfold get_extent_int64, get_extent. rewrite map_map.
  apply map_ext_in. intros ax Hax. rewrite Forall_forall in H.
  now apply _size_of_axis_int64_exact, H.
Qed.

Lemma size_int64_exact (S : Space) :
  fits_int64 (od_values (_extent S)) -> size_int64 S = Z.of_nat (size S).
Proof. apply np_prod_int64_exact. Qed.

Lemma shape_int64_exact (S : Space) :
  Forall (fun ax => fits_int64 (selected (_extent S) (list_ascii_of_string ax)))
         (axes S) ->
  shape_int64 S = map Z.of_nat (shape S).
Proof. apply get_extent_int64_exact. Qed.

(* the bound on a list of numerals, by computation *)
Ltac fits_int64_numerals :=
  split; [simpl; repeat (apply Forall_cons; [reflexivity|]); apply Forall_nil
         | reflexivity].

(** C6: for a group of distinct leaf labels whose extents and their product
    fit 64-bit integers (in a dictionary, whose keys are distinct), the
    extent [get_extent] returns for the group is the product of the extents
    it returns for the leaves, each asked for on its own; there the values
    numpy computes are the exact products. *)
Theorem get_extent_group (S : Space) (ax : axis) :
  NoDup (list_ascii_of_string ax) ->
  NoDup (od_keys (_extent S)) ->
  fits_int64 (selected (_extent S) (list_ascii_of_string ax)) ->
  get_extent_int64 S [ax]
  = [Zprod (get_extent_int64 S (map axis_of_label (list_ascii_of_string ax)))]
  /\ get_extent_int64 S [ax] = map Z.of_nat (get_extent S [ax])
  /\ get_extent_int64 S (map axis_of_label (list_ascii_of_string ax))
     = map Z.of_nat (get_extent S (map axis_of_label (list_ascii_of_string ax)))
  /\ get_extent S [ax]
     = [np_prod (get_extent S (map axis_of_label (list_ascii_of_string ax)))].
Proof.
  intros Hnd Hk Hfit.
  assert (H4 : get_extent S [ax]
               = [np_prod (get_extent S (map axis_of_label (list_ascii_of_string ax)))]).
  { unfold get_extent. simpl. f_equal.
    rewrite _size_of_axis_extent_in, extent_in_leaves by assumption.
    rewrite map_map. reflexivity. }
  assert (H2 : get_extent_int64 S [ax] = map Z.of_nat (get_extent S [ax])).
  { apply get_extent_int64_exact. constructor; [exact Hfit | constructor]. }
  assert (H3 : get_extent_int64 S (map axis_of_label (list_ascii_of_string ax))
               = map Z.of_nat
                   (get_extent S (map axis_of_label (list_ascii_of_string ax)))).
  { apply get_extent_int64_exact. apply Forall_forall. intros a Ha.
    apply in_map_iff in Ha. destruct Ha as (l & <- & Hl).
    exact (@selected_leaf_fits _ _ l Hk Hl Hfit). }
  split; [|auto].
  rewrite H3, Zprod_of_nat, H2, H4. reflexivity.
Qed.

Lemma get_extent_group_witness :
  get_extent_int64 S_bw ["bw"%string]
  = [Zprod (get_extent_int64 S_bw (map axis_of_label (list_ascii_of_string "bw")))]
  /\ get_extent_int64 S_bw ["bw"%string] = map Z.of_nat (get_extent S_bw ["bw"%string])
  /\ get_extent_int64 S_bw (map axis_of_label (list_ascii_of_string "bw"))
     = map Z.of_nat (get_extent S_bw (map axis_of_label (list_ascii_of_string "bw")))
  /\ get_extent S_bw ["bw"%string]
     = [np_prod (get_extent S_bw (map axis_of_label (list_ascii_of_string "bw")))].
Proof.
  apply (get_extent_group S_bw "bw"%string).
  - repeat constructor; simpl; intuition discriminate.
  - repeat constructor; simpl; intuition discriminate.
  - fits_int64_numerals.
Defined.

(** C6, as stated, fails: in a Space of seven leaves of extent 2^9 the extent
    [get_extent] returns for each leaf is 512 and their product is 2^63, but
    the extent it returns for the group of the seven is that product taken
    in 64-bit integers, -2^63. *)
Lemma get_extent_group_wraps :
  NoDup (list_ascii_of_string "abcdefg")
  /\ NoDup (od_keys (_extent S_wide))
  /\ get_extent_int64 S_wide (map axis_of_label (list_ascii_of_string "abcdefg"))
     = [512; 512; 512; 512; 512; 512; 512]%Z
  /\ Zprod (get_extent_int64 S_wide (map axis_of_label (list_ascii_of_string "abcdefg")))
     = (2 ^ 63)%Z
  /\ get_extent_int64 S_wide ["abcdefg"%string] = [(- 2 ^ 63)%Z]
  /\ get_extent_int64 S_wide ["abcdefg"%string]
     <> [Zprod (get_extent_int64 S_wide
                  (map axis_of_label (list_ascii_of_string "abcdefg")))].
Proof.
  split; [repeat constructor; simpl; intuition discriminate|].
  split; [repeat constructor; simpl; intuition discriminate|].
  split; [reflexivity|]. split; [reflexivity|]. split; [reflexivity|].
  intros H. vm_compute in H. discriminate H.
Qed.

(** ** Space.infer *)

Lemma map_fst_combine {T U} (l : list T) (l' : list U) :
  List.length l = List.length l' -> map fst (combine l l') = l.
Proof.
  revert l'. induction l as [|x l IH]; intros [|y l']; simpl; intros H;
    try discriminate; auto.
  f_equal. apply IH. lia.
Qed.

(** C7: [infer] fails, with the assertion the specification calls
    ShapeMismatch, exactly when the number of labels differs from the rank of
    the array; otherwise it returns the Space of these axes whose extent
    lists, for distinct labels, each label with the dimension at its
    position. *)
Theorem infer_spec {A} (X : ndarray A) (axes : list label) :
  (infer X axes = Raise ShapeMismatch
   <-> List.length axes <> List.length (nd_shape X))
  /\ (List.length axes = List.length (nd_shape X) ->
      exists S, infer X axes = Ok S
        /\ _axes S = map axis_of_label axes
        /\ (NoDup axes -> _extent S = combine axes (nd_shape X))).
Proof.
  unfold infer. destruct (Nat.eqb_spec (List.length (nd_shape X)) (List.length axes)) as [E|E].
  - split.
    + split; [discriminate | congruence].
    + intros _. eexists. split; [reflexivity|]. split; [reflexivity|].
      intros Hnd. simpl. apply od_of_pairs_NoDup.
      rewrite map_fst_combine; [assumption | lia].
  - split.
    + split; [congruence | reflexivity].
    + congruence.
Qed.

Lemma infer_spec_witness :
  exists S, infer (mkArray [4; 10] (repeat 0%Z 40)) ["b"%char; "w"%char] = Ok S
    /\ _extent S = [("b"%char, 4); ("w"%char, 10)].
Proof.
  destruct (proj2 (infer_spec (mkArray [4; 10] (repeat 0%Z 40)) ["b"%char; "w"%char])
              eq_refl) as (S & HS & _ & Hext).
  exists S. split; [exact HS|]. apply Hext.
  repeat constructor; simpl; intuition discriminate.
Defined.

(** ** clone and set_extent over the store *)

Lemma read_setitem_same (st : Obj.store) (r : Obj.ref) (k : label) (v : nat) :
  r < List.length st ->
  Obj.read (Obj.setitem st r k v) r = od_set (Obj.read st r) k v.
Proof.
  unfold Obj.read. revert r. induction st as [|d st IH]; simpl; intros r Hr; [lia|].
  destruct r as [|r]; simpl; auto. apply IH. lia.
Qed.

Lemma read_setitem_other (st : Obj.store) (r r' : Obj.ref) (k : label) (v : nat) :
  r <> r' -> Obj.read (Obj.setitem st r k v) r' = Obj.read st r'.
Proof.
  unfold Obj.read. revert r r'. induction st as [|d st IH]; simpl; intros r r' Hr; auto.
  destruct r as [|r], r' as [|r']; simpl; auto; try lia; apply IH; lia.
Qed.

Lemma length_setitem (st : Obj.store) (r : Obj.ref) (k : label) (v : nat) :
  List.length (Obj.setitem st r k v) = List.length st.
Proof.
  revert r. induction st as [|d st IH]; simpl; intros r; auto.
  destruct r; simpl; auto.
Qed.

(* The space set_extent returns has the named extents overwritten ... *)
Lemma set_extent_returned (st : Obj.store) (self : Obj.SpaceRef) (extents : odict nat) :
  Obj._extent self < List.length st ->
  let (space, st') := Obj.set_extent st self extents in
  Obj._axes space = Obj._axes self
  /\ Obj.read st' (Obj._extent space)
     = fold_left (fun d e => od_set d (fst e) (snd e)) extents
                 (Obj.read st (Obj._extent self)).
Proof.
  unfold Obj.set_extent, Obj.clone. simpl. intros Hr. split; [reflexivity|].
  revert st Hr. induction extents as [|[k v] extents IH]; simpl; intros st Hr; auto.
  rewrite IH by (rewrite length_setitem; exact Hr).
  now rewrite read_setitem_same.
Qed.

(* ... and it is the dictionary of the source that was written: clone
   passes self._extent on, it does not copy it. *)
Lemma set_extent_shares_extent (st : Obj.store) (self : Obj.SpaceRef) (extents : odict nat) :
  let (space, st') := Obj.set_extent st self extents in
  Obj._extent space = Obj._extent self
  /\ Obj.value st' self = Obj.value st' space.
Proof.
  unfold Obj.set_extent, Obj.clone, Obj.value. simpl. auto.
Qed.

(** C2: on the space with extent {b: 4, w: 10}, [set_extent(b=7)] returns a
    space with extent {b: 7, w: 10}, and the extent of the source is
    {b: 7, w: 10} as well after the call: the source is not left untouched. *)
Theorem set_extent_overwrites_source :
  let (space, st') := Obj.set_extent st_bw ref_bw [("b"%char, 7)] in
  _extent (Obj.value st_bw ref_bw) = [("b"%char, 4); ("w"%char, 10)]
  /\ _extent (Obj.value st' space) = [("b"%char, 7); ("w"%char, 10)]
  /\ _extent (Obj.value st' ref_bw) = [("b"%char, 7); ("w"%char, 10)].
Proof.
  simpl. repeat split; reflexivity.
Qed.

(** ** Constructing a provider *)

(** C8, as stated, fails: over a dataset of 2 rows, a batch size of 3 and a
    batch size of -1 are both accepted by the constructors. *)
Lemma init_accepts_bad_batch_size :
  (3 > Z.of_nat (List.length (rows X_2rows)))%Z
  /\ (-1 <= 0)%Z
  /\ is_ok (MinibatchDataProvider.__init__ X_2rows [0; 1]%Z [2; 2] 3)
  /\ is_ok (MinibatchDataProvider.__init__ X_2rows [0; 1]%Z [2; 2] (-1))
  /\ is_ok (PaddedSequenceMinibatchProvider.__init__ (rows X_2rows) 3 0%Z true)
  /\ is_ok (PaddedSequenceMinibatchProvider.__init__ (rows X_2rows) (-1) 0%Z true).
Proof.
  simpl. repeat split; lia.
Qed.

Lemma py_div_small (a b : Z) : (0 <= a < b)%Z -> py_div a b = Ok 0%Z.
Proof.
  intros H. unfold py_div. destruct (Z.eqb_spec b 0); [lia|].
  now rewrite Z.div_small.
Qed.

(** C8, amended: the constructors fail exactly on a batch size of 0, with a
    ZeroDivisionError; any other batch size is accepted. A batch size greater
    than the number of rows gives a provider with 0 batches per epoch, whose
    first [next_batch] fails with a ZeroDivisionError. *)
Theorem init_fails_iff_zero {A B} (X : matrix A) (Y : list B) (lengths : list nat)
  (rowsX : list (list A)) (padding : A) (shuffle : bool) (batch_size : Z) (g : rng) :
  (MinibatchDataProvider.__init__ X Y lengths batch_size = Raise ZeroDivisionError
   <-> batch_size = 0%Z)
  /\ (PaddedSequenceMinibatchProvider.__init__ rowsX batch_size padding shuffle
      = Raise ZeroDivisionError <-> batch_size = 0%Z)
  /\ (batch_size <> 0%Z ->
      is_ok (MinibatchDataProvider.__init__ X Y lengths batch_size)
      /\ is_ok (PaddedSequenceMinibatchProvider.__init__ rowsX batch_size padding shuffle))
  /\ ((Z.of_nat (List.length (rows X)) < batch_size)%Z ->
      exists p, MinibatchDataProvider.__init__ X Y lengths batch_size = Ok p
        /\ MinibatchDataProvider.batches_per_epoch p = 0%Z
        /\ MinibatchDataProvider.next_batch p g = Raise ZeroDivisionError)
  /\ ((Z.of_nat (List.length rowsX) < batch_size)%Z ->
      exists p, PaddedSequenceMinibatchProvider.__init__ rowsX batch_size padding shuffle = Ok p
        /\ PaddedSequenceMinibatchProvider.batches_per_epoch p = 0%Z
        /\ PaddedSequenceMinibatchProvider.next_batch p g = Raise ZeroDivisionError).
Proof.
  unfold MinibatchDataProvider.__init__, PaddedSequenceMinibatchProvider.__init__.
  repeat split.
  - unfold py_div. destruct (Z.eqb_spec batch_size 0); simpl; [auto | discriminate].
  - intros ->. reflexivity.
  - unfold py_div. destruct (Z.eqb_spec batch_size 0); simpl; [auto | discriminate].
  - intros ->. reflexivity.
  - unfold py_div. destruct (Z.eqb_spec batch_size 0); simpl; [contradiction | exact I].
  - unfold py_div. destruct (Z.eqb_spec batch_size 0); simpl; [contradiction | exact I].
  - intros H. rewrite py_div_small by lia. simpl. eexists. split; [reflexivity|].
    split; reflexivity.
  - intros H. rewrite py_div_small by lia. simpl. eexists. split; [reflexivity|].
    split; reflexivity.
Qed.

Lemma init_fails_iff_zero_witness :
  exists p, MinibatchDataProvider.__init__ X_2rows [0; 1]%Z [2; 2] 3 = Ok p
    /\ MinibatchDataProvider.batches_per_epoch p = 0%Z
    /\ MinibatchDataProvider.next_batch p (mkRng (fun _ n => seq 0 n) 0)
       = Raise ZeroDivisionError.
Proof.
  apply (init_fails_iff_zero X_2rows [0; 1]%Z [2; 2] [] 0%Z true 3
           (mkRng (fun _ n => seq 0 n) 0)).
  simpl. lia.
Defined.

(** ** One-hot labels of the labelled sequence provider *)

Lemma fold_left_max_spec (l : list Z) (x : Z) :
  let m := fold_left Z.max l x in
  (m = x \/ In m l) /\ (x <= m)%Z /\ (forall y, In y l -> (y <= m)%Z).
Proof.
  revert x. induction l as [|a l IH]; simpl; intros x.
  - split; [now left|]. split; [lia | tauto].
  - destruct (IH (Z.max x a)) as (Hin & Hle & Hall).
    split; [|split].
    + destruct Hin as [Hm|Hm]; [|now right; right].
      rewrite Hm. destruct (Z.max_spec x a) as [[_ ->]|[_ ->]]; auto.
    + lia.
    + intros y [->|Hy]; [lia | auto].
Qed.

Lemma np_max_spec (l : list Z) (m : Z) :
  np_max l = Ok m -> In m l /\ (forall y, In y l -> (y <= m)%Z).
Proof.
  destruct l as [|x l]; simpl; [discriminate|].
  intros H. injection H as <-.
  destruct (fold_left_max_spec l x) as (Hin & Hle & Hall).
  split.
  - destruct Hin as [->|Hin]; auto.
  - intros y [<-|Hy]; auto.
Qed.

Lemma length_np_arange (n : Z) : List.length (np_arange n) = Z.to_nat n.
Proof.
  unfold np_arange. now rewrite length_map, length_seq.
Qed.

Lemma nth_error_np_arange (n : Z) (j : nat) :
  j < Z.to_nat n -> nth_error (np_arange n) j = Some (Z.of_nat j).
Proof.
  intros Hj. unfold np_arange.
  rewrite nth_error_map, nth_error_seq.
  apply Nat.ltb_lt in Hj. now rewrite Hj.
Qed.

Section OneHot.
Variable A : Type.
Import LabelledSequenceMinibatchProvider.

Lemma one_hot_row (labels : list Z) (n : Z) (i : nat) (y : Z) :
  nth_error labels i = Some y ->
  exists row, nth_error (one_hot labels n) i = Some row
    /\ List.length row = Z.to_nat n
    /\ forall j, j < Z.to_nat n ->
         nth_error row j
         = Some (if (y =? Z.of_nat j)%Z then 1%float else 0%float).
Proof.
  intros Hy. unfold one_hot. rewrite nth_error_map, Hy. simpl.
  eexists. split; [reflexivity|]. split.
  - now rewrite length_map, length_np_arange.
  - intros j Hj. now rewrite nth_error_map, nth_error_np_arange.
Qed.

(** C10: a batch of the labelled sequence provider carries, for its labels
    (class indices, so none negative), as many rows as labels, each of width
    the largest label of the batch plus one, with 1.0 at the position of the
    row's label and 0.0 everywhere else. *)
Theorem next_batch_one_hot (self self' : t A) (g g' : rng)
  (X_batch : list (list A)) (Y_batch : list (list float)) (meta : meta_t) :
  next_batch self g = Ok ((X_batch, Y_batch, meta), self', g') ->
  (forall y, In y (batch_labels self') -> (0 <= y)%Z) ->
  exists m,
    np_max (batch_labels self') = Ok m
    /\ In m (batch_labels self')
    /\ (forall y, In y (batch_labels self') -> (y <= m)%Z)
    /\ List.length Y_batch = List.length (batch_labels self')
    /\ forall i y, nth_error (batch_labels self') i = Some y ->
         exists row, nth_error Y_batch i = Some row
           /\ Z.of_nat (List.length row) = (m + 1)%Z
           /\ nth_error row (Z.to_nat y) = Some 1%float
           /\ forall j, j < List.length row -> j <> Z.to_nat y ->
                nth_error row j = Some 0%float.
Proof.
  unfold next_batch. intros H Hpos.
  destruct (_prepare_for_next_batch self g) as [[s1 g1]|e]; simpl in H; [|discriminate].
  fold (batch_labels s1) in H.
  destruct (np_max (batch_labels s1)) as [m|e] eqn:Hm; simpl in H; [|discriminate].
  destruct (np_max_nat _) as [w|e]; simpl in H; [|discriminate].
  injection H as <- <- _ <- _.
  destruct (np_max_spec _ Hm) as (Hin & Hmax).
  exists m. repeat split; auto.
  - unfold one_hot. now rewrite length_map.
  - intros i y Hy.
    assert (Hy0 : (0 <= y <= m)%Z)
      by (split; [apply Hpos | apply Hmax]; eapply nth_error_In; eauto).
    destruct (one_hot_row _ (m + 1) _ Hy) as (row & Hrow & Hlen & Hcell).
    exists row. split; [exact Hrow|]. split; [lia|]. split.
    + rewrite Hcell by lia. rewrite Z2Nat.id by lia. now rewrite Z.eqb_refl.
    + intros j Hj Hne. rewrite Hcell by lia.
      destruct (Z.eqb_spec y (Z.of_nat j)); [|reflexivity].
      exfalso. apply Hne. lia.
Qed.

End OneHot.

(* the example of the specification: labels [0, 2, 1] give rows of width 3 *)
Lemma next_batch_one_hot_example :
  exists X_batch meta self' g',
    LabelledSequenceMinibatchProvider.next_batch labelled_021 rng_id
    = Ok ((X_batch,
           [[1; 0; 0]; [0; 0; 1]; [0; 1; 0]]%float,
           meta), self', g').
Proof.
  do 4 eexists. reflexivity.
Qed.

Lemma next_batch_one_hot_witness :
  exists m,
    np_max [0; 2; 1]%Z = Ok m
    /\ In m [0; 2; 1]%Z
    /\ (forall y, In y [0; 2; 1]%Z -> (y <= m)%Z)
    /\ List.length [[1; 0; 0]; [0; 0; 1]; [0; 1; 0]]%float = 3
    /\ forall i y, nth_error [0; 2; 1]%Z i = Some y ->
         exists row,
           nth_error [[1; 0; 0]; [0; 0; 1]; [0; 1; 0]]%float i = Some row
           /\ Z.of_nat (List.length row) = (m + 1)%Z
           /\ nth_error row (Z.to_nat y) = Some 1%float
           /\ forall j, j < List.length row -> j <> Z.to_nat y ->
                nth_error row j = Some 0%float.
Proof.
  apply (@next_batch_one_hot Z labelled_021
           (LabelledSequenceMinibatchProvider.mk
              [[5]; [6; 7]; [8]]%Z [0; 2; 1]%Z 3 0%Z false 0 1)
           rng_id rng_id
           [[5; 0]; [6; 7]; [8; 0]]%Z
           [[1; 0; 0]; [0; 0; 1]; [0; 1; 0]]%float
           (mkMeta [1; 2; 1]
              (mkSpace ["b"; "w"]%string [("b"%char, 3); ("w"%char, 2)]))).
  - reflexivity.
  - simpl. intros y Hy. intuition lia.
Defined.

(** ** Indexing with a list of indices *)

Lemma gather_map_S {T} (x : T) (d : list T) (idxs : list nat) :
  gather (x :: d) (map S idxs) = gather d idxs.
Proof.
  induction idxs as [|i idxs IH]; simpl; auto. now rewrite IH.
Qed.

Lemma gather_all {T} (d : list T) : gather d (seq 0 (List.length d)) = d.
Proof.
  induction d as [|x d IH]; simpl; auto.
  rewrite <- seq_shift, gather_map_S, IH. reflexivity.
Qed.

Lemma gather_Permutation {T} (d : list T) (i1 i2 : list nat) :
  Permutation i1 i2 -> Permutation (gather d i1) (gather d i2).
Proof.
  induction 1 as [|i i1 i2 H IH|i j i1|i1 i2 i3 H1 IH1 H2 IH2]; simpl.
  - constructor.
  - destruct (nth_error d i); auto.
  - destruct (nth_error d i), (nth_error d j); auto. constructor.
  - eapply Permutation_trans; eauto.
Qed.

Lemma nth_error_gather {T} (d : list T) (idxs : list nat) (k : nat) :
  Forall (fun i => i < List.length d) idxs ->
  nth_error (gather d idxs) k
  = match nth_error idxs k with
    | Some i => nth_error d i
    | None => None
    end.
Proof.
  intros H. revert k. induction H as [|i idxs Hi H IH]; intros k; simpl.
  - now destruct k.
  - destruct (nth_error d i) as [x|] eqn:E.
    + destruct k; simpl; auto.
    + apply nth_error_None in E. lia.
Qed.

Lemma length_gather {T} (d : list T) (idxs : list nat) :
  Forall (fun i => i < List.length d) idxs ->
  List.length (gather d idxs) = List.length idxs.
Proof.
  induction 1 as [|i idxs Hi H IH]; simpl; auto.
  destruct (nth_error d i) as [x|] eqn:E; simpl; [now rewrite IH|].
  apply nth_error_None in E. lia.
Qed.

Lemma take_permutation {T} (d : list T) (perm : list nat) :
  Permutation perm (seq 0 (List.length d)) ->
  take d perm = Ok (gather d perm)
  /\ List.length (gather d perm) = List.length d
  /\ Permutation (gather d perm) d.
Proof.
  intros H.
  assert (Hall : Forall (fun i => i < List.length d) perm).
  { apply Forall_forall. intros i Hi.
    apply (Permutation_in _ H), in_seq in Hi. lia. }
  split; [|split].
  - unfold take. replace (forallb _ perm) with true; auto.
    symmetry. apply forallb_forall. intros i Hi. apply Nat.ltb_lt.
    rewrite Forall_forall in Hall. auto.
  - rewrite length_gather by assumption.
    rewrite (Permutation_length H). apply length_seq.
  - rewrite <- (gather_all d) at 2. now apply gather_Permutation.
Qed.

(** ** Slices *)

Lemma py_slice_range {T} (l : list T) (a b : Z) :
  (0 <= a <= b)%Z -> (b <= Z.of_nat (List.length l))%Z ->
  py_slice l a b = firstn (Z.to_nat (b - a)) (skipn (Z.to_nat a) l)
  /\ List.length (py_slice l a b) = Z.to_nat (b - a).
Proof.
  intros Hab Hb. unfold py_slice, slice_bound.
  destruct (Z.ltb_spec a 0); [lia|]. destruct (Z.ltb_spec b 0); [lia|].
  rewrite !Z.min_l by lia. split; [reflexivity|].
  rewrite length_firstn, length_skipn. lia.
Qed.

(** ** The cycle of batches of MinibatchDataProvider *)

Lemma flat_map_blocks (b k : nat) :
  flat_map (fun i => seq (i * b) b) (seq 0 k) = seq 0 (b * k).
Proof.
  induction k as [|k IH].
  - now rewrite Nat.mul_0_r.
  - rewrite seq_S, flat_map_app, IH. simpl. rewrite app_nil_r.
    replace (b * S k) with (b * k + b) by lia.
    rewrite seq_app. f_equal. f_equal. lia.
Qed.

Section Cycle.
Variables A B : Type.
Import MinibatchDataProvider.

Variable X0 : matrix A.
Variable Y0 : list B.
Variable lengths0 : list nat.
Variable bs : Z.
Variable g0 : rng.

Hypothesis rng_permutes : rng_ok g0.
Hypothesis Y_rows : List.length Y0 = List.length (rows X0).
Hypothesis lengths_rows : List.length lengths0 = List.length (rows X0).
Hypothesis batch_size_ok : (0 < bs <= Z.of_nat (List.length (rows X0)))%Z.

Lemma bpe_pos : (1 <= bpe X0 bs)%Z.
Proof.
  unfold bpe. apply Z.div_le_lower_bound; lia.
Qed.

Lemma bpe_rows : (bpe X0 bs * bs <= Z.of_nat (List.length (rows X0)))%Z.
Proof.
  unfold bpe. rewrite Z.mul_comm. apply Z.mul_div_le. lia.
Qed.

Lemma next_batch_step (n : nat) (s : t A B) (g : rng) :
  cycle_inv X0 bs g0 n s g ->
  exists X_batch Y_batch meta s' g',
    next_batch s g = Ok ((X_batch, Y_batch, meta), s', g')
    /\ cycle_inv X0 bs g0 (S n) s' g'
    /\ _batch_index s' = (Z.of_nat n mod bpe X0 bs)%Z
    /\ rows X_batch
       = firstn (Z.to_nat bs) (skipn (Z.to_nat (_batch_index s' * bs)) (rows (X s')))
    /\ Y_batch = firstn (Z.to_nat bs) (skipn (Z.to_nat (_batch_index s' * bs)) (Y s'))
    /\ meta_lengths meta
       = firstn (Z.to_nat bs) (skipn (Z.to_nat (_batch_index s' * bs)) (lengths s'))
    /\ List.length (rows X_batch) = Z.to_nat bs
    /\ (if (_batch_index s' =? 0)%Z
        then drawn g' = S (drawn g)
             /\ rows (X s')
                = gather (rows (X s)) (perm_at g (drawn g) (List.length (rows (X s))))
             /\ Y s' = gather (Y s) (perm_at g (drawn g) (List.length (rows (X s))))
             /\ lengths s'
                = gather (lengths s) (perm_at g (drawn g) (List.length (rows (X s))))
             /\ Permutation (perm_at g (drawn g) (List.length (rows (X s))))
                            (seq 0 (List.length (rows (X s))))
        else g' = g /\ X s' = X s /\ Y s' = Y s /\ lengths s' = lengths s).
Proof.
  intros (Hbs & Hbpe & Hidx & HX & HY & HL & HP & Hg).
  pose proof bpe_pos as Hpos. pose proof bpe_rows as Hrows.
  destruct s as [Xs Ys Ls bs' idx bpe']. simpl in *. subst bs' bpe'.
  assert (Hi : ((idx + 1) mod (bpe X0 bs) = Z.of_nat n mod (bpe X0 bs))%Z).
  { subst idx. destruct (Nat.eqb_spec n 0) as [->|Hn]; [reflexivity|].
    rewrite Z.add_mod_idemp_l by lia. f_equal. lia. }
  assert (Hrange : (0 <= Z.of_nat n mod (bpe X0 bs) < (bpe X0 bs))%Z) by (apply Z.mod_pos_bound; lia).
  set (i := (Z.of_nat n mod (bpe X0 bs))%Z) in *.
  assert (Hend : (i * bs + bs <= Z.of_nat (List.length (rows X0)))%Z) by nia.
  assert (Hstart : (0 <= i * bs)%Z) by nia.
  unfold next_batch, _prepare_for_next_batch, py_mod. simpl.
  destruct (Z.eqb_spec (bpe X0 bs) 0) as [E|_]; [lia|]. simpl. rewrite Hi.
  assert (Hnext : (if S n =? 0 then (-1)%Z else ((Z.of_nat (S n) - 1) mod (bpe X0 bs))%Z) = i).
  { replace (Z.of_nat (S n) - 1)%Z with (Z.of_nat n) by lia. reflexivity. }
  destruct (Z.eqb_spec i 0) as [E0|E0].
  - (* the index wrapped: shuffle *)
    unfold _shuffle_data, np_random_permutation. simpl.
    assert (Hperm : Permutation (perm_at g (drawn g) (List.length (rows Xs)))
                                (seq 0 (List.length (rows Xs))))
      by (rewrite Hg; apply rng_permutes).
    destruct (take_permutation (rows Xs) Hperm) as (-> & HlX & HpX).
    assert (HpermY : Permutation (perm_at g (drawn g) (List.length (rows Xs)))
                                 (seq 0 (List.length Ys))) by (rewrite HY, <- HX; exact Hperm).
    destruct (take_permutation Ys HpermY) as (-> & HlY & _).
    assert (HpermL : Permutation (perm_at g (drawn g) (List.length (rows Xs)))
                                 (seq 0 (List.length Ls))) by (rewrite HL, <- HX; exact Hperm).
    destruct (take_permutation Ls HpermL) as (-> & HlL & _).
    simpl. unfold batch_end. unfold batch_start. simpl.
    destruct (@py_slice_range _ (gather (rows Xs) (perm_at g (drawn g) (List.length (rows Xs))))
                (i * bs) (i * bs + bs)) as (-> & HlenX); [lia | lia |].
    destruct (@py_slice_range _ (gather Ys (perm_at g (drawn g) (List.length (rows Xs))))
                (i * bs) (i * bs + bs)) as (-> & _); [lia | lia |].
    destruct (@py_slice_range _ (gather Ls (perm_at g (drawn g) (List.length (rows Xs))))
                (i * bs) (i * bs + bs)) as (-> & _); [lia | lia |].
    replace (i * bs + bs - i * bs)%Z with bs in * by lia.
    do 5 eexists. split; [reflexivity|].
    split.
    { unfold cycle_inv. rewrite Hnext. simpl.
      repeat split; auto; try lia.
      eapply Permutation_trans; eauto. }
    simpl. repeat split; auto.
    destruct (Z.eqb_spec i 0); [|contradiction].
    repeat split; try reflexivity. exact Hperm.
  - (* no shuffle *)
    simpl. unfold batch_end. unfold batch_start. simpl.
    destruct (@py_slice_range _ (rows Xs) (i * bs) (i * bs + bs)) as (-> & HlenX);
      [lia | lia |].
    destruct (@py_slice_range _ Ys (i * bs) (i * bs + bs)) as (-> & _); [lia | lia |].
    destruct (@py_slice_range _ Ls (i * bs) (i * bs + bs)) as (-> & _); [lia | lia |].
    replace (i * bs + bs - i * bs)%Z with bs in * by lia.
    do 5 eexists. split; [reflexivity|].
    split.
    { unfold cycle_inv. rewrite Hnext. simpl. repeat split; auto. }
    simpl. repeat split; auto.
    destruct (Z.eqb_spec i 0); [contradiction|]. destruct Xs; repeat split; reflexivity.
Qed.

Lemma init_cycle_inv :
  exists p0, __init__ X0 Y0 lengths0 bs = Ok p0 /\ cycle_inv X0 bs g0 0 p0 g0.
Proof.
  unfold __init__, py_div. destruct (Z.eqb_spec bs 0) as [E|_]; [lia|]. simpl.
  eexists. split; [reflexivity|]. unfold cycle_inv. simpl. repeat split; auto.
Qed.

Lemma after_cycle_inv (p0 : t A B) (n : nat) :
  cycle_inv X0 bs g0 0 p0 g0 ->
  exists s g, after n p0 g0 = Ok (s, g) /\ cycle_inv X0 bs g0 n s g.
Proof.
  intros H0. induction n as [|n (s & g & Hafter & Hinv)]; simpl.
  - eauto.
  - destruct (next_batch_step Hinv) as (Xb & Yb & m & s' & g' & Hnb & Hinv' & _).
    rewrite Hafter. simpl. rewrite Hnb. simpl. eauto.
Qed.

Lemma visited_block (p0 : t A B) (e i : nat) :
  cycle_inv X0 bs g0 0 p0 g0 ->
  i < Z.to_nat (bpe X0 bs) ->
  visited p0 g0 (e * Z.to_nat (bpe X0 bs) + i + 1) = seq (i * Z.to_nat bs) (Z.to_nat bs).
Proof.
  intros H0 Hi. pose proof bpe_pos as Hpos.
  destruct (after_cycle_inv (e * Z.to_nat (bpe X0 bs) + i + 1) H0)
    as (s & g & Hafter & (Hbs & _ & Hidx & _)).
  unfold visited. rewrite Hafter. unfold batch_start. rewrite Hbs, Hidx.
  destruct (Nat.eqb_spec (e * Z.to_nat (bpe X0 bs) + i + 1) 0) as [E|_]; [lia|].
  replace (Z.of_nat (e * Z.to_nat (bpe X0 bs) + i + 1) - 1)%Z
    with (Z.of_nat i + Z.of_nat e * (bpe X0 bs))%Z by lia.
  rewrite Z.mod_add by lia. rewrite Z.mod_small by lia.
  f_equal. nia.
Qed.

(** C9: over a dataset of D rows and with a batch size B, 0 < B <= D, the
    call number n+1 of [next_batch] uses the batch index n mod floor(D/B) and
    returns the B rows, labels and lengths at the positions from index*B on
    of the dataset as it then is; that call reshuffles the dataset when the
    index is 0, drawing one permutation of the row positions and reordering
    the rows, the labels and the lengths by that same permutation, and leaves
    dataset and generator alone otherwise; the calls of an epoch slice the
    positions 0 .. B*floor(D/B)-1, each once. *)
Theorem next_batch_cycle :
  exists p0, __init__ X0 Y0 lengths0 bs = Ok p0
  /\ (forall n, exists s g X_batch Y_batch meta s' g',
        after n p0 g0 = Ok (s, g)
        /\ next_batch s g = Ok ((X_batch, Y_batch, meta), s', g')
        /\ after (S n) p0 g0 = Ok (s', g')
        /\ _batch_index s' = (Z.of_nat n mod (Z.of_nat (List.length (rows X0)) / bs))%Z
        /\ rows X_batch
           = firstn (Z.to_nat bs) (skipn (Z.to_nat (_batch_index s' * bs)) (rows (X s')))
        /\ Y_batch = firstn (Z.to_nat bs) (skipn (Z.to_nat (_batch_index s' * bs)) (Y s'))
        /\ meta_lengths meta
           = firstn (Z.to_nat bs) (skipn (Z.to_nat (_batch_index s' * bs)) (lengths s'))
        /\ List.length (rows X_batch) = Z.to_nat bs
        /\ Permutation (rows (X s')) (rows X0)
        /\ (if (_batch_index s' =? 0)%Z
            then drawn g' = S (drawn g)
                 /\ rows (X s')
                    = gather (rows (X s)) (perm_at g (drawn g) (List.length (rows (X s))))
                 /\ Y s' = gather (Y s) (perm_at g (drawn g) (List.length (rows (X s))))
                 /\ lengths s'
                    = gather (lengths s) (perm_at g (drawn g) (List.length (rows (X s))))
                 /\ Permutation (perm_at g (drawn g) (List.length (rows (X s))))
                                (seq 0 (List.length (rows (X s))))
            else g' = g /\ X s' = X s /\ Y s' = Y s /\ lengths s' = lengths s))
  /\ (forall e,
        flat_map (fun i => visited p0 g0 (e * Z.to_nat (bpe X0 bs) + i + 1))
                 (seq 0 (Z.to_nat (bpe X0 bs)))
        = seq 0 (Z.to_nat bs * Z.to_nat (bpe X0 bs))).
Proof.
  destruct init_cycle_inv as (p0 & Hinit & H0).
  exists p0. split; [exact Hinit|]. split.
  - intros n. destruct (after_cycle_inv n H0) as (s & g & Hafter & Hinv).
    destruct (next_batch_step Hinv)
      as (Xb & Yb & m & s' & g' & Hnb & Hinv' & Hidx & HXb & HYb & HLb & Hlen & Hsh).
    exists s, g, Xb, Yb, m, s', g'.
    repeat split; auto.
    + simpl. rewrite Hafter. simpl. rewrite Hnb. reflexivity.
    + apply Hinv'.
  - intros e. rewrite <- flat_map_blocks.
    rewrite !flat_map_concat_map. f_equal. apply map_ext_in.
    intros i Hi. apply in_seq in Hi. apply visited_block; [exact H0 | lia].
Qed.

End Cycle.

(** ** Positions in a list *)

Section Position.
Variable T : Type.
Variable eqb : T -> T -> bool.
Hypothesis eqb_eq : forall x y, eqb x y = true <-> x = y.

Lemma nth_error_position (x : T) (l : list T) :
  In x l ->
  position eqb x l < List.length l /\ nth_error l (position eqb x l) = Some x.
Proof.
  induction l as [|y l IH]; simpl; [tauto|]. intros H.
  destruct (eqb x y) eqn:E.
  - apply eqb_eq in E. subst y. split; [lia | reflexivity].
  - assert (Hin : In x l).
    { destruct H as [H|H]; auto. subst y.
      assert (Ht : eqb x x = true) by now apply eqb_eq. congruence. }
    destruct (IH Hin). split; [lia | assumption].
Qed.

Lemma position_nth_error (x : T) (l : list T) (i : nat) :
  NoDup l -> nth_error l i = Some x -> position eqb x l = i.
Proof.
  intros Hnd. revert i. induction Hnd as [|y l Hy Hnd IH]; intros i Hi.
  - destruct i; discriminate.
  - simpl. destruct i as [|i]; simpl in Hi.
    + injection Hi as ->. assert (Ht : eqb x x = true) by now apply eqb_eq.
      now rewrite Ht.
    + destruct (eqb x y) eqn:E.
      * apply eqb_eq in E. subst y. apply nth_error_In in Hi. contradiction.
      * f_equal. now apply IH.
Qed.

Lemma position_map_inj (l : list T) :
  NoDup l -> forall l', incl l' l -> NoDup l' ->
  NoDup (map (fun x => position eqb x l) l').
Proof.
  intros Hl l' Hincl Hnd. apply NoDup_map_NoDup_ForallPairs; [|assumption].
  intros x y Hx Hy Hxy.
  destruct (nth_error_position x l (Hincl _ Hx)) as [_ H1].
  destruct (nth_error_position y l (Hincl _ Hy)) as [_ H2].
  rewrite Hxy in H1. congruence.
Qed.

End Position.

Lemma index_position (x : label) (l : list label) :
  In x l -> index x l = Ok (position Ascii.eqb x l).
Proof.
  induction l as [|y l IH]; simpl; [tauto|]. intros H.
  destruct (Ascii.eqb x y) eqn:E; [reflexivity|].
  rewrite IH; [reflexivity|]. destruct H as [H|H]; auto.
  subst y. rewrite Ascii.eqb_refl in E. discriminate.
Qed.

Lemma index_ok (x : label) (l : list label) (i : nat) :
  index x l = Ok i -> In x l /\ i = position Ascii.eqb x l.
Proof.
  revert i. induction l as [|y l IH]; simpl; intros i H; [discriminate|].
  destruct (Ascii.eqb x y) eqn:E.
  - apply Ascii.eqb_eq in E. injection H as <-. auto.
  - destruct (index x l) as [j|e]; simpl in H; [|discriminate].
    injection H as <-. destruct (IH j eq_refl) as [Hin ->]. auto.
Qed.

Lemma mapM_index_position (E B : list label) :
  incl B E ->
  mapM (fun d => index d E) B = Ok (map (fun d => position Ascii.eqb d E) B).
Proof.
  induction B as [|b B IH]; simpl; intros H; [reflexivity|].
  rewrite index_position by (apply H; now left). simpl.
  rewrite IH by (intros x Hx; apply H; now right). reflexivity.
Qed.

Lemma mapM_index_ok (E B : list label) (perm : list nat) :
  mapM (fun d => index d E) B = Ok perm ->
  incl B E /\ perm = map (fun d => position Ascii.eqb d E) B.
Proof.
  revert perm. induction B as [|b B IH]; simpl; intros perm H.
  - injection H as <-. split; [intros x [] | reflexivity].
  - destruct (index b E) as [i|e] eqn:Hi; simpl in H; [|discriminate].
    destruct (mapM _ B) as [q|e]; simpl in H; [|discriminate].
    injection H as <-. destruct (IH q eq_refl) as [Hincl ->].
    destruct (index_ok _ _ Hi) as [Hin ->].
    split; [|reflexivity]. intros x [<-|Hx]; auto.
Qed.

(** ** Multi-indices in row-major order *)

Lemma ravel_lt (sh idx : list nat) :
  Forall2 lt idx sh -> ravel sh idx < np_prod sh.
Proof.
  induction 1 as [|i d idx sh Hi H IH]; simpl; [lia|].
  fold (np_prod sh). nia.
Qed.

Lemma unravel_ravel (sh idx : list nat) :
  Forall2 lt idx sh -> unravel sh (ravel sh idx) = idx.
Proof.
  induction 1 as [|i d idx sh Hi H IH]; simpl; [reflexivity|].
  pose proof (ravel_lt H) as Hr.
  assert (Hp : np_prod sh <> 0) by lia.
  rewrite Nat.div_add_l, Nat.div_small, Nat.add_0_r by assumption.
  rewrite Nat.add_comm, Nat.Div0.mod_add, Nat.mod_small by assumption.
  now rewrite IH.
Qed.

Lemma unravel_bounds (sh : list nat) (n : nat) :
  n < np_prod sh -> Forall2 lt (unravel sh n) sh.
Proof.
  revert n. induction sh as [|d sh IH]; simpl; intros n Hn; [constructor|].
  fold (np_prod sh) in *.
  assert (Hp : np_prod sh <> 0) by nia.
  constructor.
  - apply Nat.Div0.div_lt_upper_bound. lia.
  - apply IH. now apply Nat.mod_upper_bound.
Qed.

Lemma ravel_unravel (sh : list nat) (n : nat) :
  n < np_prod sh -> ravel sh (unravel sh n) = n.
Proof.
  revert n. induction sh as [|d sh IH]; simpl; intros n Hn; [lia|].
  fold (np_prod sh) in *.
  assert (Hp : np_prod sh <> 0) by nia.
  rewrite IH by now apply Nat.mod_upper_bound.
  pose proof (Nat.div_mod_eq n (np_prod sh)). lia.
Qed.

Lemma ravel_app (s1 s2 i1 i2 : list nat) :
  List.length i1 = List.length s1 ->
  ravel (s1 ++ s2) (i1 ++ i2) = ravel s1 i1 * np_prod s2 + ravel s2 i2.
Proof.
  revert i1. induction s1 as [|d s1 IH]; intros [|i i1]; simpl; intros H;
    try discriminate; auto.
  fold (np_prod (s1 ++ s2)). rewrite np_prod_app, IH by lia.
  fold (np_prod s1). lia.
Qed.

Lemma np_prod_Permutation (l l' : list nat) :
  Permutation l l' -> np_prod l = np_prod l'.
Proof.
  induction 1; simpl; lia.
Qed.

(** ** Permutations of the axes *)

Lemma inverse_perms_sym (p q : list nat) :
  inverse_perms p q -> inverse_perms q p.
Proof.
  intros (Hl & Hp & Hq). repeat split; auto; apply Hq || apply Hp; auto.
Qed.

Lemma nth_map_lt {T U} (f : T -> U) (l : list T) (k : nat) (d : T) (d' : U) :
  k < List.length l -> nth k (map f l) d' = f (nth k l d).
Proof.
  intros Hk. rewrite (nth_indep _ d' (f d)) by now rewrite length_map.
  apply map_nth.
Qed.

Lemma nth_map_seq {U} (f : nat -> U) (n m : nat) (d : U) :
  m < n -> nth m (map f (seq 0 n)) d = f m.
Proof.
  intros Hm. rewrite (nth_map_lt f _ 0) by now rewrite length_seq.
  now rewrite seq_nth.
Qed.

Lemma map_nth_seq (l : list nat) :
  map (fun k => nth k l 0) (seq 0 (List.length l)) = l.
Proof.
  apply (nth_ext _ _ 0 0).
  - now rewrite length_map, length_seq.
  - intros k Hk. rewrite length_map, length_seq in Hk.
    now apply (nth_map_seq (fun k => nth k l 0)).
Qed.

Lemma length_permute (p l : list nat) : List.length (permute p l) = List.length p.
Proof. apply length_map. Qed.

Lemma nth_permute (p l : list nat) (k : nat) :
  k < List.length p -> nth k (permute p l) 0 = nth (nth k p 0) l 0.
Proof.
  intros Hk. unfold permute. now rewrite (nth_map_lt _ _ 0).
Qed.

Lemma inverse_perms_NoDup (p q : list nat) : inverse_perms p q -> NoDup p.
Proof.
  intros (Hl & Hp & Hq). apply (NoDup_nth p 0). intros i j Hi Hj E.
  destruct (Hp i Hi) as [_ <-]. destruct (Hp j Hj) as [_ <-]. now rewrite E.
Qed.

Lemma inverse_perms_bounds (p q : list nat) :
  inverse_perms p q -> Forall (fun k => k < List.length p) p.
Proof.
  intros (Hl & Hp & Hq). apply Forall_forall. intros x Hx.
  destruct (In_nth _ _ 0 Hx) as (k & Hk & <-). now apply Hp.
Qed.

Lemma inverse_perms_seq (p q : list nat) :
  inverse_perms p q -> Permutation p (seq 0 (List.length p)).
Proof.
  intros H. pose proof (inverse_perms_bounds H) as Hb.
  pose proof (inverse_perms_NoDup H) as Hnd.
  destruct H as (Hl & Hp & Hq).
  apply NoDup_Permutation.
  - exact Hnd.
  - apply seq_NoDup.
  - intros x. rewrite in_seq. split.
    + intros Hx. rewrite Forall_forall in Hb. specialize (Hb x Hx). lia.
    + intros [_ Hx]. simpl in Hx. rewrite Hl in Hx.
      destruct (Hq x Hx) as [Hlt <-]. apply nth_In. lia.
Qed.

Lemma permute_Permutation (p q l : list nat) :
  inverse_perms p q -> List.length l = List.length p ->
  Permutation (permute p l) l.
Proof.
  intros H Hl. rewrite <- (map_nth_seq l) at 2. rewrite Hl.
  apply Permutation_map. now apply (inverse_perms_seq (q := q)).
Qed.

Lemma permute_inverse (p q l : list nat) :
  inverse_perms p q -> List.length l = List.length p ->
  permute q (permute p l) = l.
Proof.
  intros (Hpq & Hp & Hq) Hl. apply (nth_ext _ _ 0 0).
  - rewrite length_permute. lia.
  - intros k Hk. rewrite length_permute in Hk.
    destruct (Hq k Hk) as [Hlt E].
    rewrite nth_permute, nth_permute by lia. now rewrite E.
Qed.

Lemma Forall2_lt_nth (idx sh : list nat) (k : nat) :
  Forall2 lt idx sh -> k < List.length sh -> nth k idx 0 < nth k sh 0.
Proof.
  intros H. revert k. induction H as [|i d idx sh Hi H IH]; simpl; intros k Hk; [lia|].
  destruct k; auto. apply IH. lia.
Qed.

Lemma permute_bounds (p idx sh : list nat) :
  Forall2 lt idx sh -> Forall (fun k => k < List.length sh) p ->
  Forall2 lt (permute p idx) (permute p sh).
Proof.
  intros H. induction 1 as [|k p Hk Hp IH]; simpl; constructor; auto.
  now apply Forall2_lt_nth.
Qed.

Lemma nodupb_NoDup (p : list nat) : nodupb p = true <-> NoDup p.
Proof.
  induction p as [|k p IH]; simpl.
  - split; [constructor | reflexivity].
  - rewrite andb_true_iff, negb_true_iff, IH. split.
    + intros [Hk Hp]. constructor; auto. intros Hin.
      assert (E : existsb (Nat.eqb k) p = true)
        by (apply existsb_exists; exists k; split; [assumption | apply Nat.eqb_refl]).
      congruence.
    + intros H. apply NoDup_cons_iff in H. destruct H as [Hk Hp]. split; auto.
      destruct (existsb (Nat.eqb k) p) eqn:E; auto.
      apply existsb_exists in E. destruct E as (x & Hx & Hkx).
      apply Nat.eqb_eq in Hkx. subst x. contradiction.
Qed.

Lemma is_permb_spec (p : list nat) (n : nat) :
  is_permb p n = true
  <-> List.length p = n /\ Forall (fun k => k < n) p /\ NoDup p.
Proof.
  unfold is_permb. rewrite !andb_true_iff, Nat.eqb_eq, nodupb_NoDup.
  rewrite forallb_forall, Forall_forall.
  split.
  - intros [[H1 H2] H3]. repeat split; auto.
    intros x Hx. apply Nat.ltb_lt; auto.
  - intros (H1 & H2 & H3). repeat split; auto.
    intros x Hx. apply Nat.ltb_lt; auto.
Qed.

Lemma inverse_perms_is_permb (p q : list nat) :
  inverse_perms p q -> is_permb p (List.length p) = true.
Proof.
  intros H. apply is_permb_spec. split; [reflexivity|]. split.
  - now apply (inverse_perms_bounds (q := q)).
  - now apply (inverse_perms_NoDup (q := q)).
Qed.

Lemma inv_perm_inverse (p q : list nat) : inverse_perms p q -> inv_perm p = q.
Proof.
  intros H. pose proof (inverse_perms_NoDup H) as Hnd.
  destruct H as (Hl & Hp & Hq). unfold inv_perm. apply (nth_ext _ _ 0 0).
  - now rewrite length_map, length_seq.
  - intros m Hm. rewrite length_map, length_seq in Hm.
    rewrite nth_map_seq by assumption.
    rewrite Hl in Hm. destruct (Hq m Hm) as [Hlt E].
    unfold pos. rewrite <- E at 1.
    apply (position_nth_error Nat.eqb Nat.eqb_eq); [assumption|].
    rewrite E. rewrite (nth_error_nth' p 0) by lia. now rewrite E.
Qed.

Lemma gather_gather {T} (d : list T) (I J : list nat) :
  Forall (fun i => i < List.length d) I ->
  Forall (fun j => j < List.length I) J ->
  gather (gather d I) J = gather d (map (fun j => nth j I 0) J).
Proof.
  intros HI. induction 1 as [|j J Hj HJ IH]; simpl; auto.
  rewrite nth_error_gather by assumption.
  rewrite (nth_error_nth' I 0) by assumption.
  rewrite IH. reflexivity.
Qed.

(* transposing by p and then by the permutation that undoes p gives back
   the data *)
Lemma transpose_data_inverse {T} (d : list T) (sh p q : list nat) :
  inverse_perms p q ->
  List.length sh = List.length p ->
  List.length d = np_prod sh ->
  gather
    (gather d
       (map (fun n => ravel sh (permute (inv_perm p) (unravel (permute p sh) n)))
            (seq 0 (np_prod (permute p sh)))))
    (map (fun n => ravel (permute p sh)
                     (permute (inv_perm q) (unravel (permute q (permute p sh)) n)))
         (seq 0 (np_prod (permute q (permute p sh)))))
  = d.
Proof.
  intros H Hsh Hd.
  pose proof (inverse_perms_sym H) as H'.
  rewrite (inv_perm_inverse H), (inv_perm_inverse H'), (permute_inverse sh H Hsh).
  rewrite (np_prod_Permutation (permute_Permutation sh H Hsh)).
  assert (Hbp : Forall (fun k => k < List.length sh) p)
    by (rewrite Hsh; apply (inverse_perms_bounds H)).
  assert (Hbq : Forall (fun k => k < List.length (permute p sh)) q).
  { rewrite length_permute. destruct H as (Hl & _). rewrite Hl.
    apply (inverse_perms_bounds H'). }
  assert (HJ : forall n, n < np_prod sh ->
             Forall2 lt (permute p (unravel sh n)) (permute p sh))
    by (intros n Hn; apply permute_bounds; [now apply unravel_bounds | assumption]).
  assert (HI : forall n, n < np_prod sh ->
             Forall2 lt (permute q (unravel (permute p sh) n)) sh).
  { intros n Hn. rewrite <- (permute_inverse sh H Hsh) at 2.
    apply permute_bounds; [|exact Hbq]. apply unravel_bounds.
    now rewrite (np_prod_Permutation (permute_Permutation sh H Hsh)). }
  rewrite gather_gather.
  - rewrite map_map.
    rewrite (map_ext_in _ (fun n => n)).
    + rewrite map_id, <- Hd. apply gather_all.
    + intros n Hn. apply in_seq in Hn. simpl in Hn.
      rewrite (nth_map_seq _ 0).
      * rewrite unravel_ravel by (apply HJ; lia).
        rewrite permute_inverse; [apply ravel_unravel; lia | assumption |].
        pose proof (unravel_bounds sh (n := n)) as Hu.
        rewrite <- Hsh. apply (Forall2_length (Hu ltac:(lia))).
      * rewrite <- (np_prod_Permutation (permute_Permutation sh H Hsh)).
        apply ravel_lt, HJ. lia.
  - apply Forall_forall. intros i Hi. apply in_map_iff in Hi.
    destruct Hi as (n & <- & Hn). apply in_seq in Hn. simpl in Hn. rewrite Hd.
    apply ravel_lt, HI. lia.
  - apply Forall_forall. intros j Hj. apply in_map_iff in Hj.
    destruct Hj as (n & <- & Hn). apply in_seq in Hn. simpl in Hn.
    rewrite length_map, length_seq.
    rewrite <- (np_prod_Permutation (permute_Permutation sh H Hsh)).
    apply ravel_lt, HJ. lia.
Qed.

(** ** Well-formed spaces *)

Lemma _fold_axes_app (a b : list axis) :
  _fold_axes (a ++ b) = _fold_axes a ++ _fold_axes b.
Proof.
  unfold _fold_axes. now rewrite map_app, concat_app.
Qed.

Lemma _fold_axes_labels (l : list label) : _fold_axes (map axis_of_label l) = l.
Proof.
  unfold _fold_axes. induction l as [|x l IH]; simpl; auto. now rewrite IH.
Qed.

Lemma extent_in_not_key (d : odict nat) (b : label) :
  ~ In b (od_keys d) -> extent_in d [b] = 1.
Proof.
  unfold od_keys. induction d as [|[k v] d IH]; intros H.
  - reflexivity.
  - rewrite extent_in_cons. simpl in H. rewrite IH by tauto.
    simpl. destruct (Ascii.eqb_spec k b); [tauto | reflexivity].
Qed.

Lemma od_get_extent_in (d : odict nat) (b : label) :
  NoDup (od_keys d) -> od_get d b 1 = extent_in d [b].
Proof.
  unfold od_keys. induction d as [|[k v] d IH]; simpl; intros H.
  - reflexivity.
  - apply NoDup_cons_iff in H. destruct H as [Hk Hd].
    rewrite extent_in_cons. simpl. rewrite orb_false_r.
    rewrite (Ascii.eqb_sym k b).
    destruct (Ascii.eqb_spec b k) as [->|Hne].
    + rewrite extent_in_not_key by assumption. lia.
    + rewrite IH by assumption. lia.
Qed.

Lemma extent_in_all (d : odict nat) (l : list label) :
  incl (od_keys d) l -> extent_in d l = np_prod (od_values d).
Proof.
  unfold extent_in, od_keys, od_values. induction d as [|[k v] d IH]; simpl; intros H.
  - reflexivity.
  - assert (Hk : mem k l = true) by (apply mem_In, H; now left).
    rewrite Hk. simpl. fold (np_prod (map snd (filter (fun kv => mem (fst kv) l) d))).
    rewrite IH; [reflexivity|]. intros x Hx. apply H. now right.
Qed.

(* the product of the extents .get(b, 1) finds for distinct labels that
   cover the dictionary *)
Lemma np_prod_get (d : odict nat) (B : list label) :
  NoDup (od_keys d) -> NoDup B -> incl (od_keys d) B ->
  np_prod (map (fun b => od_get d b 1) B) = np_prod (od_values d).
Proof.
  intros Hd HB Hincl.
  rewrite (np_prod_map_ext _ (fun b => extent_in d [b]))
    by (intros; now apply od_get_extent_in).
  rewrite <- extent_in_leaves by assumption.
  now apply extent_in_all.
Qed.

Lemma np_prod_concat (ls : list (list nat)) :
  np_prod (List.concat ls) = np_prod (map np_prod ls).
Proof.
  induction ls as [|l ls IH]; simpl; auto.
  fold (np_prod (List.concat ls)) in *. fold (np_prod (map np_prod ls)).
  rewrite <- IH. apply np_prod_app.
Qed.

Lemma NoDup_concat_parts {T} (ls : list (list T)) (l : list T) :
  NoDup (List.concat ls) -> In l ls -> NoDup l.
Proof.
  induction ls as [|l' ls IH]; simpl; intros Hnd Hin; [contradiction|].
  destruct Hin as [->|Hin].
  - now apply NoDup_app_remove_r in Hnd.
  - apply IH; auto. now apply NoDup_app_remove_l in Hnd.
Qed.

(* the grouped shape and the folded shape have the same product *)
Lemma np_prod_shape (S : Space) : wf S -> np_prod (shape S) = size S.
Proof.
  intros [Hk Hnd]. unfold shape, size.
  rewrite <- (@extent_in_all (_extent S) (folded_axes S))
    by (rewrite Hk; apply incl_refl).
  rewrite extent_in_leaves by assumption.
  unfold folded_axes, axes, _fold_axes in *.
  rewrite concat_map, np_prod_concat, !map_map.
  apply np_prod_map_ext. intros ax Hax.
  rewrite _size_of_axis_extent_in. apply extent_in_leaves.
  apply (NoDup_concat_parts _ _ Hnd). now apply in_map.
Qed.

Lemma nth_position_values (d : odict nat) (b : label) (dflt : nat) :
  In b (od_keys d) ->
  nth (position Ascii.eqb b (od_keys d)) (od_values d) 0 = od_get d b dflt.
Proof.
  unfold od_keys, od_values. induction d as [|[k v] d IH]; simpl; [tauto|].
  intros H. destruct (Ascii.eqb_spec b k) as [->|Hne]; [reflexivity|].
  apply IH. destruct H as [H|H]; [congruence | assumption].
Qed.

Lemma od_get_map_pairs {V} (f : label -> V) (B : list label) (a : label) (dflt : V) :
  In a B -> od_get (map (fun b => (b, f b)) B) a dflt = f a.
Proof.
  induction B as [|b B IH]; simpl; [tauto|]. intros H.
  destruct (Ascii.eqb_spec a b) as [->|Hne]; [reflexivity|].
  apply IH. destruct H as [H|H]; [congruence | assumption].
Qed.

Lemma map_get_keys {V} (d : odict V) (dflt : V) :
  NoDup (od_keys d) -> map (fun a => (a, od_get d a dflt)) (od_keys d) = d.
Proof.
  unfold od_keys. induction d as [|[k v] d IH]; simpl; intros H; [reflexivity|].
  apply NoDup_cons_iff in H. destruct H as [Hk Hd].
  rewrite Ascii.eqb_refl. f_equal. rewrite <- (IH Hd) at 2.
  apply map_ext_in. intros a Ha.
  destruct (Ascii.eqb_spec a k) as [->|Hne]; [contradiction | reflexivity].
Qed.

Lemma fold_od_set_fresh (M : list label) (d : odict nat) :
  NoDup M -> (forall m, In m M -> ~ In m (od_keys d)) ->
  fold_left (fun d ax => od_set d ax 1) M d = d ++ map (fun m => (m, 1)) M.
Proof.
  intros HM. revert d. induction HM as [|m M Hm HM IH]; simpl; intros d H.
  - now rewrite app_nil_r.
  - rewrite od_set_fresh by (apply H; now left).
    rewrite IH.
    + now rewrite <- app_assoc.
    + intros x Hx. unfold od_keys. rewrite map_app, in_app_iff. simpl.
      intros [Hin|[->|[]]]; [|contradiction].
      apply (H x); [now right | exact Hin].
Qed.

(** ** Space.transform *)

Lemma np_reshape_raise {T} (X : ndarray T) (s : list nat) (e : exn) :
  np_reshape X s = Raise e -> e = ValueError.
Proof.
  unfold np_reshape. destruct (_ =? _); [discriminate | congruence].
Qed.

Lemma np_transpose_raise {T} (X : ndarray T) (p : list nat) (e : exn) :
  np_transpose X p = Raise e -> e = ValueError.
Proof.
  unfold np_transpose. destruct (is_permb _ _); [discriminate | congruence].
Qed.

Lemma index_raise (x : label) (l : list label) (e : exn) :
  index x l = Raise e -> e = ValueError.
Proof.
  induction l as [|y l IH]; simpl; [congruence|].
  destruct (Ascii.eqb x y); [discriminate|].
  destruct (index x l); simpl; [discriminate|]. intros H. apply IH. congruence.
Qed.

Lemma mapM_index_raise (E B : list label) (e : exn) :
  mapM (fun d => index d E) B = Raise e -> e = ValueError.
Proof.
  induction B as [|b B IH]; simpl; [discriminate|].
  destruct (index b E) eqn:Hi; simpl.
  - destruct (mapM _ B); simpl; [discriminate|]. intros H. apply IH. congruence.
  - intros H. apply (index_raise b E). congruence.
Qed.

Lemma subset_false (a b : list label) : subset a b = false <-> ~ incl a b.
Proof.
  rewrite <- subset_incl. destruct (subset a b); split; congruence.
Qed.

Lemma new_space_of_NoDup (S : Space) (new_axes : list axis) :
  NoDup (_fold_axes new_axes) ->
  new_space_of S new_axes
  = mkSpace new_axes
      (map (fun ax => (ax, od_get (_extent S) ax 1)) (_fold_axes new_axes)).
Proof.
  intros H. unfold new_space_of. rewrite od_of_pairs_NoDup; [reflexivity|].
  rewrite map_map. simpl. now rewrite map_id.
Qed.

Lemma new_space_of_wf (S : Space) (new_axes : list axis) :
  NoDup (_fold_axes new_axes) -> wf (new_space_of S new_axes).
Proof.
  intros H. rewrite new_space_of_NoDup by assumption. split; simpl; [|assumption].
  unfold od_keys. rewrite map_map. simpl. now rewrite map_id.
Qed.

Section TransformFacts.

Variable set_iter : list label -> list label.
Hypothesis set_iter_perm : forall l, Permutation (set_iter l) l.

Lemma missing_In (S : Space) (new_axes : list axis) (m : label) :
  In m (missing set_iter S new_axes)
  <-> In m (_fold_axes new_axes) /\ ~ In m (folded_axes S).
Proof.
  unfold missing. rewrite <- set_diff_In. split; apply Permutation_in.
  - apply set_iter_perm.
  - apply Permutation_sym, set_iter_perm.
Qed.

Lemma missing_NoDup (S : Space) (new_axes : list axis) :
  NoDup (missing set_iter S new_axes).
Proof.
  unfold missing. eapply Permutation_NoDup.
  - apply Permutation_sym, set_iter_perm.
  - apply set_diff_NoDup.
Qed.

Lemma missing_nil (S : Space) (new_axes : list axis) :
  incl (_fold_axes new_axes) (folded_axes S) -> missing set_iter S new_axes = [].
Proof.
  intros H. destruct (missing set_iter S new_axes) as [|m M] eqn:E; [reflexivity|].
  assert (Hm : In m (missing set_iter S new_axes)) by (rewrite E; now left).
  apply missing_In in Hm. destruct Hm as [Hb Ha]. exfalso. auto.
Qed.

Lemma folded_axes_expand (S : Space) (new_axes : list axis) :
  incl (folded_axes S) (_fold_axes new_axes) ->
  folded_axes (expand set_iter S (new_space_of S new_axes))
  = folded_axes S ++ missing set_iter S new_axes.
Proof.
  intros H. unfold expand.
  change (folded_axes (new_space_of S new_axes)) with (_fold_axes new_axes).
  apply subset_incl in H. rewrite H.
  unfold folded_axes at 1. simpl.
  now rewrite _fold_axes_app, _fold_axes_labels.
Qed.

Lemma expand_subset (S : Space) (new_axes : list axis) :
  wf S -> incl (folded_axes S) (_fold_axes new_axes) ->
  expand set_iter S (new_space_of S new_axes)
  = mkSpace (axes S ++ map axis_of_label (missing set_iter S new_axes))
            (_extent S ++ map (fun m => (m, 1)) (missing set_iter S new_axes)).
Proof.
  intros [Hk Hnd] H. unfold expand.
  change (folded_axes (new_space_of S new_axes)) with (_fold_axes new_axes).
  apply subset_incl in H. rewrite H. fold (missing set_iter S new_axes).
  rewrite fold_od_set_fresh; [reflexivity | apply missing_NoDup |].
  intros m Hm. rewrite Hk. now apply missing_In in Hm.
Qed.

Lemma expand_covers (S : Space) (new_axes : list axis) :
  incl (folded_axes S) (_fold_axes new_axes) ->
  set_eqb (folded_axes (expand set_iter S (new_space_of S new_axes)))
          (_fold_axes new_axes) = true.
Proof.
  intros H. rewrite folded_axes_expand by assumption.
  apply set_eqb_spec. split.
  - intros x Hx. apply in_app_or in Hx. destruct Hx as [Hx|Hx]; auto.
    now apply missing_In in Hx.
  - intros x Hx. apply in_or_app.
    destruct (mem x (folded_axes S)) eqn:E.
    + left. now apply mem_In.
    + right. apply missing_In. split; auto. now apply mem_false.
Qed.

Lemma transform_unfold {T} (S : Space) (X : ndarray T) (new_axes : list axis) :
  transform set_iter S X new_axes
  = let new_space := new_space_of S new_axes in
    let expanded_space := expand set_iter S new_space in
    if set_eqb (folded_axes expanded_space) (_fold_axes new_axes) then
      X <- _fold expanded_space X ;;
      perm <- mapM (fun d => index d (folded_axes expanded_space))
                   (_fold_axes new_axes) ;;
      X <- np_transpose X perm ;;
      X <- _unfold new_space X ;;
      Ok (X, new_space)
    else Raise IncompatibleAxes.
Proof. reflexivity. Qed.

(* transform raises IncompatibleAxes exactly when the target lacks a leaf
   label of the space *)
Lemma transform_incompatible_iff {T} (S : Space) (X : ndarray T) (new_axes : list axis) :
  transform set_iter S X new_axes = Raise IncompatibleAxes
  <-> ~ incl (folded_axes S) (_fold_axes new_axes).
Proof.
  rewrite transform_unfold. cbv zeta.
  destruct (subset (folded_axes S) (_fold_axes new_axes)) eqn:Hs.
  - apply subset_incl in Hs. rewrite expand_covers by assumption.
    split; [|tauto]. intros H. exfalso.
    destruct (_fold _ X) as [X1|e] eqn:H1; simpl in H.
    + destruct (mapM _ _) as [perm|e] eqn:H2; simpl in H.
      * destruct (np_transpose X1 perm) as [X2|e] eqn:H3; simpl in H.
        -- destruct (_unfold _ X2) as [X3|e] eqn:H4; simpl in H; [discriminate|].
           apply np_reshape_raise in H4. congruence.
        -- apply np_transpose_raise in H3. congruence.
      * apply mapM_index_raise in H2. congruence.
    + apply np_reshape_raise in H1. congruence.
  - assert (He : expand set_iter S (new_space_of S new_axes) = S).
    { unfold expand.
      change (folded_axes (new_space_of S new_axes)) with (_fold_axes new_axes).
      now rewrite Hs. }
    rewrite He. unfold set_eqb. rewrite Hs. simpl.
    apply subset_false in Hs. tauto.
Qed.

Lemma expanded_keys (S : Space) (new_axes : list axis) :
  wf S ->
  od_keys (_extent (expanded set_iter S new_axes)) = folded_axes S ++ missing set_iter S new_axes.
Proof.
  intros [Hk _]. unfold expanded, od_keys in *. simpl.
  rewrite map_app, Hk, map_map. simpl. now rewrite map_id.
Qed.

Lemma expanded_NoDup (S : Space) (new_axes : list axis) :
  wf S -> NoDup (folded_axes S ++ missing set_iter S new_axes).
Proof.
  intros [_ Hnd]. apply NoDup_app; auto using missing_NoDup.
  intros a Ha Hm. apply missing_In in Hm. tauto.
Qed.

Lemma expanded_incl (S : Space) (new_axes : list axis) :
  incl (_fold_axes new_axes) (folded_axes S ++ missing set_iter S new_axes).
Proof.
  intros x Hx. apply in_or_app.
  destruct (mem x (folded_axes S)) eqn:E.
  - left. now apply mem_In.
  - right. apply missing_In. split; auto. now apply mem_false.
Qed.

Lemma expanded_size (S : Space) (new_axes : list axis) :
  np_prod (folded_shape (expanded set_iter S new_axes)) = size S.
Proof.
  unfold folded_shape, expanded, size, od_values. simpl.
  rewrite map_app, np_prod_app, map_map. simpl.
  rewrite np_prod_ones. lia.
Qed.

Lemma expanded_get (S : Space) (new_axes : list axis) (b : label) :
  wf S -> od_get (_extent (expanded set_iter S new_axes)) b 1 = od_get (_extent S) b 1.
Proof.
  intros [Hk _]. unfold expanded. simpl. rewrite od_get_app.
  destruct (mem b (od_keys (_extent S))) eqn:E; [reflexivity|].
  apply mem_false in E. rewrite (@od_get_not_key _ (_extent S) b 1 E).
  destruct (mem b (missing set_iter S new_axes)) eqn:Em.
  - apply mem_In in Em. now rewrite (@od_get_map_pairs _ (fun _ => 1) _ b 1 Em).
  - apply mem_false in Em. apply od_get_not_key.
    unfold od_keys. rewrite map_map. simpl. now rewrite map_id.
Qed.

Lemma permute_expanded (S : Space) (new_axes : list axis) :
  wf S ->
  permute (axis_perm set_iter S new_axes) (folded_shape (expanded set_iter S new_axes))
  = folded_shape (target S new_axes).
Proof.
  intros Hwf.
  transitivity (map (fun b => od_get (_extent S) b 1) (_fold_axes new_axes)).
  - unfold permute, axis_perm. rewrite map_map. apply map_ext_in. intros b Hb.
    unfold folded_shape. rewrite <- (@expanded_keys S new_axes Hwf).
    rewrite (@nth_position_values (_extent (expanded set_iter S new_axes)) b 1).
    + now apply expanded_get.
    + rewrite expanded_keys by assumption. now apply expanded_incl.
  - unfold folded_shape, target, od_values. simpl. now rewrite map_map.
Qed.

Lemma axis_perm_is_permb (S : Space) (new_axes : list axis) :
  wf S -> NoDup (_fold_axes new_axes) ->
  incl (folded_axes S) (_fold_axes new_axes) ->
  is_permb (axis_perm set_iter S new_axes)
           (List.length (folded_shape (expanded set_iter S new_axes))) = true.
Proof.
  intros Hwf HB Hincl. apply is_permb_spec.
  assert (Hlen : List.length (folded_shape (expanded set_iter S new_axes))
                 = List.length (_fold_axes new_axes)).
  { unfold folded_shape, od_values. rewrite length_map.
    rewrite <- (length_map fst). fold (od_keys (_extent (expanded set_iter S new_axes))).
    rewrite expanded_keys by assumption.
    apply Permutation_length, NoDup_Permutation; auto using expanded_NoDup.
    intros x. split; [|apply expanded_incl].
    intros Hx. apply in_app_or in Hx. destruct Hx as [Hx|Hx]; auto.
    now apply missing_In in Hx. }
  split; [|split].
  - unfold axis_perm. now rewrite length_map.
  - apply Forall_forall. intros k Hk. unfold axis_perm in Hk.
    apply in_map_iff in Hk. destruct Hk as (b & <- & Hb).
    rewrite Hlen.
    replace (List.length (_fold_axes new_axes))
      with (List.length (folded_axes S ++ missing set_iter S new_axes)).
    + apply (nth_error_position Ascii.eqb Ascii.eqb_eq). now apply expanded_incl.
    + unfold folded_shape, od_values in Hlen. rewrite length_map in Hlen.
      rewrite <- Hlen, <- (@expanded_keys S new_axes Hwf).
      unfold od_keys. now rewrite length_map.
  - unfold axis_perm.
    apply (position_map_inj Ascii.eqb Ascii.eqb_eq); auto using expanded_NoDup, expanded_incl.
Qed.

Lemma target_wf (S : Space) (new_axes : list axis) :
  NoDup (_fold_axes new_axes) -> wf (target S new_axes).
Proof.
  intros HB.
  assert (E : target S new_axes = new_space_of S new_axes)
    by (symmetry; now apply new_space_of_NoDup).
  rewrite E. now apply new_space_of_wf.
Qed.

Lemma target_shape (S : Space) (new_axes : list axis) :
  NoDup (_fold_axes new_axes) ->
  np_prod (shape (target S new_axes)) = np_prod (folded_shape (target S new_axes)).
Proof.
  intros HB. now apply np_prod_shape, target_wf.
Qed.

(* what transform returns when the target has every leaf label of the space
   and no label twice *)
Lemma transform_ok {T} (S : Space) (X : ndarray T) (new_axes : list axis) :
  wf S -> NoDup (_fold_axes new_axes) ->
  incl (folded_axes S) (_fold_axes new_axes) ->
  nd_size X = size S ->
  transform set_iter S X new_axes
  = Ok (mkArray (shape (target S new_axes))
          (transposed (nd_data X) (folded_shape (expanded set_iter S new_axes))
             (axis_perm set_iter S new_axes)),
        target S new_axes).
Proof.
  intros Hwf HB Hincl Hsize.
  rewrite transform_unfold. cbv zeta.
  rewrite expand_covers, expand_subset by assumption.
  fold (expanded set_iter S new_axes). rewrite new_space_of_NoDup by assumption.
  fold (target S new_axes).
  unfold _fold, np_reshape at 1. rewrite expanded_size, Hsize, Nat.eqb_refl.
  cbn [bind].
  replace (folded_axes (expanded set_iter S new_axes))
    with (folded_axes S ++ missing set_iter S new_axes)
    by (unfold folded_axes, expanded; simpl;
        now rewrite _fold_axes_app, _fold_axes_labels).
  rewrite mapM_index_position by apply expanded_incl.
  fold (axis_perm set_iter S new_axes). cbn [bind].
  unfold np_transpose. cbn [nd_shape nd_data].
  rewrite axis_perm_is_permb by assumption. cbn [bind].
  fold (transposed (nd_data X) (folded_shape (expanded set_iter S new_axes)) (axis_perm set_iter S new_axes)).
  unfold _unfold, np_reshape, nd_size. cbn [nd_shape nd_data].
  rewrite permute_expanded, target_shape, Nat.eqb_refl by assumption.
  reflexivity.
Qed.

(* what a successful transform tells about its arguments *)
Lemma transform_inv {T} (S : Space) (X X' : ndarray T) (new_axes : list axis) (S' : Space) :
  transform set_iter S X new_axes = Ok (X', S') ->
  incl (folded_axes S) (_fold_axes new_axes)
  /\ NoDup (_fold_axes new_axes)
  /\ nd_size X
     = np_prod (folded_shape (expand set_iter S (new_space_of S new_axes))).
Proof.
  rewrite transform_unfold. cbv zeta. intros H.
  assert (Hincl : incl (folded_axes S) (_fold_axes new_axes)).
  { destruct (subset (folded_axes S) (_fold_axes new_axes)) eqn:Hs;
      [now apply subset_incl|].
    exfalso. revert H. unfold expand.
    change (folded_axes (new_space_of S new_axes)) with (_fold_axes new_axes).
    rewrite Hs. unfold set_eqb. rewrite Hs. discriminate. }
  split; [exact Hincl|].
  rewrite expand_covers in H by assumption.
  destruct (_fold _ X) as [X1|e] eqn:H1; simpl in H; [|discriminate].
  destruct (mapM _ _) as [perm|e] eqn:H2; simpl in H; [|discriminate].
  destruct (np_transpose X1 perm) as [X2|e] eqn:H3; simpl in H; [|discriminate].
  split.
  - apply mapM_index_ok in H2. destruct H2 as [_ ->].
    unfold np_transpose in H3. destruct (is_permb _ _) eqn:Hp; [|discriminate].
    apply is_permb_spec in Hp. destruct Hp as (_ & _ & Hnd).
    now apply NoDup_map_inv in Hnd.
  - unfold _fold, np_reshape in H1.
    destruct (Nat.eqb_spec
                (np_prod (folded_shape (expand set_iter S (new_space_of S new_axes))))
                (nd_size X)); [congruence | discriminate].
Qed.

Lemma not_incl_witness (a b : list label) :
  ~ incl a b <-> exists x, In x a /\ ~ In x b.
Proof.
  split.
  - intros H. induction a as [|x a IH].
    + exfalso. apply H. intros x [].
    + destruct (mem x b) eqn:E.
      * apply mem_In in E. destruct IH as (y & Hy & Hn).
        -- intros Ha. apply H. intros z [<-|Hz]; auto.
        -- exists y. split; [now right | assumption].
      * apply mem_false in E. exists x. split; [now left | assumption].
  - intros (x & Hx & Hn) H. auto.
Qed.

Lemma od_lookup_get {V} (d : odict V) (k : label) (dflt : V) :
  In k (od_keys d) -> od_lookup d k = Ok (od_get d k dflt).
Proof.
  unfold od_keys. induction d as [|[k' v] d IH]; simpl; [tauto|]. intros H.
  destruct (Ascii.eqb_spec k k') as [->|Hne]; [reflexivity|].
  apply IH. destruct H as [H|H]; [congruence | assumption].
Qed.

Lemma target_lookup (S : Space) (new_axes : list axis) (b : label) :
  In b (_fold_axes new_axes) ->
  od_lookup (_extent (target S new_axes)) b = Ok (od_get (_extent S) b 1).
Proof.
  intros Hb. rewrite (@od_lookup_get _ _ b 1).
  - unfold target. simpl.
    now rewrite (@od_get_map_pairs _ (fun ax => od_get (_extent S) ax 1) _ b 1 Hb).
  - unfold target, od_keys. simpl. rewrite map_map. simpl. now rewrite map_id.
Qed.

(** C3: [transform] raises the assertion the specification calls
    IncompatibleAxes exactly when the target lacks a leaf label of the space.
    When the target has them all, the layout is extended by the missing leaf
    labels, each appended with extent 1, and, for a well-formed space, target
    labels that are distinct and an array of the size of the space, the
    transform succeeds: the new space gives the missing leaves the extent 1
    and the leaves of the space their extent. *)
Theorem transform_expands {T} (S : Space) (X : ndarray T) (new_axes : list axis) :
  (transform set_iter S X new_axes = Raise IncompatibleAxes
   <-> exists a, In a (folded_axes S) /\ ~ In a (_fold_axes new_axes))
  /\ (incl (folded_axes S) (_fold_axes new_axes) ->
      wf S -> NoDup (_fold_axes new_axes) -> nd_size X = size S ->
      (forall m, In m (missing set_iter S new_axes)
                 <-> In m (_fold_axes new_axes) /\ ~ In m (folded_axes S))
      /\ expand set_iter S (new_space_of S new_axes)
         = mkSpace (axes S ++ map axis_of_label (missing set_iter S new_axes))
                   (_extent S ++ map (fun m => (m, 1)) (missing set_iter S new_axes))
      /\ exists X' S',
           transform set_iter S X new_axes = Ok (X', S')
           /\ axes S' = new_axes
           /\ (forall m, In m (missing set_iter S new_axes) -> od_lookup (_extent S') m = Ok 1)
           /\ (forall a, In a (folded_axes S) ->
                 od_lookup (_extent S') a = od_lookup (_extent S) a)).
Proof.
  split.
  - rewrite transform_incompatible_iff. apply not_incl_witness.
  - intros Hincl Hwf HB Hsize.
    split; [apply missing_In|]. split; [now apply expand_subset|].
    do 2 eexists. split; [now apply transform_ok|]. split; [reflexivity|]. split.
    + intros m Hm. apply missing_In in Hm. destruct Hm as [Hb Ha].
      rewrite target_lookup by assumption. f_equal. apply od_get_not_key.
      destruct Hwf as [Hk _]. now rewrite Hk.
    + intros a Ha. rewrite target_lookup by auto.
      symmetry. apply od_lookup_get. destruct Hwf as [Hk _]. now rewrite Hk.
Qed.

(* a transform conserves the size *)
Lemma transform_size {T} (S S' : Space) (X X' : ndarray T) (new_axes : list axis) :
  wf S -> transform set_iter S X new_axes = Ok (X', S') -> size S' = size S.
Proof.
  intros Hwf H. destruct (transform_inv _ _ _ H) as (Hincl & HB & Hsize).
  rewrite expand_subset in Hsize by assumption. fold (expanded set_iter S new_axes) in Hsize.
  rewrite expanded_size in Hsize.
  rewrite transform_ok in H by assumption. injection H as _ <-.
  unfold size, target, od_values. simpl. rewrite map_map. simpl.
  destruct Hwf as [Hk Hnd].
  apply np_prod_get; rewrite ?Hk; assumption.
Qed.

Lemma inverse_positions (A B : list label) :
  NoDup A -> NoDup B -> incl A B -> incl B A ->
  inverse_perms (map (fun b => position Ascii.eqb b A) B)
                (map (fun a => position Ascii.eqb a B) A).
Proof.
  enough (G : forall A B, NoDup A -> NoDup B -> incl A B -> incl B A ->
              forall k, k < List.length (map (fun b => position Ascii.eqb b A) B) ->
                nth k (map (fun b => position Ascii.eqb b A) B) 0
                < List.length (map (fun b => position Ascii.eqb b A) B)
                /\ nth (nth k (map (fun b => position Ascii.eqb b A) B) 0)
                       (map (fun a => position Ascii.eqb a B) A) 0 = k).
  { intros HA HB HAB HBA. split; [|split]; auto.
    rewrite !length_map. apply Permutation_length, NoDup_Permutation; auto.
    intros x. split; auto. }
  clear A B. intros A B HA HB HAB HBA k Hk.
  assert (Hlen : List.length A = List.length B).
  { apply Permutation_length, NoDup_Permutation; auto. intros x. split; auto. }
  rewrite length_map in *.
  destruct (nth_error B k) as [b|] eqn:Eb; [|apply nth_error_None in Eb; lia].
  assert (Hb : In b B) by (eapply nth_error_In; eauto).
  destruct (nth_error_position Ascii.eqb Ascii.eqb_eq b A (HBA _ Hb)) as [Hlt Hnth].
  assert (E1 : nth k (map (fun b => position Ascii.eqb b A) B) 0
               = position Ascii.eqb b A).
  { apply nth_error_nth. now rewrite nth_error_map, Eb. }
  rewrite E1. split; [lia|].
  apply nth_error_nth. rewrite nth_error_map, Hnth. simpl. f_equal.
  now apply (position_nth_error Ascii.eqb Ascii.eqb_eq).
Qed.

Lemma expanded_same (S : Space) (new_axes : list axis) :
  incl (_fold_axes new_axes) (folded_axes S) -> expanded set_iter S new_axes = S.
Proof.
  intros H. unfold expanded. rewrite (@missing_nil S new_axes H). simpl.
  rewrite !app_nil_r. now destruct S.
Qed.

Lemma axis_perm_same (S : Space) (new_axes : list axis) :
  incl (_fold_axes new_axes) (folded_axes S) ->
  axis_perm set_iter S new_axes
  = map (fun d => position Ascii.eqb d (folded_axes S)) (_fold_axes new_axes).
Proof.
  intros H. unfold axis_perm. rewrite (@missing_nil S new_axes H). now rewrite app_nil_r.
Qed.

Lemma target_back (S : Space) (new_axes : list axis) :
  wf S -> incl (folded_axes S) (_fold_axes new_axes) ->
  target (target S new_axes) (axes S) = S.
Proof.
  intros [Hk Hnd] Hincl. unfold target at 1. fold (folded_axes S).
  rewrite (map_ext_in _ (fun a => (a, od_get (_extent S) a 1))).
  - rewrite <- Hk, map_get_keys by (now rewrite Hk). now destruct S.
  - intros a Ha. f_equal. unfold target. simpl.
    now rewrite (@od_get_map_pairs _ (fun ax => od_get (_extent S) ax 1) _ a 1
                   (Hincl _ Ha)).
Qed.

(** C1, amended: on a well-formed space and an array with as many elements
    as the space has, a transform to an arrangement of the same leaf labels
    followed by the transform back to the axes of the space returns the
    space and an array with the elements of the first, in their order, in
    the shape of the space: the first array itself when it has that shape. *)
Theorem transform_round_trip {T} (S S1 : Space) (X X1 : ndarray T)
  (new_axes : list axis) :
  wf S -> nd_wf X ->
  transform set_iter S X new_axes = Ok (X1, S1) ->
  incl (_fold_axes new_axes) (folded_axes S) ->
  exists X2,
    transform set_iter S1 X1 (axes S) = Ok (X2, S)
    /\ nd_data X2 = nd_data X
    /\ nd_shape X2 = shape S
    /\ (nd_shape X = shape S -> X2 = X).
Proof.
  intros Hwf HX H Hback.
  destruct (@transform_inv _ _ _ _ _ _ H) as (Hincl & HB & Hsize).
  rewrite expand_subset in Hsize by assumption. fold (expanded set_iter S new_axes) in Hsize.
  rewrite expanded_size in Hsize.
  rewrite transform_ok in H by assumption. injection H as <- <-.
  assert (Hwf1 : wf (target S new_axes)) by now apply target_wf.
  destruct Hwf as [Hk Hnd].
  assert (Hlen : List.length (folded_axes S) = List.length (_fold_axes new_axes)).
  { apply Permutation_length, NoDup_Permutation; auto. intros x. split; auto. }
  rewrite transform_ok; auto.
  - eexists. split; [rewrite target_back by (auto; split; auto); reflexivity|].
    cbn [nd_data nd_shape].
    assert (Hd : transposed
                   (transposed (nd_data X) (folded_shape (expanded set_iter S new_axes))
                      (axis_perm set_iter S new_axes))
                   (folded_shape (expanded set_iter (target S new_axes) (axes S)))
                   (axis_perm set_iter (target S new_axes) (axes S))
                 = nd_data X).
    { rewrite (@expanded_same (target S new_axes) (axes S) Hincl).
      rewrite <- (@permute_expanded S new_axes (conj Hk Hnd)).
      rewrite (@axis_perm_same (target S new_axes) (axes S) Hincl).
      rewrite (@expanded_same S new_axes Hback), (@axis_perm_same S new_axes Hback).
      change (folded_axes (target S new_axes)) with (_fold_axes new_axes).
      fold (folded_axes S).
      apply transpose_data_inverse.
      - now apply inverse_positions.
      - unfold folded_shape, od_values. rewrite !length_map.
        rewrite <- (length_map fst). fold (od_keys (_extent S)). now rewrite Hk.
      - rewrite HX. exact Hsize. }
    rewrite Hd. repeat split; auto.
    intros Hsh. rewrite <- Hsh. now destruct X.
  - unfold nd_size. cbn [nd_shape]. now apply np_prod_shape.
Qed.

End TransformFacts.

(** ** Space.broadcast *)

Lemma split_nth (l : list nat) (k : nat) :
  k < List.length l -> l = firstn k l ++ nth k l 0 :: skipn (S k) l.
Proof.
  revert k. induction l as [|x l IH]; simpl; intros k Hk; [lia|].
  destruct k as [|k]; simpl; [reflexivity|]. f_equal. apply IH. lia.
Qed.

Lemma list_eqb_refl (l : list nat) : list_eqb l l = true.
Proof.
  induction l as [|x l IH]; simpl; auto. now rewrite Nat.eqb_refl.
Qed.

Lemma list_sum_repeat {T} (f : T -> nat) (x : T) (n : nat) :
  list_sum (map f (repeat x n)) = n * f x.
Proof.
  induction n as [|n IH]; simpl; auto.
Qed.

Lemma np_concatenate_repeat {T} (X : ndarray T) (t k : nat) :
  np_concatenate (repeat X t) k
  = if (1 <=? t) && (k <? List.length (nd_shape X))
    then Ok (replicated X t k) else Raise ValueError.
Proof.
  destruct t as [|t]; [reflexivity|].
  change (repeat X (S t)) with (X :: repeat X t) at 1.
  unfold np_concatenate.
  change (X :: repeat X t) with (repeat X (S t)).
  destruct (k <? List.length (nd_shape X)) eqn:Hk; simpl ((1 <=? S t) && _);
    [|reflexivity].
  rewrite (proj2 (forallb_forall _ _)).
  - simpl (true && true). cbv iota. unfold replicated.
    now rewrite list_sum_repeat.
  - intros X' HX'. apply repeat_spec in HX'. subst X'.
    now rewrite !list_eqb_refl, Nat.eqb_refl.
Qed.

Lemma replicated_size {T} (X : ndarray T) (t k : nat) :
  k < List.length (nd_shape X) ->
  nd_size (replicated X t k) = nd_size X * t.
Proof.
  intros Hk. unfold nd_size, replicated. cbn [nd_shape].
  rewrite (split_nth (nd_shape X) Hk) at 4.
  rewrite !np_prod_app. simpl.
  fold (np_prod (skipn (S k) (nd_shape X))). nia.
Qed.

Lemma np_concatenate_repeat_size {T} (X X' : ndarray T) (t k : nat) :
  np_concatenate (repeat X t) k = Ok X' -> nd_size X' = nd_size X * t.
Proof.
  rewrite np_concatenate_repeat.
  destruct (1 <=? t); simpl; [|discriminate].
  destruct (Nat.ltb_spec k (List.length (nd_shape X))) as [Hk|Hk]; [|discriminate].
  intros H. injection H as <-. now apply replicated_size.
Qed.

Lemma broadcast_loop_size {T} (A : list label) (replicas : odict nat)
  (X X' : ndarray T) :
  foldM (fun X (r : label * nat) =>
           let (ax, times) := r in
           k <- index ax A ;; np_concatenate (repeat X times) k)
        replicas X = Ok X' ->
  nd_size X' = nd_size X * np_prod (od_values replicas).
Proof.
  revert X. induction replicas as [|[ax times] replicas IH]; simpl; intros X H.
  - injection H as <-. lia.
  - destruct (index ax A) as [k|e]; simpl in H; [|discriminate].
    destruct (np_concatenate (repeat X times) k) as [X1|e] eqn:Hc; simpl in H;
      [|discriminate].
    rewrite (IH _ H), (np_concatenate_repeat_size _ _ _ Hc).
    fold (np_prod (od_values replicas)). lia.
Qed.

(* a broadcast multiplies the size by the replica counts *)
Lemma broadcast_size {T} (S S' : Space) (X X' : ndarray T) (replicas : odict nat) :
  broadcast S X replicas = Ok (X', S') ->
  size S' = size S * np_prod (od_values replicas).
Proof.
  unfold broadcast. intros H.
  destruct (mapM _ _) as [new_extent|e]; simpl in H; [|discriminate].
  destruct (_fold S X) as [X1|e] eqn:H1; simpl in H; [|discriminate].
  destruct (foldM _ replicas X1) as [X2|e] eqn:H2; simpl in H; [|discriminate].
  destruct (Nat.eqb_spec (nd_size X2)
              (size (mkSpace (axes S) (od_of_pairs new_extent)))) as [E|E];
    [|discriminate].
  destruct (_unfold _ X2) as [X3|e]; simpl in H; [|discriminate].
  injection H as _ <-. rewrite <- E, (broadcast_loop_size _ _ _ H2).
  unfold _fold, np_reshape in H1.
  destruct (Nat.eqb_spec (np_prod (folded_shape S)) (nd_size X)); [|discriminate].
  injection H1 as <-. reflexivity.
Qed.

(** C4: the Space a transform of a well-formed space returns has the size
    of the space, and the Space a broadcast returns has the size of the
    space times the product of the replica counts. *)
Theorem size_conserved {T} (set_iter : list label -> list label)
  (S S' : Space) (X X' : ndarray T) :
  (forall l, Permutation (set_iter l) l) ->
  (forall new_axes,
     wf S -> transform set_iter S X new_axes = Ok (X', S') -> size S' = size S)
  /\ (forall replicas,
        broadcast S X replicas = Ok (X', S') ->
        size S' = size S * np_prod (od_values replicas)).
Proof.
  intros Hperm. split.
  - intros new_axes Hwf H. exact (@transform_size set_iter Hperm _ _ _ _ _ _ Hwf H).
  - intros replicas H. exact (@broadcast_size _ _ _ _ _ _ H).
Qed.

(** ** The content of a replicated array *)

Lemma skipn_nth (l : list nat) (k : nat) :
  k < List.length l -> skipn k l = nth k l 0 :: skipn (S k) l.
Proof.
  revert k. induction l as [|x l IH]; simpl; intros k Hk; [lia|].
  destruct k as [|k]; [reflexivity|]. apply IH. lia.
Qed.

Lemma app_cons_parts (l1 l2 : list nat) (x k : nat) :
  List.length l1 = k ->
  firstn k (l1 ++ x :: l2) = l1
  /\ nth k (l1 ++ x :: l2) 0 = x
  /\ skipn (S k) (l1 ++ x :: l2) = l2.
Proof.
  intros <-. induction l1 as [|y l1 IH]; simpl; [auto|].
  destruct IH as (H1 & H2 & H3). simpl in H3. rewrite H1, H2, H3. auto.
Qed.

Lemma length_flat_map_seq {T} (g : nat -> list T) (L m : nat) :
  (forall i, i < m -> List.length (g i) = L) ->
  List.length (flat_map g (seq 0 m)) = m * L.
Proof.
  intros H. induction m as [|m IH]; [reflexivity|].
  rewrite seq_S, flat_map_app, length_app, IH by (intros; apply H; lia).
  simpl. rewrite app_nil_r, H by lia. lia.
Qed.

Lemma nth_error_flat_map_seq {T} (g : nat -> list T) (L m o q : nat) :
  (forall i, i < m -> List.length (g i) = L) ->
  o < m -> q < L ->
  nth_error (flat_map g (seq 0 m)) (o * L + q) = nth_error (g o) q.
Proof.
  intros H. induction m as [|m IH]; intros Ho Hq; [lia|].
  assert (Hlen : List.length (flat_map g (seq 0 m)) = m * L)
    by (apply length_flat_map_seq; intros; apply H; lia).
  rewrite seq_S, flat_map_app. simpl. rewrite app_nil_r.
  destruct (Nat.eq_dec o m) as [->|Hne].
  - rewrite nth_error_app2 by lia. f_equal. lia.
  - rewrite nth_error_app1 by nia. apply IH; [intros; apply H|..]; lia.
Qed.

Lemma length_flat_map_repeat {T U} (f : T -> list U) (x : T) (n : nat) :
  List.length (flat_map f (repeat x n)) = n * List.length (f x).
Proof.
  induction n as [|n IH]; simpl; [reflexivity|]. rewrite length_app, IH. lia.
Qed.

Lemma nth_error_flat_map_repeat {T U} (f : T -> list U) (x : T) (n q : nat) :
  q < n * List.length (f x) ->
  nth_error (flat_map f (repeat x n)) q
  = nth_error (f x) (q mod List.length (f x)).
Proof.
  revert q. induction n as [|n IH]; simpl; intros q Hq; [lia|].
  destruct (Nat.lt_ge_cases q (List.length (f x))) as [Hlt|Hge].
  - rewrite nth_error_app1 by assumption. now rewrite Nat.mod_small.
  - rewrite nth_error_app2 by assumption. rewrite IH by lia. f_equal.
    replace q with (q - List.length (f x) + 1 * List.length (f x)) at 2 by lia.
    now rewrite Nat.Div0.mod_add.
Qed.

Lemma block_spec {T} (X : ndarray T) (k o : nat) :
  (o + 1) * np_prod (skipn k (nd_shape X)) <= List.length (nd_data X) ->
  List.length (block k X o) = np_prod (skipn k (nd_shape X))
  /\ forall q, q < np_prod (skipn k (nd_shape X)) ->
       nth_error (block k X o) q
       = nth_error (nd_data X) (o * np_prod (skipn k (nd_shape X)) + q).
Proof.
  intros H. unfold block. split.
  - rewrite length_firstn, length_skipn. lia.
  - intros q Hq. rewrite nth_error_firstn, nth_error_skipn.
    apply Nat.ltb_lt in Hq. now rewrite Hq.
Qed.

Lemma mod_block (j d r rp : nat) :
  d <> 0 -> rp < r -> (j * r + rp) mod (d * r) = j mod d * r + rp.
Proof.
  intros Hd Hrp. symmetry. apply (Nat.mod_unique _ _ (j / d)).
  - pose proof (Nat.mod_upper_bound j d Hd). nia.
  - pose proof (Nat.div_mod_eq j d). nia.
Qed.

(* the element of the replicated array at a multi-index is the element of
   the array at the multi-index wrapped along the axis *)
Lemma replicated_nth {T} (X : ndarray T) (t k : nat) (idx : list nat) :
  nd_wf X -> k < List.length (nd_shape X) ->
  Forall2 lt idx (nd_shape (replicated X t k)) ->
  nth_error (nd_data (replicated X t k)) (ravel (nd_shape (replicated X t k)) idx)
  = nth_error (nd_data X)
      (ravel (nd_shape X) (wrap_axis k (nth k (nd_shape X) 0) idx)).
Proof.
  unfold nd_wf. intros HD Hk Hidx.
  set (sh := nd_shape X) in *. set (dk := nth k sh 0).
  set (pre := firstn k sh). set (post := skipn (S k) sh).
  assert (Hsh : sh = pre ++ dk :: post) by now apply split_nth.
  assert (Hpre : List.length pre = k) by (unfold pre; apply firstn_length_le; lia).
  assert (Hinner : np_prod (skipn k sh) = dk * np_prod post).
  { rewrite skipn_nth by assumption. reflexivity. }
  assert (Hprod : np_prod sh = np_prod pre * (dk * np_prod post)).
  { rewrite Hsh at 1. rewrite np_prod_app. reflexivity. }
  unfold replicated in *. cbn [nd_shape nd_data] in *.
  fold sh pre post dk in Hidx |- *.
  apply Forall2_app_inv_r in Hidx.
  destruct Hidx as (ipre & rest & Hipre & Hrest & ->).
  destruct rest as [|j ipost]; [inversion Hrest|].
  apply Forall2_cons_iff in Hrest. destruct Hrest as [Hj Hipost].
  pose proof (Forall2_length Hipre) as Hlen.
  pose proof (ravel_lt Hipre) as Ho. pose proof (ravel_lt Hipost) as Hrp.
  set (o := ravel pre ipre) in *. set (rp := ravel post ipost) in *.
  set (r := np_prod post) in *.
  assert (Hdk : dk <> 0) by lia.
  unfold wrap_axis.
  destruct (app_cons_parts ipre ipost j (k := k)) as (-> & -> & ->); [lia|].
  rewrite Hsh at 1. rewrite !ravel_app by lia.
  cbn [ravel np_prod fold_right]. fold (np_prod post). fold r rp o.
  replace (o * (t * dk * r) + (j * r + rp))
    with (o * (t * (dk * r)) + (j * r + rp)) by lia.
  assert (Hblock : forall i, i < np_prod pre ->
            (i + 1) * np_prod (skipn k (nd_shape X)) <= List.length (nd_data X)).
  { intros i Hi. fold sh. rewrite Hinner, HD, Hprod. fold r. nia. }
  rewrite (nth_error_flat_map_seq _ (L := t * (dk * r))); [| |assumption|nia].
  - rewrite nth_error_flat_map_repeat.
    + destruct (block_spec X k o (Hblock o Ho)) as [Hbl Hbn].
      fold sh in Hbl, Hbn. rewrite Hinner in Hbl, Hbn. fold r in Hbl, Hbn.
      rewrite Hbl, mod_block by assumption.
      rewrite Hbn by (pose proof (Nat.mod_upper_bound j dk Hdk); nia).
      reflexivity.
    + destruct (block_spec X k o (Hblock o Ho)) as [Hbl _].
      fold sh in Hbl. rewrite Hinner in Hbl. fold r in Hbl. rewrite Hbl. nia.
  - intros i Hi. rewrite length_flat_map_repeat.
    destruct (block_spec X k i (Hblock i Hi)) as [Hbl _].
    fold sh in Hbl. rewrite Hinner in Hbl. fold r in Hbl. now rewrite Hbl.
Qed.

Lemma mapM_lookup (d replicas : odict nat) (L : list label) :
  incl L (od_keys d) ->
  mapM (fun ax => e <- od_lookup d ax ;; Ok (ax, e * od_get replicas ax 1)) L
  = Ok (map (fun ax => (ax, od_get d ax 0 * od_get replicas ax 1)) L).
Proof.
  induction L as [|x L IH]; simpl; intros H; [reflexivity|].
  rewrite (@od_lookup_get _ d x 0) by (apply H; now left). simpl.
  rewrite IH by (intros y Hy; apply H; now right). reflexivity.
Qed.

Lemma scaled_keys (S : Space) (replicas : odict nat) :
  od_keys (_extent (scaled S replicas)) = folded_axes S.
Proof.
  unfold scaled, od_keys. simpl. rewrite map_map. simpl. now rewrite map_id.
Qed.

Lemma scaled_wf (S : Space) (replicas : odict nat) : wf S -> wf (scaled S replicas).
Proof.
  intros [Hk Hnd]. split; [exact (scaled_keys S replicas) | exact Hnd].
Qed.

Lemma scale_at (g : label -> nat) (a : label) (n : nat) (L : list label) :
  NoDup L -> In a L ->
  map (fun x => g x * od_get [(a, n)] x 1) L
  = firstn (position Ascii.eqb a L) (map g L)
    ++ n * nth (position Ascii.eqb a L) (map g L) 0
    :: skipn (S (position Ascii.eqb a L)) (map g L).
Proof.
  induction 1 as [|x L Hx HL IH]; simpl; [tauto|]. intros Ha.
  rewrite (Ascii.eqb_sym x a).
  destruct (Ascii.eqb_spec a x) as [<-|Hne]; simpl.
  - f_equal; [lia|]. apply map_ext_in. intros y Hy.
    destruct (Ascii.eqb_spec y a) as [->|_]; [contradiction | lia].
  - f_equal; [lia|]. apply IH. destruct Ha as [Ha|Ha]; [congruence | assumption].
Qed.

Lemma folded_shape_values (S : Space) :
  wf S -> folded_shape S = map (fun ax => od_get (_extent S) ax 0) (folded_axes S).
Proof.
  intros [Hk Hnd]. unfold folded_shape, od_values.
  rewrite <- (map_get_keys (_extent S) 0) at 1 by (now rewrite Hk).
  rewrite map_map, Hk. reflexivity.
Qed.

Lemma scaled_folded_shape (S : Space) (a : label) (n : nat) :
  wf S -> In a (folded_axes S) ->
  folded_shape (scaled S [(a, n)])
  = firstn (position Ascii.eqb a (folded_axes S)) (folded_shape S)
    ++ n * nth (position Ascii.eqb a (folded_axes S)) (folded_shape S) 0
    :: skipn (Datatypes.S (position Ascii.eqb a (folded_axes S))) (folded_shape S).
Proof.
  intros Hwf Ha. rewrite (folded_shape_values Hwf).
  rewrite <- scale_at by (auto; apply Hwf).
  unfold folded_shape, scaled, od_values. simpl. now rewrite map_map.
Qed.

Lemma length_folded_shape (S : Space) :
  wf S -> List.length (folded_shape S) = List.length (folded_axes S).
Proof.
  intros [Hk _]. unfold folded_shape, od_values. rewrite length_map.
  rewrite <- Hk. unfold od_keys. now rewrite length_map.
Qed.

(* what broadcast returns for one replicated axis *)
Lemma broadcast_ok {T} (S : Space) (X : ndarray T) (a : label) (n : nat) :
  wf S -> nd_shape X = shape S -> In a (folded_axes S) -> 1 <= n ->
  broadcast S X [(a, n)]
  = Ok (mkArray (shape (scaled S [(a, n)]))
          (nd_data (replicated (mkArray (folded_shape S) (nd_data X)) n
                      (position Ascii.eqb a (folded_axes S)))),
        scaled S [(a, n)]).
Proof.
  intros Hwf Hsh Ha Hn. pose proof Hwf as [Hk Hnd].
  unfold broadcast. fold (folded_axes S).
  rewrite mapM_lookup by (rewrite Hk; apply incl_refl). cbn [bind].
  rewrite od_of_pairs_NoDup by (rewrite map_map; simpl; now rewrite map_id).
  fold (scaled S [(a, n)]).
  unfold _fold, np_reshape at 1.
  replace (nd_size X) with (np_prod (folded_shape S))
    by (unfold nd_size; rewrite Hsh; symmetry; now apply np_prod_shape).
  rewrite Nat.eqb_refl. cbn [bind foldM].
  rewrite index_position by assumption. cbn [bind].
  rewrite np_concatenate_repeat. cbn [nd_shape].
  apply Nat.leb_le in Hn. rewrite Hn.
  destruct (@nth_error_position label Ascii.eqb Ascii.eqb_eq a (folded_axes S) Ha) as [Hlt _].
  rewrite <- (length_folded_shape Hwf) in Hlt.
  destruct (_ <? _) eqn:E;
    [|apply Nat.ltb_ge in E; exfalso; unfold label in *; lia].
  cbn [andb bind].
  assert (Hshape : nd_shape (replicated (mkArray (folded_shape S) (nd_data X)) n
                               (position Ascii.eqb a (folded_axes S)))
                   = folded_shape (scaled S [(a, n)]))
    by (symmetry; now apply scaled_folded_shape).
  unfold nd_size at 1. rewrite Hshape.
  change (np_prod (folded_shape (scaled S [(a, n)]))) with (size (scaled S [(a, n)])).
  rewrite Nat.eqb_refl.
  unfold _unfold, np_reshape, nd_size. rewrite Hshape.
  rewrite (np_prod_shape (scaled_wf [(a, n)] Hwf)).
  change (np_prod (folded_shape (scaled S [(a, n)]))) with (size (scaled S [(a, n)])).
  rewrite Nat.eqb_refl. reflexivity.
Qed.

(** C5: for a well-formed space, an array of the shape of the space, an
    axis label [a] of the space and a replica count [n] of at least 1,
    [broadcast(X, a=n)] returns a Space with the same axes, in which the
    extent of [a] is the one of the space times [n] and every other extent
    is unchanged, and an array of the shape of that Space which, folded, is
    the concatenation of [n] copies of the folded array along the folded
    position of [a]: its element at a multi-index is the element of the
    array at that multi-index taken modulo the extent of [a] along that
    position. *)
Theorem broadcast_replicates {T} (S : Space) (X : ndarray T) (a : label) (n : nat) :
  wf S -> nd_wf X -> nd_shape X = shape S -> In a (folded_axes S) -> 1 <= n ->
  exists X' S' k F F',
    broadcast S X [(a, n)] = Ok (X', S')
    /\ index a (folded_axes S) = Ok k
    /\ axes S' = axes S
    /\ od_keys (_extent S') = od_keys (_extent S)
    /\ od_get (_extent S') a 0 = od_get (_extent S) a 0 * n
    /\ (forall b, b <> a -> od_get (_extent S') b 0 = od_get (_extent S) b 0)
    /\ nd_shape X' = shape S'
    /\ _fold S X = Ok F
    /\ _fold S' X' = Ok F'
    /\ np_concatenate (repeat F n) k = Ok F'
    /\ forall idx, Forall2 lt idx (folded_shape S') ->
         nth_error (nd_data X') (ravel (folded_shape S') idx)
         = nth_error (nd_data X)
             (ravel (folded_shape S)
                (wrap_axis k (nth k (folded_shape S) 0) idx)).
Proof.
  intros Hwf HX Hsh Ha Hn. pose proof Hwf as [Hk Hnd].
  set (k := position Ascii.eqb a (folded_axes S)).
  set (F := mkArray (folded_shape S) (nd_data X)).
  assert (Hsize : np_prod (folded_shape S) = nd_size X)
    by (unfold nd_size; rewrite Hsh; symmetry; now apply np_prod_shape).
  assert (HF : nd_wf F) by (unfold nd_wf, F; simpl; rewrite Hsize; exact HX).
  assert (Hlt : k < List.length (nd_shape F)).
  { unfold F. simpl. rewrite (length_folded_shape Hwf).
    apply (@nth_error_position label Ascii.eqb Ascii.eqb_eq), Ha. }
  assert (Hshape : nd_shape (replicated F n k) = folded_shape (scaled S [(a, n)]))
    by (symmetry; now apply scaled_folded_shape).
  exists (mkArray (shape (scaled S [(a, n)])) (nd_data (replicated F n k))),
         (scaled S [(a, n)]), k, F, (replicated F n k).
  split; [now apply broadcast_ok|].
  split; [now apply index_position|].
  split; [reflexivity|].
  split; [now rewrite scaled_keys|].
  split.
  { unfold scaled. cbn [_extent].
    rewrite (@od_get_map_pairs _ (fun ax => od_get (_extent S) ax 0
                                          * od_get [(a, n)] ax 1) _ a 0 Ha).
    simpl. now rewrite Ascii.eqb_refl. }
  split.
  { intros b Hb. destruct (mem b (folded_axes S)) eqn:E.
    - apply mem_In in E. unfold scaled. cbn [_extent].
      rewrite (@od_get_map_pairs _ (fun ax => od_get (_extent S) ax 0
                                            * od_get [(a, n)] ax 1) _ b 0 E).
      simpl. destruct (Ascii.eqb_spec b a); [contradiction | lia].
    - apply mem_false in E. rewrite !od_get_not_key; auto.
      + now rewrite Hk.
      + now rewrite scaled_keys. }
  split; [reflexivity|].
  split.
  { unfold _fold, np_reshape. now rewrite Hsize, Nat.eqb_refl. }
  split.
  { unfold _fold, np_reshape, nd_size. cbn [nd_shape nd_data].
    rewrite (np_prod_shape (scaled_wf [(a, n)] Hwf)).
    change (size (scaled S [(a, n)])) with (np_prod (folded_shape (scaled S [(a, n)]))).
    rewrite Nat.eqb_refl, <- Hshape. now destruct (replicated F n k). }
  split.
  { rewrite np_concatenate_repeat.
    apply Nat.leb_le in Hn. apply Nat.ltb_lt in Hlt. now rewrite Hn, Hlt. }
  intros idx Hidx. cbn [nd_data]. rewrite <- Hshape in Hidx |- *.
  now apply (replicated_nth (X := F)).
Qed.

(** ** The properties on a 2 x 3 array *)

Lemma in_order_perm (l : list label) : Permutation (in_order l) l.
Proof. apply Permutation_refl. Qed.

Lemma S_23_wf : wf S_23.
Proof.
  split; [reflexivity|]. repeat constructor; simpl; intuition discriminate.
Qed.

(** C1, as stated, fails: from the space of a 2 x 3 array the arrangement
    [b, w, f] is reachable, and the transform back to [b, w] raises
    IncompatibleAxes; and for the flat array of the same 6 elements the way
    to [w, b] and back returns a 2 x 3 array, which is not that flat array. *)
Lemma round_trip_fails :
  nd_size X_23 = size S_23
  /\ (exists X1 S1,
        transform in_order S_23 X_23 ["b"; "w"; "f"]%string = Ok (X1, S1)
        /\ transform in_order S1 X1 (axes S_23) = Raise IncompatibleAxes)
  /\ nd_size X_6 = size S_23
  /\ (exists X1 S1 X2 S2,
        transform in_order S_23 X_6 ["w"; "b"]%string = Ok (X1, S1)
        /\ transform in_order S1 X1 (axes S_23) = Ok (X2, S2)
        /\ X2 <> X_6).
Proof.
  split; [reflexivity|]. split.
  - do 2 eexists. split; reflexivity.
  - split; [reflexivity|]. do 4 eexists. split; [reflexivity|].
    split; [reflexivity|]. discriminate.
Qed.

Lemma transform_round_trip_witness :
  exists X2,
    transform in_order (mkSpace ["wb"%string] [("w"%char, 3); ("b"%char, 2)])
      (mkArray [6] [1; 4; 2; 5; 3; 6]%Z) (axes S_23) = Ok (X2, S_23)
    /\ nd_data X2 = nd_data X_23
    /\ nd_shape X2 = shape S_23
    /\ (nd_shape X_23 = shape S_23 -> X2 = X_23).
Proof.
  apply (@transform_round_trip in_order in_order_perm Z S_23
           (mkSpace ["wb"%string] [("w"%char, 3); ("b"%char, 2)])
           X_23 (mkArray [6] [1; 4; 2; 5; 3; 6]%Z) ["wb"%string]).
  - exact S_23_wf.
  - reflexivity.
  - reflexivity.
  - intros x [<-|[<-|[]]]; simpl; auto.
Defined.

Lemma transform_expands_witness :
  exists X' S',
    transform in_order S_23 X_23 ["w"; "fb"]%string = Ok (X', S')
    /\ axes S' = ["w"; "fb"]%string
    /\ (forall m, In m (missing in_order S_23 ["w"; "fb"]%string) ->
          od_lookup (_extent S') m = Ok 1)
    /\ (forall a, In a (folded_axes S_23) ->
          od_lookup (_extent S') a = od_lookup (_extent S_23) a).
Proof.
  apply (@transform_expands in_order in_order_perm Z S_23 X_23 ["w"; "fb"]%string).
  - intros x [<-|[<-|[]]]; simpl; auto.
  - exact S_23_wf.
  - repeat constructor; simpl; intuition discriminate.
  - reflexivity.
Defined.

Lemma size_conserved_witness :
  size (mkSpace ["wb"%string] [("w"%char, 3); ("b"%char, 2)]) = size S_23
  /\ size (mkSpace ["b"; "w"]%string [("b"%char, 2); ("w"%char, 6)])
     = size S_23 * np_prod (od_values [("w"%char, 2)]).
Proof.
  split.
  - apply (proj1 (@size_conserved Z in_order S_23
                    (mkSpace ["wb"%string] [("w"%char, 3); ("b"%char, 2)])
                    X_23 (mkArray [6] [1; 4; 2; 5; 3; 6]%Z) in_order_perm)
             ["wb"%string]).
    + exact S_23_wf.
    + reflexivity.
  - apply (proj2 (@size_conserved Z in_order S_23
                    (mkSpace ["b"; "w"]%string [("b"%char, 2); ("w"%char, 6)])
                    X_23 (mkArray [2; 6] [1; 2; 3; 1; 2; 3; 4; 5; 6; 4; 5; 6]%Z)
                    in_order_perm)
             [("w"%char, 2)]).
    reflexivity.
Defined.

Lemma broadcast_replicates_witness :
  exists X' S' k F F',
    broadcast S_23 X_23 [("w"%char, 2)] = Ok (X', S')
    /\ index "w"%char (folded_axes S_23) = Ok k
    /\ axes S' = axes S_23
    /\ od_keys (_extent S') = od_keys (_extent S_23)
    /\ od_get (_extent S') "w"%char 0 = od_get (_extent S_23) "w"%char 0 * 2
    /\ (forall b, b <> "w"%char -> od_get (_extent S') b 0 = od_get (_extent S_23) b 0)
    /\ nd_shape X' = shape S'
    /\ _fold S_23 X_23 = Ok F
    /\ _fold S' X' = Ok F'
    /\ np_concatenate (repeat F 2) k = Ok F'
    /\ forall idx, Forall2 lt idx (folded_shape S') ->
         nth_error (nd_data X') (ravel (folded_shape S') idx)
         = nth_error (nd_data X_23)
             (ravel (folded_shape S_23)
                (wrap_axis k (nth k (folded_shape S_23) 0) idx)).
Proof.
  apply (@broadcast_replicates Z S_23 X_23 "w"%char 2).
  - exact S_23_wf.
  - reflexivity.
  - reflexivity.
  - simpl. auto.
  - lia.
Defined.

(* the broadcast of the example, and a replica count of 0 *)
Lemma broadcast_example :
  broadcast S_23 X_23 [("w"%char, 2)]
  = Ok (mkArray [2; 6] [1; 2; 3; 1; 2; 3; 4; 5; 6; 4; 5; 6]%Z,
        mkSpace ["b"; "w"]%string [("b"%char, 2); ("w"%char, 6)]).
Proof. reflexivity. Qed.

Lemma broadcast_zero_raises :
  broadcast S_23 X_23 [("w"%char, 0)] = Raise ValueError.
Proof. reflexivity. Qed.

(** ** The cycle of batches on a dataset of 5 rows *)

Lemma rng_rev_ok : rng_ok rng_rev.
Proof.
  intros k n. simpl. apply Permutation_sym, Permutation_rev.
Qed.

Lemma next_batch_cycle_witness :
  exists p0,
    MinibatchDataProvider.__init__ X_5rows [0; 1; 0; 1; 0]%Z [2; 2; 2; 2; 2] 2 = Ok p0
    /\ forall e,
         flat_map (fun i => MinibatchDataProvider.visited p0 rng_rev (e * 2 + i + 1))
                  (seq 0 2)
         = seq 0 4.
Proof.
  destruct (@next_batch_cycle Z Z X_5rows [0; 1; 0; 1; 0]%Z [2; 2; 2; 2; 2] 2 rng_rev
              rng_rev_ok eq_refl eq_refl ltac:(simpl; lia))
    as (p0 & Hinit & _ & Hepoch).
  exists p0. split; [exact Hinit | exact Hepoch].
Defined.

(** ** Repeated labels *)

(* a label given twice to infer keeps the last of its dimensions *)
Lemma infer_repeated_label :
  infer (mkArray [4; 10] (repeat 0%Z 40)) ["b"%char; "b"%char]
  = Ok (mkSpace ["b"; "b"]%string [("b"%char, 10)]).
Proof. reflexivity. Qed.

(* a label repeated in a group counts once in the extent of the group *)
Lemma get_extent_repeated_label :
  get_extent S_bw ["bb"%string] = [4]
  /\ np_prod (get_extent S_bw ["b"; "b"]%string) = 16.
Proof. split; reflexivity. Qed.

(* a label repeated in the target passes the assertion of transform and is
   refused by numpy's transpose *)
Lemma transform_repeated_label :
  transform in_order S_23 X_23 ["b"; "w"; "b"]%string = Raise ValueError.
Proof. reflexivity. Qed.

(* the example of the specification: a 4 x 10 array folded to one axis *)
Lemma transform_fold_example :
  exists S X',
    infer (mkArray [4; 10] (map Z.of_nat (seq 0 40))) ["b"%char; "w"%char] = Ok S
    /\ transform in_order S (mkArray [4; 10] (map Z.of_nat (seq 0 40))) ["bw"%string]
       = Ok (X', mkSpace ["bw"%string] [("b"%char, 4); ("w"%char, 10)])
    /\ nd_shape X' = [40]
    /\ nd_data X' = map Z.of_nat (seq 0 40).
Proof.
  do 2 eexists. split; [reflexivity|]. split; [vm_compute; reflexivity|].
  split; reflexivity.
Qed.

(** ** The sequence providers *)

(* the sequence providers step their batch index in the same way, and
   reshuffle at index 0 only when their shuffle flag is set *)
Lemma padded_prepare_spec {A} (self s' : PaddedSequenceMinibatchProvider.t A)
  (g g' : rng) :
  PaddedSequenceMinibatchProvider._prepare_for_next_batch self g = Ok (s', g') ->
  PaddedSequenceMinibatchProvider.batches_per_epoch self <> 0%Z
  /\ PaddedSequenceMinibatchProvider._batch_index s'
     = ((PaddedSequenceMinibatchProvider._batch_index self + 1)
        mod PaddedSequenceMinibatchProvider.batches_per_epoch self)%Z
  /\ (if (PaddedSequenceMinibatchProvider._batch_index s' =? 0)%Z
         && PaddedSequenceMinibatchProvider.shuffle self
      then drawn g' = S (drawn g)
           /\ PaddedSequenceMinibatchProvider.X s'
              = gather (PaddedSequenceMinibatchProvider.X self)
                  (perm_at g (drawn g)
                     (List.length (PaddedSequenceMinibatchProvider.X self)))
      else g' = g
           /\ PaddedSequenceMinibatchProvider.X s'
              = PaddedSequenceMinibatchProvider.X self).
Proof.
  unfold PaddedSequenceMinibatchProvider._prepare_for_next_batch, py_mod.
  destruct self as [X bs padding shuffle idx bpe]. simpl.
  destruct (Z.eqb_spec bpe 0) as [E|E]; simpl; [discriminate|].
  destruct (((idx + 1) mod bpe =? 0)%Z && shuffle) eqn:Hs; intros H;
    injection H as <- <-; simpl; rewrite Hs; auto.
Qed.

(** * Further properties of the code *)

(** ** Folding and unfolding an array *)

Lemma np_reshape_size {T} (X : ndarray T) (s : list nat) :
  np_reshape X s
  = if np_prod s =? nd_size X then Ok (mkArray s (nd_data X)) else Raise ValueError.
Proof. reflexivity. Qed.

(** [_fold] and [_unfold] of a well-formed space whose extents and products
    of extents fit 64-bit integers undo each other: the size and the shape
    are then the exact products, the grouped shape and the folded shape have
    the same product, the size, so an array of the one shape is reshaped to
    the other and back with its elements in place; an array of another size
    is refused by both with a ValueError. *)
Theorem fold_unfold {T} (S : Space) :
  wf S ->
  int64_safe S ->
  size_int64 S = Z.of_nat (size S)
  /\ shape_int64 S = map Z.of_nat (shape S)
  /\ Zprod (shape_int64 S) = size_int64 S
  /\ np_prod (shape S) = size S
  /\ (forall X : ndarray T, nd_shape X = shape S ->
        exists F, _fold S X = Ok F
          /\ nd_shape F = folded_shape S /\ nd_data F = nd_data X
          /\ _unfold S F = Ok X)
  /\ (forall F : ndarray T, nd_shape F = folded_shape S ->
        exists X, _unfold S F = Ok X
          /\ nd_shape X = shape S /\ nd_data X = nd_data F
          /\ _fold S X = Ok F)
  /\ (forall X : ndarray T, nd_size X <> size S ->
        _fold S X = Raise ValueError /\ _unfold S X = Raise ValueError).
Proof.
  intros Hwf [Hsize Hshape]. pose proof (np_prod_shape Hwf) as Hp.
  pose proof (@size_int64_exact S Hsize) as Es.
  pose proof (@shape_int64_exact S Hshape) as Eh.
  split; [exact Es|]. split; [exact Eh|].
  split; [now rewrite Eh, Zprod_of_nat, Hp, Es|].
  split; [exact Hp|]. split; [|split].
  - intros X HX. exists (mkArray (folded_shape S) (nd_data X)).
    unfold _fold, _unfold. rewrite !np_reshape_size. unfold nd_size.
    cbn [nd_shape nd_data]. rewrite HX, Hp.
    change (np_prod (folded_shape S)) with (size S). rewrite Nat.eqb_refl.
    repeat split. rewrite <- HX. now destruct X.
  - intros F HF. exists (mkArray (shape S) (nd_data F)).
    unfold _fold, _unfold. rewrite !np_reshape_size. unfold nd_size.
    cbn [nd_shape nd_data]. rewrite HF, Hp.
    change (np_prod (folded_shape S)) with (size S). rewrite Nat.eqb_refl.
    repeat split. rewrite <- HF. now destruct F.
  - intros X HX. unfold _fold, _unfold. rewrite !np_reshape_size. rewrite Hp.
    change (np_prod (folded_shape S)) with (size S).
    destruct (Nat.eqb_spec (size S) (nd_size X)) as [E|E]; [congruence | auto].
Qed.

Lemma fold_unfold_witness :
  shape_int64 S_23 = map Z.of_nat (shape S_23)
  /\ Zprod (shape_int64 S_23) = size_int64 S_23
  /\ exists F, _fold S_23 X_23 = Ok F
       /\ nd_shape F = folded_shape S_23 /\ nd_data F = nd_data X_23
       /\ _unfold S_23 F = Ok X_23.
Proof.
  destruct (@fold_unfold Z S_23) as (_ & Hshape & Hprod & _ & Hfold & _).
  - exact S_23_wf.
  - split; [fits_int64_numerals|].
    simpl. repeat (apply Forall_cons; [fits_int64_numerals|]). apply Forall_nil.
  - split; [exact Hshape|]. split; [exact Hprod|].
    apply (Hfold X_23). reflexivity.
Defined.

(** ** The extent of an axis *)

Lemma map_snd_combine {T U} (l : list T) (l' : list U) :
  List.length l = List.length l' -> map snd (combine l l') = l'.
Proof.
  revert l'. induction l as [|x l IH]; intros [|y l']; simpl; intros H;
    try discriminate; auto.
  f_equal. apply IH. lia.
Qed.

Lemma map_get_values {V} (d : odict V) (dflt : V) :
  NoDup (od_keys d) -> map (fun a => od_get d a dflt) (od_keys d) = od_values d.
Proof.
  intros H. unfold od_values.
  transitivity (map snd (map (fun a => (a, od_get d a dflt)) (od_keys d))).
  - now rewrite map_map.
  - now rewrite map_get_keys.
Qed.

Lemma get_extent_od_get (S : Space) (axs : list axis) :
  NoDup (od_keys (_extent S)) ->
  Forall (fun ax => NoDup (list_ascii_of_string ax)) axs ->
  get_extent S axs
  = map (fun ax => np_prod (map (fun l => od_get (_extent S) l 1)
                              (list_ascii_of_string ax))) axs.
Proof.
  intros Hk Hax. unfold get_extent. apply map_ext_in. intros ax Hin.
  rewrite Forall_forall in Hax.
  rewrite _size_of_axis_extent_in, extent_in_leaves by auto.
  apply np_prod_map_ext. intros l _. symmetry. now apply od_get_extent_in.
Qed.

(** [get_extent] never raises: the size of an axis is the product of what
    the extent holds for its labels, a label without an entry counting as 1
    (for distinct labels in the axis, a dictionary, whose keys are distinct,
    and extents that fit 64-bit integers together with their product in
    each axis asked for, so that numpy's product is the exact one). *)
Theorem get_extent_lookup (S : Space) (axs : list axis) :
  NoDup (od_keys (_extent S)) ->
  Forall (fun ax => NoDup (list_ascii_of_string ax)) axs ->
  Forall (fun ax => fits_int64 (selected (_extent S) (list_ascii_of_string ax))) axs ->
  get_extent_int64 S axs
  = map (fun ax => Z.of_nat (np_prod (map (fun l => od_get (_extent S) l 1)
                                        (list_ascii_of_string ax)))) axs
  /\ get_extent_int64 S axs = map Z.of_nat (get_extent S axs)
  /\ get_extent S axs
     = map (fun ax => np_prod (map (fun l => od_get (_extent S) l 1)
                                 (list_ascii_of_string ax))) axs.
Proof.
  intros Hk Hax Hfit.
  pose proof (@get_extent_od_get S axs Hk Hax) as E.
  pose proof (@get_extent_int64_exact S axs Hfit) as E64.
  split; [|split; assumption].
  rewrite E64, E, map_map. reflexivity.
Qed.

Lemma get_extent_lookup_witness :
  get_extent_int64 S_bw ["b"; "wf"; ""]%string = [4; 10; 1]%Z
  /\ get_extent S_bw ["b"; "wf"; ""]%string = [4; 10; 1].
Proof.
  destruct (@get_extent_lookup S_bw ["b"; "wf"; ""]%string) as (E64 & _ & E).
  - repeat constructor; simpl; intuition discriminate.
  - repeat constructor; simpl; intuition discriminate.
  - simpl. repeat (apply Forall_cons; [fits_int64_numerals|]). apply Forall_nil.
  - rewrite E64, E. split; reflexivity.
Defined.

(** ** The space infer returns *)

(** For distinct labels, as many as the array has dimensions, the Space
    [infer] returns is well-formed and describes the array: its leaf labels
    are the labels, its shape and folded shape are the shape of the array
    and its size is the size of the array. *)
Theorem infer_describes {T} (X : ndarray T) (axes : list label) :
  NoDup axes -> List.length axes = List.length (nd_shape X) ->
  exists S, infer X axes = Ok S
    /\ wf S
    /\ folded_axes S = axes
    /\ shape S = nd_shape X
    /\ folded_shape S = nd_shape X
    /\ size S = nd_size X.
Proof.
  intros Hnd Hlen. unfold infer. rewrite <- Hlen, Nat.eqb_refl.
  rewrite od_of_pairs_NoDup by (rewrite map_fst_combine; assumption).
  eexists. split; [reflexivity|].
  assert (Hfa : folded_axes (mkSpace (map axis_of_label axes)
                              (combine axes (nd_shape X))) = axes)
    by apply _fold_axes_labels.
  assert (Hk : od_keys (combine axes (nd_shape X)) = axes)
    by (apply map_fst_combine; assumption).
  assert (Hv : od_values (combine axes (nd_shape X)) = nd_shape X)
    by (apply map_snd_combine; assumption).
  assert (Hwf : wf (mkSpace (map axis_of_label axes) (combine axes (nd_shape X))))
    by (split; simpl; rewrite ?Hfa, ?Hk; auto).
  split; [exact Hwf|]. split; [exact Hfa|]. split; [|split].
  - unfold shape. cbn [_axes]. rewrite map_map.
    transitivity (od_values (combine axes (nd_shape X))); [|exact Hv].
    rewrite <- (map_get_values (combine axes (nd_shape X)) 1)
      by (rewrite Hk; assumption).
    rewrite Hk. apply map_ext. intros a.
    rewrite _size_of_axis_extent_in. cbn [_extent].
    symmetry. apply od_get_extent_in. now rewrite Hk.
  - exact Hv.
  - unfold size, nd_size. cbn [_extent]. now rewrite Hv.
Qed.

Lemma infer_describes_witness :
  exists S, infer X_23 ["b"%char; "w"%char] = Ok S
    /\ wf S
    /\ folded_axes S = ["b"%char; "w"%char]
    /\ shape S = nd_shape X_23
    /\ folded_shape S = nd_shape X_23
    /\ size S = nd_size X_23.
Proof.
  apply (@infer_describes Z X_23 ["b"%char; "w"%char]).
  - repeat constructor; simpl; intuition discriminate.
  - reflexivity.
Defined.

(** ** Transposition as a rearrangement *)

Lemma length_unravel (sh : list nat) (n : nat) :
  List.length (unravel sh n) = List.length sh.
Proof.
  revert n. induction sh as [|d sh IH]; simpl; intros n; auto.
Qed.

Lemma is_permb_inverse (p : list nat) (n : nat) :
  is_permb p n = true -> inverse_perms p (inv_perm p).
Proof.
  intros H. apply is_permb_spec in H. destruct H as (Hl & Hb & Hnd).
  rewrite Forall_forall in Hb.
  assert (HP : Permutation p (seq 0 n)).
  { apply NoDup_Permutation_bis; auto.
    - rewrite length_seq. lia.
    - intros x Hx. apply in_seq. specialize (Hb x Hx). lia. }
  assert (Hin : forall m, m < n -> In m p).
  { intros m Hm. apply (Permutation_in _ (Permutation_sym HP)), in_seq. lia. }
  assert (Hq : forall m, m < n -> nth m (inv_perm p) 0 = pos m p).
  { intros m Hm. unfold inv_perm. rewrite Hl.
    now apply (nth_map_seq (fun m => pos m p)). }
  assert (Hlq : List.length (inv_perm p) = n)
    by (unfold inv_perm; rewrite length_map, length_seq; exact Hl).
  unfold inverse_perms. rewrite Hlq, Hl. split; [reflexivity|]. split.
  - intros k Hk.
    assert (Hk' : nth k p 0 < n) by (apply Hb, nth_In; lia).
    split; [exact Hk'|]. rewrite Hq by exact Hk'. unfold pos.
    apply (position_nth_error Nat.eqb Nat.eqb_eq); [exact Hnd|].
    apply nth_error_nth'. lia.
  - intros k Hk. rewrite Hq by exact Hk. unfold pos.
    destruct (nth_error_position Nat.eqb Nat.eqb_eq k p (Hin k Hk)) as [Hlt Hnth].
    split; [lia|]. now apply nth_error_nth.
Qed.

Lemma transposed_index_bounds (sh p q : list nat) (n : nat) :
  inverse_perms p q -> List.length sh = List.length p -> n < np_prod sh ->
  Forall2 lt (permute q (unravel (permute p sh) n)) sh.
Proof.
  intros H Hsh Hn. pose proof (inverse_perms_sym H) as H'.
  rewrite <- (permute_inverse sh H Hsh) at 2.
  apply permute_bounds.
  - apply unravel_bounds.
    now rewrite (np_prod_Permutation (permute_Permutation sh H Hsh)).
  - rewrite length_permute. destruct H as (Hl & _). rewrite Hl.
    apply (inverse_perms_bounds H').
Qed.

Lemma nth_error_transposed {T} (d : list T) (sh p q : list nat) (n : nat) :
  inverse_perms p q -> List.length sh = List.length p ->
  List.length d = np_prod sh -> n < np_prod sh ->
  nth_error (transposed d sh p) n
  = nth_error d (ravel sh (permute q (unravel (permute p sh) n))).
Proof.
  intros H Hsh Hd Hn. unfold transposed. rewrite (inv_perm_inverse H).
  rewrite (np_prod_Permutation (permute_Permutation sh H Hsh)).
  rewrite nth_error_gather.
  - rewrite nth_error_map, (nth_error_nth' _ 0) by (rewrite length_seq; exact Hn).
    now rewrite seq_nth.
  - apply Forall_forall. intros i Hi. apply in_map_iff in Hi.
    destruct Hi as (m & <- & Hm). apply in_seq in Hm. rewrite Hd.
    apply ravel_lt, transposed_index_bounds; auto. lia.
Qed.

Lemma length_transposed {T} (d : list T) (sh p q : list nat) :
  inverse_perms p q -> List.length sh = List.length p ->
  List.length d = np_prod sh ->
  List.length (transposed d sh p) = np_prod sh.
Proof.
  intros H Hsh Hd. unfold transposed. rewrite (inv_perm_inverse H).
  rewrite (np_prod_Permutation (permute_Permutation sh H Hsh)).
  rewrite length_gather; [now rewrite length_map, length_seq|].
  apply Forall_forall. intros i Hi. apply in_map_iff in Hi.
  destruct Hi as (m & <- & Hm). apply in_seq in Hm. rewrite Hd.
  apply ravel_lt, transposed_index_bounds; auto. lia.
Qed.

(* a transposition moves the elements, it neither drops nor repeats one *)
Lemma transposed_Permutation {T} (d : list T) (sh p q : list nat) :
  inverse_perms p q -> List.length sh = List.length p ->
  List.length d = np_prod sh ->
  Permutation (transposed d sh p) d.
Proof.
  intros H Hsh Hd. pose proof (inverse_perms_sym H) as H'.
  pose proof H as (Hl & _).
  unfold transposed. rewrite (inv_perm_inverse H).
  rewrite (np_prod_Permutation (permute_Permutation sh H Hsh)).
  rewrite <- (gather_all d) at 2. apply gather_Permutation. rewrite Hd.
  assert (G : forall n, n < np_prod sh ->
            ravel (permute p sh)
              (permute p (unravel sh
                 (ravel sh (permute q (unravel (permute p sh) n))))) = n).
  { intros n Hn. rewrite unravel_ravel by now apply transposed_index_bounds.
    rewrite (permute_inverse _ H').
    - apply ravel_unravel.
      now rewrite (np_prod_Permutation (permute_Permutation sh H Hsh)).
    - rewrite length_unravel, length_permute. exact Hl. }
  apply NoDup_Permutation_bis.
  - apply NoDup_map_NoDup_ForallPairs; [|apply seq_NoDup].
    intros x y Hx Hy E. apply in_seq in Hx, Hy.
    rewrite <- (G x), <- (G y) by lia. now rewrite E.
  - rewrite length_map, !length_seq. lia.
  - intros i Hi. apply in_map_iff in Hi. destruct Hi as (n & <- & Hn).
    apply in_seq in Hn. apply in_seq. split; [lia|]. simpl.
    apply ravel_lt, transposed_index_bounds; auto. lia.
Qed.

(** ** The content of a transformed array *)

Lemma Forall2_lt_map {U} (f g : U -> nat) (l : list U) :
  (forall a, In a l -> f a < g a) -> Forall2 lt (map f l) (map g l).
Proof.
  induction l as [|a l IH]; simpl; intros H; constructor; auto.
Qed.

Lemma ravel_ones {U} (f : U -> nat) (l : list U) :
  (forall m, In m l -> f m = 0) -> ravel (map (fun _ => 1) l) (map f l) = 0.
Proof.
  induction l as [|m l IH]; simpl; intros H; auto.
  rewrite (H m) by now left. rewrite IH by auto. reflexivity.
Qed.

Lemma folded_shape_get (S : Space) :
  wf S -> folded_shape S = map (fun a => od_get (_extent S) a 1) (folded_axes S).
Proof.
  intros [Hk Hnd]. unfold folded_shape. rewrite <- Hk.
  symmetry. apply map_get_values. now rewrite Hk.
Qed.

Lemma target_folded_shape (S : Space) (new_axes : list axis) :
  folded_shape (target S new_axes)
  = map (fun b => od_get (_extent S) b 1) (_fold_axes new_axes).
Proof.
  unfold folded_shape, target, od_values. simpl. now rewrite map_map.
Qed.

Lemma nth_position (b : label) (B : list label) (dflt : label) :
  In b B -> nth (position Ascii.eqb b B) B dflt = b.
Proof.
  intros Hb. apply nth_error_nth.
  now apply (@nth_error_position label Ascii.eqb Ascii.eqb_eq).
Qed.

(* the index a valid multi-index of the target has for a label *)
Lemma target_index_lt (S : Space) (new_axes : list axis) (j : list nat) (b : label) :
  Forall2 lt j (folded_shape (target S new_axes)) ->
  In b (_fold_axes new_axes) ->
  nth (position Ascii.eqb b (_fold_axes new_axes)) j 0 < od_get (_extent S) b 1.
Proof.
  intros Hj Hb.
  destruct (@nth_error_position label Ascii.eqb Ascii.eqb_eq b _ Hb) as [Hlt _].
  assert (E : nth (position Ascii.eqb b (_fold_axes new_axes))
                  (folded_shape (target S new_axes)) 0
              = od_get (_extent S) b 1).
  { rewrite target_folded_shape.
    rewrite (nth_map_lt _ _ b) by exact Hlt. now rewrite nth_position. }
  rewrite <- E. apply Forall2_lt_nth; [exact Hj|].
  rewrite target_folded_shape, length_map. exact Hlt.
Qed.

Section TransformContent.

Variable set_iter : list label -> list label.
Hypothesis set_iter_perm : forall l, Permutation (set_iter l) l.

(* what a successful transform of a well-formed space returns *)
Lemma transform_returns {T} (S S' : Space) (X X' : ndarray T) (new_axes : list axis) :
  wf S -> transform set_iter S X new_axes = Ok (X', S') ->
  incl (folded_axes S) (_fold_axes new_axes)
  /\ NoDup (_fold_axes new_axes)
  /\ nd_size X = size S
  /\ S' = target S new_axes
  /\ X' = mkArray (shape (target S new_axes))
            (transposed (nd_data X) (folded_shape (expanded set_iter S new_axes))
               (axis_perm set_iter S new_axes)).
Proof.
  intros Hwf H.
  destruct (@transform_inv set_iter set_iter_perm _ _ _ _ _ _ H) as (Hincl & HB & Hsize).
  rewrite (@expand_subset set_iter set_iter_perm S new_axes) in Hsize by assumption.
  fold (expanded set_iter S new_axes) in Hsize.
  rewrite expanded_size in Hsize.
  rewrite (@transform_ok set_iter set_iter_perm) in H by assumption.
  injection H as <- <-. auto.
Qed.

Lemma axis_perm_inverse (S : Space) (new_axes : list axis) :
  wf S -> NoDup (_fold_axes new_axes) ->
  incl (folded_axes S) (_fold_axes new_axes) ->
  inverse_perms (axis_perm set_iter S new_axes)
    (map (fun e => position Ascii.eqb e (_fold_axes new_axes))
         (folded_axes S ++ missing set_iter S new_axes)).
Proof.
  intros Hwf HB Hincl. unfold axis_perm. apply inverse_positions.
  - now apply (@expanded_NoDup set_iter set_iter_perm).
  - exact HB.
  - intros x Hx. apply in_app_or in Hx. destruct Hx as [Hx|Hx]; auto.
    now apply (@missing_In set_iter set_iter_perm) in Hx.
  - apply (@expanded_incl set_iter set_iter_perm).
Qed.

Lemma length_axis_perm (S : Space) (new_axes : list axis) :
  wf S -> NoDup (_fold_axes new_axes) ->
  incl (folded_axes S) (_fold_axes new_axes) ->
  List.length (folded_shape (expanded set_iter S new_axes))
  = List.length (axis_perm set_iter S new_axes).
Proof.
  intros Hwf HB Hincl.
  pose proof (@axis_perm_is_permb set_iter set_iter_perm S new_axes Hwf HB Hincl) as H.
  apply is_permb_spec in H. symmetry. apply H.
Qed.

Lemma expanded_folded_shape (S : Space) (new_axes : list axis) :
  folded_shape (expanded set_iter S new_axes)
  = folded_shape S ++ map (fun _ => 1) (missing set_iter S new_axes).
Proof.
  unfold folded_shape, expanded, od_values. simpl.
  now rewrite map_app, map_map.
Qed.

(* the element of the transposed data at a multi-index of the target *)
Lemma transform_nth {T} (S : Space) (X : ndarray T) (new_axes : list axis)
  (j : list nat) :
  wf S -> nd_wf X -> NoDup (_fold_axes new_axes) ->
  incl (folded_axes S) (_fold_axes new_axes) -> nd_size X = size S ->
  Forall2 lt j (folded_shape (target S new_axes)) ->
  Forall2 lt (source_index S (target S new_axes) j) (folded_shape S)
  /\ ravel (folded_shape (target S new_axes)) j < size S
  /\ nth_error
       (transposed (nd_data X) (folded_shape (expanded set_iter S new_axes))
          (axis_perm set_iter S new_axes))
       (ravel (folded_shape (target S new_axes)) j)
     = nth_error (nd_data X)
         (ravel (folded_shape S) (source_index S (target S new_axes) j)).
Proof.
  intros Hwf HX HB Hincl Hsize Hj.
  pose proof (@axis_perm_inverse S new_axes Hwf HB Hincl) as Hinv.
  pose proof (@length_axis_perm S new_axes Hwf HB Hincl) as Hlen.
  pose proof (@permute_expanded set_iter set_iter_perm S new_axes Hwf) as Hpe.
  assert (Hd : List.length (nd_data X)
               = np_prod (folded_shape (expanded set_iter S new_axes))).
  { rewrite expanded_size, <- Hsize. exact HX. }
  assert (Hn : ravel (folded_shape (target S new_axes)) j
               < np_prod (folded_shape (expanded set_iter S new_axes))).
  { rewrite <- (np_prod_Permutation (permute_Permutation _ Hinv Hlen)), Hpe.
    now apply ravel_lt. }
  assert (Hsrc : source_index S (target S new_axes) j
                 = map (fun a => nth (position Ascii.eqb a (_fold_axes new_axes)) j 0)
                       (folded_axes S)) by reflexivity.
  split; [|split].
  - rewrite Hsrc, (folded_shape_get Hwf). apply Forall2_lt_map.
    intros a Ha. apply target_index_lt; auto.
  - now rewrite expanded_size in Hn.
  - rewrite (@nth_error_transposed _ _ _ _ _ _ Hinv Hlen Hd Hn).
    rewrite Hpe, unravel_ravel by exact Hj.
    unfold permute. rewrite map_map, map_app, expanded_folded_shape.
    rewrite ravel_app
      by (rewrite length_map; symmetry; now apply length_folded_shape).
    rewrite np_prod_ones, ravel_ones, Hsrc.
    + now rewrite Nat.mul_1_r, Nat.add_0_r.
    + intros m Hm. apply (@missing_In set_iter set_iter_perm) in Hm.
      destruct Hm as [Hb Ha].
      pose proof (target_index_lt S new_axes m Hj Hb) as Hlt.
      rewrite od_get_not_key in Hlt; [lia|].
      destruct Hwf as [Hk _]. now rewrite Hk.
Qed.

Lemma transform_result_wf {T} (S S' : Space) (X X' : ndarray T) (new_axes : list axis) :
  wf S -> nd_wf X -> transform set_iter S X new_axes = Ok (X', S') ->
  wf S' /\ axes S' = new_axes /\ nd_shape X' = shape S' /\ nd_wf X'
  /\ Permutation (nd_data X') (nd_data X).
Proof.
  intros Hwf HX H.
  destruct (@transform_returns _ _ _ _ _ _ Hwf H) as (Hincl & HB & Hsize & -> & ->).
  pose proof (@axis_perm_inverse S new_axes Hwf HB Hincl) as Hinv.
  pose proof (@length_axis_perm S new_axes Hwf HB Hincl) as Hlen.
  assert (Hd : List.length (nd_data X)
               = np_prod (folded_shape (expanded set_iter S new_axes))).
  { rewrite expanded_size, <- Hsize. exact HX. }
  split; [now apply target_wf|]. split; [reflexivity|]. split; [reflexivity|].
  split.
  - unfold nd_wf. cbn [nd_data nd_shape].
    rewrite (@length_transposed _ _ _ _ _ Hinv Hlen Hd), expanded_size.
    rewrite target_shape by assumption.
    rewrite <- (@permute_expanded set_iter set_iter_perm S new_axes Hwf).
    rewrite (np_prod_Permutation (permute_Permutation _ Hinv Hlen)).
    now rewrite expanded_size.
  - cbn [nd_data]. exact (@transposed_Permutation _ _ _ _ _ Hinv Hlen Hd).
Qed.

(** [transform] is an index calculation: in the array a transform of a
    well-formed space returns, the element at a multi-index [j] over the
    leaf axes of the new space is the element of the argument at the
    multi-index that gives every leaf axis of the old space the index [j]
    has for that label. *)
Theorem transform_pointwise {T} (S S' : Space) (X X' : ndarray T)
  (new_axes : list axis) (j : list nat) :
  wf S -> nd_wf X ->
  transform set_iter S X new_axes = Ok (X', S') ->
  Forall2 lt j (folded_shape S') ->
  Forall2 lt (source_index S S' j) (folded_shape S)
  /\ ravel (folded_shape S') j < List.length (nd_data X')
  /\ nth_error (nd_data X') (ravel (folded_shape S') j)
     = nth_error (nd_data X) (ravel (folded_shape S) (source_index S S' j)).
Proof.
  intros Hwf HX H Hj.
  destruct (@transform_result_wf _ _ _ _ _ _ Hwf HX H) as (_ & _ & _ & _ & HP).
  destruct (@transform_returns _ _ _ _ _ _ Hwf H) as (Hincl & HB & Hsize & -> & ->).
  destruct (@transform_nth _ _ _ _ _ Hwf HX HB Hincl Hsize Hj) as (H1 & H2 & H3).
  split; [exact H1|]. split; [|exact H3].
  rewrite (Permutation_length HP). unfold nd_wf in HX.
  unfold nd_size in Hsize. rewrite HX, Hsize. exact H2.
Qed.

(** A successful [transform] of a well-formed space returns a well-formed
    space with the requested axes and an array of the shape of that space
    holding the elements of the argument, each as often as the argument
    has it: none is dropped, none repeated. *)
Theorem transform_rearranges {T} (S S' : Space) (X X' : ndarray T)
  (new_axes : list axis) :
  wf S -> nd_wf X -> transform set_iter S X new_axes = Ok (X', S') ->
  wf S' /\ axes S' = new_axes /\ nd_shape X' = shape S' /\ nd_wf X'
  /\ Permutation (nd_data X') (nd_data X).
Proof. exact (@transform_result_wf T S S' X X' new_axes). Qed.

End TransformContent.

(** ** Regrouping, failures and composition of transforms *)

Lemma position_self (A : list label) :
  NoDup A -> map (fun a => position Ascii.eqb a A) A = seq 0 (List.length A).
Proof.
  intros H. apply (nth_ext _ _ 0 0).
  - now rewrite length_map, length_seq.
  - intros k Hk. rewrite length_map in Hk.
    destruct (nth_error A k) as [a|] eqn:E;
      [|apply nth_error_None in E; unfold label in *; lia].
    rewrite (nth_map_lt _ _ a) by exact Hk.
    rewrite (nth_error_nth _ _ a E), seq_nth by exact Hk.
    now apply (@position_nth_error label Ascii.eqb Ascii.eqb_eq).
Qed.

Lemma inverse_perms_id (n : nat) : inverse_perms (seq 0 n) (seq 0 n).
Proof.
  assert (E : forall k, k < n -> nth k (seq 0 n) 0 = k)
    by (intros k Hk; now rewrite seq_nth).
  unfold inverse_perms. rewrite length_seq.
  split; [reflexivity|].
  split; intros k Hk; rewrite (E k Hk); (split; [exact Hk | exact (E k Hk)]).
Qed.

(* transposing by the identity leaves the data as they are *)
Lemma transposed_id {T} (d : list T) (sh : list nat) :
  List.length d = np_prod sh -> transposed d sh (seq 0 (List.length sh)) = d.
Proof.
  intros Hd. unfold transposed.
  rewrite (inv_perm_inverse (inverse_perms_id (List.length sh))).
  assert (E : permute (seq 0 (List.length sh)) sh = sh) by apply map_nth_seq.
  rewrite E, (map_ext_in _ (fun n => n)).
  - rewrite map_id, <- Hd. apply gather_all.
  - intros n Hn. apply in_seq in Hn.
    assert (E' : permute (seq 0 (List.length sh)) (unravel sh n) = unravel sh n).
    { rewrite <- (length_unravel sh n). apply map_nth_seq. }
    rewrite E'. apply ravel_unravel. lia.
Qed.

Lemma NoDup_labels_dec (l : list label) : NoDup l \/ ~ NoDup l.
Proof.
  induction l as [|x l [IH|IH]].
  - left. constructor.
  - destruct (mem x l) eqn:E.
    + right. intros H. apply NoDup_cons_iff in H. apply mem_In in E. tauto.
    + left. constructor; [now apply mem_false | exact IH].
  - right. intros H. apply NoDup_cons_iff in H. tauto.
Qed.

Lemma target_np_prod (S : Space) (new_axes : list axis) :
  wf S -> NoDup (_fold_axes new_axes) ->
  incl (folded_axes S) (_fold_axes new_axes) ->
  np_prod (folded_shape (target S new_axes)) = size S.
Proof.
  intros [Hk Hnd] HB Hincl. rewrite target_folded_shape.
  apply np_prod_get; rewrite ?Hk; assumption.
Qed.

Lemma target_same_leaves (S : Space) (new_axes : list axis) :
  wf S -> _fold_axes new_axes = folded_axes S ->
  target S new_axes = mkSpace new_axes (_extent S).
Proof.
  intros [Hk Hnd] Hsame. unfold target. rewrite Hsame, <- Hk.
  rewrite map_get_keys by (now rewrite Hk). reflexivity.
Qed.

Lemma target_target (S : Space) (new1 new2 : list axis) :
  wf S -> incl (folded_axes S) (_fold_axes new1) ->
  target (target S new1) new2 = target S new2.
Proof.
  intros [Hk Hnd] Hincl. unfold target at 1 3. f_equal.
  apply map_ext. intros c. f_equal. unfold target. cbn [_extent].
  destruct (mem c (_fold_axes new1)) eqn:E.
  - apply mem_In in E.
    now rewrite (@od_get_map_pairs _ (fun ax => od_get (_extent S) ax 1) _ c 1 E).
  - apply mem_false in E. rewrite od_get_not_key.
    + symmetry. apply od_get_not_key. rewrite Hk. auto.
    + unfold od_keys. rewrite map_map. simpl. now rewrite map_id.
Qed.

Lemma source_index_compose (S : Space) (new1 new2 : list axis) (j : list nat) :
  incl (folded_axes S) (_fold_axes new1) ->
  source_index S (target S new1)
    (source_index (target S new1) (target S new2) j)
  = source_index S (target S new2) j.
Proof.
  intros Hincl. unfold source_index.
  change (folded_axes (target S new1)) with (_fold_axes new1).
  change (folded_axes (target S new2)) with (_fold_axes new2).
  apply map_ext_in. intros a Ha.
  destruct (@nth_error_position label Ascii.eqb Ascii.eqb_eq a _ (Hincl _ Ha))
    as [Hlt _].
  rewrite (nth_map_lt _ _ a) by exact Hlt.
  now rewrite nth_position by auto.
Qed.

Section TransformLaws.

Variable set_iter : list label -> list label.
Hypothesis set_iter_perm : forall l, Permutation (set_iter l) l.

Lemma transform_value_error {T} (S : Space) (X : ndarray T) (new_axes : list axis) :
  wf S -> incl (folded_axes S) (_fold_axes new_axes) ->
  ~ (NoDup (_fold_axes new_axes) /\ nd_size X = size S) ->
  transform set_iter S X new_axes = Raise ValueError.
Proof.
  intros Hwf Hincl Hno. rewrite transform_unfold. cbv zeta.
  rewrite (@expand_covers set_iter set_iter_perm),
    (@expand_subset set_iter set_iter_perm) by assumption.
  fold (expanded set_iter S new_axes).
  unfold _fold, np_reshape at 1. rewrite expanded_size.
  destruct (Nat.eqb_spec (size S) (nd_size X)) as [E|E]; [|reflexivity].
  cbn [bind].
  replace (folded_axes (expanded set_iter S new_axes))
    with (folded_axes S ++ missing set_iter S new_axes)
    by (unfold folded_axes, expanded; simpl;
        now rewrite _fold_axes_app, _fold_axes_labels).
  rewrite mapM_index_position by apply (@expanded_incl set_iter set_iter_perm).
  cbn [bind]. unfold np_transpose. cbn [nd_shape nd_data].
  destruct (is_permb _ _) eqn:Hp; [|reflexivity].
  exfalso. apply Hno. split; [|auto].
  apply is_permb_spec in Hp. destruct Hp as (_ & _ & Hnd).
  now apply NoDup_map_inv in Hnd.
Qed.

(** On a well-formed space [transform] succeeds exactly when the target has
    every leaf label of the space, no leaf label twice, and the array has as
    many elements as the space; a target that has all the leaf labels but
    repeats one, or an array of another size, is refused with a
    ValueError. *)
Theorem transform_outcome {T} (S : Space) (X : ndarray T) (new_axes : list axis) :
  wf S ->
  (is_ok (transform set_iter S X new_axes)
   <-> incl (folded_axes S) (_fold_axes new_axes)
       /\ NoDup (_fold_axes new_axes) /\ nd_size X = size S)
  /\ (incl (folded_axes S) (_fold_axes new_axes) ->
      ~ (NoDup (_fold_axes new_axes) /\ nd_size X = size S) ->
      transform set_iter S X new_axes = Raise ValueError).
Proof.
  intros Hwf. split; [split|].
  - intros Hok.
    destruct (transform set_iter S X new_axes) as [[X' S']|e] eqn:H; [|contradiction].
    destruct (@transform_returns set_iter set_iter_perm _ _ _ _ _ _ Hwf H)
      as (H1 & H2 & H3 & _).
    auto.
  - intros (Hincl & HB & Hsize).
    rewrite (@transform_ok set_iter set_iter_perm) by assumption. exact I.
  - now apply transform_value_error.
Qed.

(** A transform whose target has the leaf labels of the space in the order
    of the space, grouped in another way, is a reshape: the elements stay
    where they are and the extents are the ones of the space. *)
Theorem transform_regroup {T} (S : Space) (X : ndarray T) (new_axes : list axis) :
  wf S -> nd_wf X -> nd_size X = size S ->
  _fold_axes new_axes = folded_axes S ->
  transform set_iter S X new_axes
  = Ok (mkArray (shape (mkSpace new_axes (_extent S))) (nd_data X),
        mkSpace new_axes (_extent S)).
Proof.
  intros Hwf HX Hsize Hsame. pose proof Hwf as [Hk Hnd].
  assert (Hincl : incl (folded_axes S) (_fold_axes new_axes))
    by (rewrite Hsame; apply incl_refl).
  assert (Hback : incl (_fold_axes new_axes) (folded_axes S))
    by (rewrite Hsame; apply incl_refl).
  rewrite (@transform_ok set_iter set_iter_perm)
    by (auto; rewrite Hsame; exact Hnd).
  rewrite (target_same_leaves _ Hwf Hsame).
  rewrite (@expanded_same set_iter set_iter_perm S new_axes Hback).
  rewrite (@axis_perm_same set_iter set_iter_perm S new_axes Hback).
  rewrite Hsame, (position_self Hnd), <- (length_folded_shape Hwf).
  rewrite transposed_id; [reflexivity|].
  unfold nd_wf in HX. unfold nd_size in Hsize. now rewrite HX, Hsize.
Qed.

(** Two transforms in a row are the transform to the last target: from a
    well-formed space, a transform to [axes1] followed by a transform of its
    results to [axes2] returns what the transform to [axes2] returns. *)
Theorem transform_compose {T} (S S1 S2 : Space) (X X1 X2 : ndarray T)
  (axes1 axes2 : list axis) :
  wf S -> nd_wf X ->
  transform set_iter S X axes1 = Ok (X1, S1) ->
  transform set_iter S1 X1 axes2 = Ok (X2, S2) ->
  transform set_iter S X axes2 = Ok (X2, S2).
Proof.
  intros Hwf HX H1 H2.
  destruct (@transform_result_wf set_iter set_iter_perm _ _ _ _ _ _ Hwf HX H1)
    as (Hwf1 & _ & _ & HX1 & _).
  destruct (@transform_returns set_iter set_iter_perm _ _ _ _ _ _ Hwf H1)
    as (Hi1 & HB1 & Hs1 & ES1 & EX1).
  destruct (@transform_returns set_iter set_iter_perm _ _ _ _ _ _ Hwf1 H2)
    as (Hi2 & HB2 & Hs2 & ES2 & EX2).
  assert (Hf1 : folded_axes S1 = _fold_axes axes1) by (now rewrite ES1).
  rewrite Hf1 in Hi2.
  assert (Hi : incl (folded_axes S) (_fold_axes axes2))
    by (intros a Ha; auto).
  rewrite (@transform_ok set_iter set_iter_perm) by assumption.
  assert (ET : S2 = target S axes2)
    by (rewrite ES2, ES1; now apply target_target).
  assert (ET' : target S1 axes2 = target S axes2) by (rewrite <- ES2; exact ET).
  rewrite ET. f_equal. f_equal.
  rewrite EX2, ET'. f_equal.
  apply nth_error_ext. intros n.
  assert (Hlen : forall (S0 : Space) (X0 : ndarray T) (new_axes : list axis),
             wf S0 -> nd_wf X0 -> NoDup (_fold_axes new_axes) ->
             incl (folded_axes S0) (_fold_axes new_axes) -> nd_size X0 = size S0 ->
             List.length (transposed (nd_data X0)
                            (folded_shape (expanded set_iter S0 new_axes))
                            (axis_perm set_iter S0 new_axes)) = size S0).
  { intros S0 X0 new_axes W0 WX0 B0 I0 Z0.
    rewrite (@length_transposed _ _ _ _ _
               (@axis_perm_inverse set_iter set_iter_perm S0 new_axes W0 B0 I0)
               (@length_axis_perm set_iter set_iter_perm S0 new_axes W0 B0 I0)).
    - apply expanded_size.
    - rewrite expanded_size, <- Z0. exact WX0. }
  assert (Hsz : size S1 = size S).
  { rewrite ES1. unfold size. fold (folded_shape (target S axes1)).
    now apply target_np_prod. }
  destruct (Nat.lt_ge_cases n (size S)) as [Hn|Hn].
  - assert (Hj : Forall2 lt (unravel (folded_shape (target S axes2)) n)
                   (folded_shape (target S axes2)))
      by (apply unravel_bounds; now rewrite target_np_prod).
    assert (En : ravel (folded_shape (target S axes2))
                   (unravel (folded_shape (target S axes2)) n) = n)
      by (apply ravel_unravel; now rewrite target_np_prod).
    set (j := unravel (folded_shape (target S axes2)) n) in *.
    destruct (@transform_nth set_iter set_iter_perm _ S X axes2 j
                Hwf HX HB2 Hi Hs1 Hj) as (_ & _ & E3).
    rewrite En in E3. rewrite E3.
    assert (Hj' : Forall2 lt j (folded_shape (target S1 axes2)))
      by (rewrite ET'; exact Hj).
    destruct (@transform_nth set_iter set_iter_perm _ S1 X1 axes2 j
                Hwf1 HX1 HB2 ltac:(now rewrite Hf1) Hs2 Hj') as (Hb & _ & E2).
    rewrite ET', En in E2. rewrite E2.
    rewrite ET', ES1 in Hb.
    destruct (@transform_nth set_iter set_iter_perm _ S X axes1 _
                Hwf HX HB1 Hi1 Hs1 Hb) as (_ & _ & E1).
    rewrite EX1. cbn [nd_data]. rewrite ES1, E1.
    now rewrite source_index_compose.
  - rewrite (proj2 (nth_error_None _ _)), (proj2 (nth_error_None _ _));
      [reflexivity | |].
    + rewrite Hlen; [lia | auto ..]. now rewrite Hf1.
    + rewrite Hlen; [lia | auto ..].
Qed.

End TransformLaws.

(** The arrays and spaces [transform] returns do not depend on the order in
    which Python iterates over the set of the missing labels: two iteration
    orders give the same result, or the same failure, on every well-formed
    space. *)
Theorem transform_set_order {T} (iter1 iter2 : list label -> list label)
  (S : Space) (X : ndarray T) (new_axes : list axis) :
  (forall l, Permutation (iter1 l) l) -> (forall l, Permutation (iter2 l) l) ->
  wf S -> nd_wf X ->
  transform iter1 S X new_axes = transform iter2 S X new_axes.
Proof.
  intros P1 P2 Hwf HX.
  destruct (subset (folded_axes S) (_fold_axes new_axes)) eqn:Hs.
  - apply subset_incl in Hs.
    destruct (NoDup_labels_dec (_fold_axes new_axes)) as [HB|HB];
      [destruct (Nat.eq_dec (nd_size X) (size S)) as [Hsize|Hsize]|].
    + rewrite (@transform_ok iter1 P1), (@transform_ok iter2 P2) by assumption.
      f_equal. f_equal. f_equal. apply nth_error_ext. intros n.
      destruct (Nat.lt_ge_cases n (size S)) as [Hn|Hn].
      * assert (Hj : Forall2 lt (unravel (folded_shape (target S new_axes)) n)
                       (folded_shape (target S new_axes)))
          by (apply unravel_bounds; now rewrite target_np_prod).
        assert (En : ravel (folded_shape (target S new_axes))
                       (unravel (folded_shape (target S new_axes)) n) = n)
          by (apply ravel_unravel; now rewrite target_np_prod).
        destruct (@transform_nth iter1 P1 _ S X new_axes _ Hwf HX HB Hs Hsize Hj)
          as (_ & _ & E1).
        destruct (@transform_nth iter2 P2 _ S X new_axes _ Hwf HX HB Hs Hsize Hj)
          as (_ & _ & E2).
        rewrite En in E1, E2. now rewrite E1, E2.
      * assert (Hd : forall it, (forall l, Permutation (it l) l) ->
                  List.length (transposed (nd_data X)
                                 (folded_shape (expanded it S new_axes))
                                 (axis_perm it S new_axes)) = size S).
        { intros it P.
          rewrite (@length_transposed _ _ _ _ _
                     (@axis_perm_inverse it P S new_axes Hwf HB Hs)
                     (@length_axis_perm it P S new_axes Hwf HB Hs)).
          - apply expanded_size.
          - rewrite expanded_size, <- Hsize. exact HX. }
        rewrite (proj2 (nth_error_None _ _)), (proj2 (nth_error_None _ _));
          [reflexivity | |]; rewrite Hd; auto.
    + rewrite (@transform_value_error iter1 P1), (@transform_value_error iter2 P2);
        tauto.
    + rewrite (@transform_value_error iter1 P1), (@transform_value_error iter2 P2);
        tauto.
  - apply subset_false in Hs.
    rewrite (proj2 (@transform_incompatible_iff iter1 P1 _ S X new_axes) Hs).
    now rewrite (proj2 (@transform_incompatible_iff iter2 P2 _ S X new_axes) Hs).
Qed.

(** ** The transforms of the 2 x 3 array *)

Lemma transform_pointwise_witness :
  Forall2 lt
    (source_index S_23 (mkSpace ["w"; "b"]%string [("w"%char, 3); ("b"%char, 2)]) [2; 1])
    (folded_shape S_23)
  /\ ravel (folded_shape (mkSpace ["w"; "b"]%string [("w"%char, 3); ("b"%char, 2)]))
       [2; 1]
     < List.length (nd_data (mkArray [3; 2] [1; 4; 2; 5; 3; 6]%Z))
  /\ nth_error (nd_data (mkArray [3; 2] [1; 4; 2; 5; 3; 6]%Z))
       (ravel (folded_shape (mkSpace ["w"; "b"]%string [("w"%char, 3); ("b"%char, 2)]))
          [2; 1])
     = nth_error (nd_data X_23)
         (ravel (folded_shape S_23)
            (source_index S_23
               (mkSpace ["w"; "b"]%string [("w"%char, 3); ("b"%char, 2)]) [2; 1])).
Proof.
  apply (@transform_pointwise in_order in_order_perm Z S_23
           (mkSpace ["w"; "b"]%string [("w"%char, 3); ("b"%char, 2)])
           X_23 (mkArray [3; 2] [1; 4; 2; 5; 3; 6]%Z) ["w"; "b"]%string [2; 1]).
  - exact S_23_wf.
  - reflexivity.
  - reflexivity.
  - unfold folded_shape. simpl. constructor; [lia|]. constructor; [lia|]. constructor.
Defined.

Lemma transform_rearranges_witness :
  wf (mkSpace ["w"; "b"]%string [("w"%char, 3); ("b"%char, 2)])
  /\ axes (mkSpace ["w"; "b"]%string [("w"%char, 3); ("b"%char, 2)])
     = ["w"; "b"]%string
  /\ nd_shape (mkArray [3; 2] [1; 4; 2; 5; 3; 6]%Z)
     = shape (mkSpace ["w"; "b"]%string [("w"%char, 3); ("b"%char, 2)])
  /\ nd_wf (mkArray [3; 2] [1; 4; 2; 5; 3; 6]%Z)
  /\ Permutation (nd_data (mkArray [3; 2] [1; 4; 2; 5; 3; 6]%Z)) (nd_data X_23).
Proof.
  apply (@transform_rearranges in_order in_order_perm Z S_23
           (mkSpace ["w"; "b"]%string [("w"%char, 3); ("b"%char, 2)])
           X_23 (mkArray [3; 2] [1; 4; 2; 5; 3; 6]%Z) ["w"; "b"]%string).
  - exact S_23_wf.
  - reflexivity.
  - reflexivity.
Defined.

Lemma transform_outcome_witness :
  transform in_order S_23 X_23 ["b"; "w"; "w"]%string = Raise ValueError.
Proof.
  apply (proj2 (@transform_outcome in_order in_order_perm Z S_23 X_23
                  ["b"; "w"; "w"]%string S_23_wf)).
  - intros x [<-|[<-|[]]]; simpl; auto.
  - intros [Hnd _]. apply NoDup_cons_iff in Hnd. destruct Hnd as [_ Hnd].
    apply NoDup_cons_iff in Hnd. destruct Hnd as [Hin _]. apply Hin. now left.
Defined.

Lemma transform_regroup_witness :
  transform in_order S_23 X_23 ["bw"%string]
  = Ok (mkArray (shape (mkSpace ["bw"%string] (_extent S_23))) (nd_data X_23),
        mkSpace ["bw"%string] (_extent S_23)).
Proof.
  apply (@transform_regroup in_order in_order_perm Z S_23 X_23 ["bw"%string]).
  - exact S_23_wf.
  - reflexivity.
  - reflexivity.
  - reflexivity.
Defined.

Lemma transform_compose_witness :
  transform in_order S_23 X_23 ["f"; "bw"]%string
  = Ok (mkArray [1; 6] [1; 2; 3; 4; 5; 6]%Z,
        mkSpace ["f"; "bw"]%string [("f"%char, 1); ("b"%char, 2); ("w"%char, 3)]).
Proof.
  apply (@transform_compose in_order in_order_perm Z S_23
           (mkSpace ["w"; "b"]%string [("w"%char, 3); ("b"%char, 2)])
           (mkSpace ["f"; "bw"]%string [("f"%char, 1); ("b"%char, 2); ("w"%char, 3)])
           X_23 (mkArray [3; 2] [1; 4; 2; 5; 3; 6]%Z)
           (mkArray [1; 6] [1; 2; 3; 4; 5; 6]%Z)
           ["w"; "b"]%string ["f"; "bw"]%string).
  - exact S_23_wf.
  - reflexivity.
  - reflexivity.
  - reflexivity.
Defined.

Lemma rev_perm (l : list label) : Permutation (rev l) l.
Proof. apply Permutation_sym, Permutation_rev. Qed.

Lemma transform_set_order_witness :
  transform in_order S_23 X_23 ["f"; "w"; "g"; "b"]%string
  = transform (@rev label) S_23 X_23 ["f"; "w"; "g"; "b"]%string.
Proof.
  apply (@transform_set_order Z in_order (@rev label) S_23 X_23
           ["f"; "w"; "g"; "b"]%string).
  - exact in_order_perm.
  - exact rev_perm.
  - exact S_23_wf.
  - reflexivity.
Defined.

(** ** Broadcasting along several axes *)

Lemma Forall2_lt_nth_iff (idx sh : list nat) :
  Forall2 lt idx sh
  <-> List.length idx = List.length sh
      /\ forall i, i < List.length sh -> nth i idx 0 < nth i sh 0.
Proof.
  split.
  - intros H. split; [exact (Forall2_length H)|].
    intros i Hi. now apply Forall2_lt_nth.
  - revert sh. induction idx as [|x idx IH]; intros [|d sh]; simpl;
      intros [Hl H]; try discriminate; constructor.
    + apply (H 0). lia.
    + apply IH. split; [lia|]. intros i Hi. apply (H (S i)). lia.
Qed.

Lemma nth_replace_at (l : list nat) (k x i : nat) :
  k < List.length l ->
  nth i (firstn k l ++ x :: skipn (S k) l) 0 = (if i =? k then x else nth i l 0)
  /\ List.length (firstn k l ++ x :: skipn (S k) l) = List.length l.
Proof.
  revert k i. induction l as [|y l IH]; intros k i Hk; [simpl in Hk; lia|].
  destruct k as [|k].
  - destruct i; simpl; auto.
  - simpl in Hk. destruct (IH k (pred i) ltac:(lia)) as [H1 H2].
    change (firstn (S k) (y :: l) ++ x :: skipn (S (S k)) (y :: l))
      with (y :: (firstn k l ++ x :: skipn (S k) l)).
    split; [|cbn [List.length]; now rewrite H2].
    destruct i as [|i]; [reflexivity|]. exact H1.
Qed.

Lemma length_wrapped (sh idx : list nat) :
  List.length idx = List.length sh -> List.length (wrapped sh idx) = List.length sh.
Proof.
  intros H. unfold wrapped. rewrite length_map, length_combine. lia.
Qed.

Lemma nth_wrapped (sh idx : list nat) (i : nat) :
  List.length idx = List.length sh -> i < List.length sh ->
  nth i (wrapped sh idx) 0 = nth i idx 0 mod nth i sh 0.
Proof.
  intros H Hi. unfold wrapped.
  rewrite (nth_map_lt _ _ (0, 0)) by (rewrite length_combine; lia).
  now rewrite combine_nth.
Qed.

Lemma wrapped_valid (sh idx : list nat) :
  Forall2 lt idx sh -> wrapped sh idx = idx.
Proof.
  intros H. apply Forall2_lt_nth_iff in H. destruct H as [Hl H].
  apply (nth_ext _ _ 0 0).
  - rewrite length_wrapped; auto.
  - intros i Hi. rewrite length_wrapped in Hi by assumption.
    rewrite nth_wrapped by assumption. apply Nat.mod_small. auto.
Qed.

Lemma mod_mod_multiple (x m s : nat) : (x mod (m * s)) mod s = x mod s.
Proof.
  rewrite (Nat.mul_comm m s), Nat.Div0.mod_mul_r.
  rewrite (Nat.mul_comm s), Nat.Div0.mod_add. apply Nat.Div0.mod_mod.
Qed.

Lemma length_wrap_axis (k d : nat) (idx : list nat) :
  k < List.length idx -> List.length (wrap_axis k d idx) = List.length idx.
Proof.
  intros Hk. unfold wrap_axis. now apply nth_replace_at.
Qed.

Lemma nth_wrap_axis (k d i : nat) (idx : list nat) :
  k < List.length idx ->
  nth i (wrap_axis k d idx) 0 = if i =? k then nth k idx 0 mod d else nth i idx 0.
Proof.
  intros Hk. unfold wrap_axis. now apply nth_replace_at.
Qed.

Lemma replicated_rank {T} (X : ndarray T) (t k : nat) :
  k < List.length (nd_shape X) ->
  List.length (nd_shape (replicated X t k)) = List.length (nd_shape X).
Proof.
  intros Hk. unfold replicated. cbn [nd_shape]. now apply nth_replace_at.
Qed.

Lemma nth_replicated_shape {T} (X : ndarray T) (t k i : nat) :
  k < List.length (nd_shape X) ->
  nth i (nd_shape (replicated X t k)) 0
  = if i =? k then t * nth k (nd_shape X) 0 else nth i (nd_shape X) 0.
Proof.
  intros Hk. unfold replicated. cbn [nd_shape]. now apply nth_replace_at.
Qed.

Lemma replicated_wf {T} (X : ndarray T) (t k : nat) :
  nd_wf X -> k < List.length (nd_shape X) -> nd_wf (replicated X t k).
Proof.
  unfold nd_wf. intros HD Hk.
  fold (nd_size (replicated X t k)). rewrite replicated_size by assumption.
  unfold nd_size, replicated. cbn [nd_data].
  assert (Hprod : np_prod (nd_shape X)
                  = np_prod (firstn k (nd_shape X)) * np_prod (skipn k (nd_shape X))).
  { rewrite <- np_prod_app. now rewrite firstn_skipn. }
  rewrite (length_flat_map_seq _ (L := t * np_prod (skipn k (nd_shape X)))).
  - rewrite Hprod. lia.
  - intros i Hi. rewrite length_flat_map_repeat. f_equal.
    apply block_spec. rewrite HD, Hprod. nia.
Qed.

Lemma tiles_refl {T} (X : ndarray T) : nd_wf X -> tiles (nd_shape X) (nd_data X) X.
Proof.
  intros H. split; [exact H|]. split; [reflexivity|]. split.
  - intros i Hi. exists 1. lia.
  - intros idx Hidx. now rewrite wrapped_valid.
Qed.

Lemma tiles_replicated {T} (sh : list nat) (d : list T) (Xc : ndarray T) (t k : nat) :
  tiles sh d Xc -> k < List.length sh -> tiles sh d (replicated Xc t k).
Proof.
  intros (Hwf & Hrank & Hmul & Hnth) Hk.
  assert (Hk' : k < List.length (nd_shape Xc)) by lia.
  split; [now apply replicated_wf|].
  split; [now rewrite replicated_rank|]. split.
  - intros i Hi. rewrite nth_replicated_shape by assumption.
    destruct (Hmul i Hi) as [m Hm].
    destruct (Nat.eqb_spec i k) as [->|_].
    + exists (t * m). rewrite Hm. lia.
    + exists m. exact Hm.
  - intros idx Hidx. rewrite replicated_nth by assumption.
    apply Forall2_lt_nth_iff in Hidx. destruct Hidx as [Hl Hb].
    rewrite replicated_rank in Hl, Hb by assumption.
    assert (Hval : Forall2 lt (wrap_axis k (nth k (nd_shape Xc) 0) idx) (nd_shape Xc)).
    { apply Forall2_lt_nth_iff. split; [rewrite length_wrap_axis; lia|].
      intros i Hi. rewrite nth_wrap_axis by lia. specialize (Hb i Hi).
      rewrite nth_replicated_shape in Hb by assumption.
      destruct (Nat.eqb_spec i k) as [Eik|_]; [subst i|exact Hb].
      apply Nat.mod_upper_bound. intros E. rewrite E in Hb. lia. }
    rewrite (Hnth _ Hval). f_equal. f_equal.
    assert (Hlw : List.length (wrap_axis k (nth k (nd_shape Xc) 0) idx)
                  = List.length sh) by (rewrite length_wrap_axis; lia).
    apply (nth_ext _ _ 0 0).
    + rewrite !length_wrapped; auto; lia.
    + intros i Hi. rewrite length_wrapped in Hi by assumption.
      rewrite !nth_wrapped by (auto; lia).
      rewrite nth_wrap_axis by lia.
      destruct (Nat.eqb_spec i k) as [->|_]; [|reflexivity].
      destruct (Hmul k Hk) as [m ->]. apply mod_mod_multiple.
Qed.

Lemma tiles_replicate_all {T} (A : list label) (sh : list nat) (d : list T)
  (replicas : odict nat) (Xc : ndarray T) :
  List.length A = List.length sh -> Forall (replica_ok A) replicas ->
  tiles sh d Xc -> tiles sh d (replicate_all A replicas Xc).
Proof.
  intros HA H. revert Xc.
  induction H as [|[a t] replicas [Ha Ht] H IH]; intros Xc Hc; [exact Hc|].
  apply IH. apply tiles_replicated; [exact Hc|]. rewrite <- HA.
  now apply (@nth_error_position label Ascii.eqb Ascii.eqb_eq).
Qed.

Lemma tiles_wrapped_valid {T} (sh : list nat) (d : list T) (Xc : ndarray T)
  (idx : list nat) :
  tiles sh d Xc -> Forall2 lt idx (nd_shape Xc) -> Forall2 lt (wrapped sh idx) sh.
Proof.
  intros (_ & Hrank & Hmul & _) Hidx.
  apply Forall2_lt_nth_iff in Hidx. destruct Hidx as [Hl Hb].
  apply Forall2_lt_nth_iff. split; [apply length_wrapped; lia|].
  intros i Hi. rewrite nth_wrapped by lia.
  apply Nat.mod_upper_bound. intros E.
  destruct (Hmul i Hi) as [m Hm]. specialize (Hb i ltac:(lia)).
  rewrite Hm, E in Hb. lia.
Qed.

(* the loop of broadcast: what it returns, and when it fails *)
Lemma broadcast_loop_spec {T} (A : list label) (replicas : odict nat) (X : ndarray T) :
  List.length (nd_shape X) = List.length A ->
  match foldM (fun X (r : label * nat) =>
                 let (ax, times) := r in
                 k <- index ax A ;; np_concatenate (repeat X times) k)
              replicas X with
  | Ok X' => Forall (replica_ok A) replicas /\ X' = replicate_all A replicas X
  | Raise e => e = ValueError /\ ~ Forall (replica_ok A) replicas
  end.
Proof.
  revert X. induction replicas as [|[ax t] replicas IH]; intros X Hrank.
  - simpl. split; [constructor | reflexivity].
  - cbn [foldM]. destruct (index ax A) as [k|e] eqn:Hi.
    + destruct (index_ok _ _ Hi) as [Hin ->]. cbn [bind].
      rewrite np_concatenate_repeat.
      destruct (@nth_error_position label Ascii.eqb Ascii.eqb_eq ax A Hin) as [Hlt _].
      rewrite <- Hrank in Hlt.
      destruct (_ <? _) eqn:E;
        [|apply Nat.ltb_ge in E; exfalso; unfold label in *; lia].
      rewrite andb_true_r.
      destruct (Nat.leb_spec 1 t) as [Ht|Ht]; cbn [bind].
      * specialize (IH (replicated X t (position Ascii.eqb ax A))).
        rewrite replicated_rank in IH by exact Hlt. specialize (IH Hrank).
        destruct (foldM _ replicas _) as [X'|e]; destruct IH as [IH1 IH2].
        -- split; [|exact IH2]. constructor; [split; assumption | exact IH1].
        -- split; [exact IH1|]. intros HF. apply IH2. now apply Forall_inv_tail in HF.
      * split; [reflexivity|]. intros HF. apply Forall_inv in HF.
        destruct HF as [_ HF]. simpl in HF. lia.
    + cbn [bind]. split; [exact (index_raise _ _ Hi)|].
      intros HF. apply Forall_inv in HF. destruct HF as [HF _]. simpl in HF.
      rewrite (index_position _ _ HF) in Hi. discriminate.
Qed.

Lemma map_position_nth (A : list label) (sh : list nat) :
  NoDup A -> List.length sh = List.length A ->
  map (fun a => nth (position Ascii.eqb a A) sh 0) A = sh.
Proof.
  intros HA Hl. rewrite <- (map_map (fun a => position Ascii.eqb a A)
                              (fun k => nth k sh 0)).
  rewrite (position_self HA), <- Hl. apply map_nth_seq.
Qed.

Lemma replicate_all_shape {T} (A : list label) (replicas : odict nat) (X : ndarray T) :
  NoDup A -> List.length (nd_shape X) = List.length A ->
  NoDup (od_keys replicas) -> Forall (replica_ok A) replicas ->
  nd_shape (replicate_all A replicas X)
  = map (fun a => nth (position Ascii.eqb a A) (nd_shape X) 0 * od_get replicas a 1) A.
Proof.
  intros HA Hrank Hk H. revert X Hrank Hk.
  induction H as [|[a t] replicas [Ha Ht] H IH]; intros X Hrank Hk.
  - simpl. rewrite <- (@map_position_nth A (nd_shape X) HA Hrank) at 1.
    apply map_ext. intros a. lia.
  - simpl in Ha. unfold od_keys in Hk. simpl in Hk.
    apply NoDup_cons_iff in Hk. destruct Hk as [Hnk Hk].
    destruct (@nth_error_position label Ascii.eqb Ascii.eqb_eq a A Ha) as [Hlt Hnth].
    rewrite <- Hrank in Hlt.
    change (replicate_all A ((a, t) :: replicas) X)
      with (replicate_all A replicas (replicated X t (position Ascii.eqb a A))).
    rewrite IH by (rewrite ?replicated_rank; auto).
    apply map_ext_in. intros b Hb.
    rewrite nth_replicated_shape by exact Hlt. cbn [od_get].
    destruct (Ascii.eqb_spec b a) as [->|Hne].
    + rewrite Nat.eqb_refl, od_get_not_key by exact Hnk. lia.
    + destruct (Nat.eqb_spec (position Ascii.eqb b A) (position Ascii.eqb a A))
        as [E|_]; [|reflexivity].
      destruct (@nth_error_position label Ascii.eqb Ascii.eqb_eq b A Hb) as [_ Hnb].
      unfold label in *. rewrite E in Hnb. congruence.
Qed.

Lemma scaled_folded_shape_all (S : Space) (replicas : odict nat) :
  wf S ->
  folded_shape (scaled S replicas)
  = map (fun a => nth (position Ascii.eqb a (folded_axes S)) (folded_shape S) 0
                  * od_get replicas a 1)
        (folded_axes S).
Proof.
  intros Hwf. unfold folded_shape at 1, scaled, od_values. simpl.
  rewrite map_map. simpl. apply map_ext_in. intros a Ha. f_equal.
  rewrite (folded_shape_values Hwf).
  destruct (@nth_error_position label Ascii.eqb Ascii.eqb_eq a _ Ha) as [Hlt _].
  rewrite (nth_map_lt _ _ a) by exact Hlt. now rewrite nth_position.
Qed.

(* what broadcast returns when every replica count is acceptable *)
Lemma broadcast_ok_all {T} (S : Space) (X : ndarray T) (replicas : odict nat) :
  wf S -> nd_size X = size S -> NoDup (od_keys replicas) ->
  Forall (replica_ok (folded_axes S)) replicas ->
  nd_shape (replicate_all (folded_axes S) replicas
              (mkArray (folded_shape S) (nd_data X)))
  = folded_shape (scaled S replicas)
  /\ broadcast S X replicas
     = Ok (mkArray (shape (scaled S replicas))
             (nd_data (replicate_all (folded_axes S) replicas
                         (mkArray (folded_shape S) (nd_data X)))),
           scaled S replicas).
Proof.
  intros Hwf Hsize Hk HF. pose proof Hwf as [Hkeys Hnd].
  assert (Hshape : nd_shape (replicate_all (folded_axes S) replicas
                               (mkArray (folded_shape S) (nd_data X)))
                   = folded_shape (scaled S replicas)).
  { rewrite replicate_all_shape; auto.
    - cbn [nd_shape]. symmetry. now apply scaled_folded_shape_all.
    - cbn [nd_shape]. now apply length_folded_shape. }
  split; [exact Hshape|].
  unfold broadcast. fold (folded_axes S).
  rewrite mapM_lookup by (rewrite Hkeys; apply incl_refl). cbn [bind].
  rewrite od_of_pairs_NoDup by (rewrite map_map; simpl; now rewrite map_id).
  fold (scaled S replicas).
  unfold _fold, np_reshape at 1.
  change (np_prod (folded_shape S)) with (size S).
  rewrite Hsize, Nat.eqb_refl. cbn [bind].
  pose proof (@broadcast_loop_spec T (folded_axes S) replicas
                (mkArray (folded_shape S) (nd_data X))
                (length_folded_shape Hwf)) as Hloop.
  destruct (foldM _ replicas _) as [X2|e].
  - destruct Hloop as [_ ->]. cbn [bind]. unfold nd_size at 1. rewrite Hshape.
    change (np_prod (folded_shape (scaled S replicas)))
      with (size (scaled S replicas)).
    rewrite Nat.eqb_refl.
    unfold _unfold, np_reshape, nd_size. rewrite Hshape.
    rewrite (np_prod_shape (scaled_wf replicas Hwf)).
    change (np_prod (folded_shape (scaled S replicas)))
      with (size (scaled S replicas)).
    rewrite Nat.eqb_refl. reflexivity.
  - destruct Hloop as [_ Hno]. contradiction.
Qed.

(* what a successful broadcast tells about its arguments *)
Lemma broadcast_inv {T} (S S' : Space) (X X' : ndarray T) (replicas : odict nat) :
  wf S -> broadcast S X replicas = Ok (X', S') ->
  nd_size X = size S /\ Forall (replica_ok (folded_axes S)) replicas.
Proof.
  intros Hwf H. unfold broadcast in H.
  destruct (mapM _ _) as [new_extent|e]; cbn [bind] in H; [|discriminate].
  unfold _fold, np_reshape at 1 in H.
  destruct (Nat.eqb_spec (np_prod (folded_shape S)) (nd_size X)) as [E|E];
    cbn [bind] in H; [|discriminate].
  pose proof (@broadcast_loop_spec T (folded_axes S) replicas
                (mkArray (folded_shape S) (nd_data X))
                (length_folded_shape Hwf)) as Hloop.
  destruct (foldM _ replicas _) as [X2|e]; cbn [bind] in H; [|discriminate].
  split; [symmetry; exact E | apply Hloop].
Qed.

Lemma broadcast_raises {T} (S : Space) (X : ndarray T) (replicas : odict nat)
  (e : exn) :
  wf S -> NoDup (od_keys replicas) ->
  broadcast S X replicas = Raise e -> e = ValueError.
Proof.
  intros Hwf Hk H. pose proof H as H0. pose proof Hwf as [Hkeys Hnd].
  unfold broadcast in H. fold (folded_axes S) in H.
  rewrite mapM_lookup in H by (rewrite Hkeys; apply incl_refl). cbn [bind] in H.
  unfold _fold, np_reshape at 1 in H.
  destruct (Nat.eqb_spec (np_prod (folded_shape S)) (nd_size X)) as [E|E];
    cbn [bind] in H; [|congruence].
  pose proof (@broadcast_loop_spec T (folded_axes S) replicas
                (mkArray (folded_shape S) (nd_data X))
                (length_folded_shape Hwf)) as Hloop.
  destruct (foldM _ replicas _) as [X2|e2]; cbn [bind] in H.
  - destruct Hloop as [HF _].
    destruct (@broadcast_ok_all _ _ X _ Hwf (eq_sym E) Hk HF) as [_ Hok].
    rewrite Hok in H0. discriminate.
  - destruct Hloop as [-> _]. congruence.
Qed.

Lemma od_get_Permutation {V} (d d' : odict V) (k : label) (dflt : V) :
  Permutation d d' -> NoDup (od_keys d) -> od_get d k dflt = od_get d' k dflt.
Proof.
  unfold od_keys.
  induction 1 as [|[a v] d d' H IH|[a v] [b w] d|d1 d2 d3 H1 IH1 H2 IH2];
    simpl; intros Hnd.
  - reflexivity.
  - apply NoDup_cons_iff in Hnd. destruct (Ascii.eqb k a); [reflexivity|].
    now apply IH.
  - apply NoDup_cons_iff in Hnd. destruct Hnd as [Hb _]. simpl in Hb.
    destruct (Ascii.eqb_spec k b) as [E1|_], (Ascii.eqb_spec k a) as [E2|_];
      try reflexivity.
    exfalso. apply Hb. left. congruence.
  - rewrite IH1 by assumption. apply IH2.
    apply (Permutation_NoDup (Permutation_map fst H1) Hnd).
Qed.

Lemma scaled_Permutation (S : Space) (replicas replicas' : odict nat) :
  Permutation replicas replicas' -> NoDup (od_keys replicas) ->
  scaled S replicas = scaled S replicas'.
Proof.
  intros HP Hk. unfold scaled. f_equal. apply map_ext. intros a.
  now rewrite (od_get_Permutation a 1 HP Hk).
Qed.

(* the order of the replica counts does not matter to the loop *)
Lemma replicate_all_order {T} (A : list label) (replicas replicas' : odict nat)
  (X : ndarray T) :
  nd_wf X -> NoDup A -> List.length (nd_shape X) = List.length A ->
  Permutation replicas replicas' -> NoDup (od_keys replicas) ->
  Forall (replica_ok A) replicas ->
  replicate_all A replicas X = replicate_all A replicas' X.
Proof.
  intros HX HA Hrank HP Hk HF.
  assert (Hk' : NoDup (od_keys replicas'))
    by (apply (Permutation_NoDup (Permutation_map fst HP) Hk)).
  assert (HF' : Forall (replica_ok A) replicas')
    by (apply (Permutation_Forall HP HF)).
  pose proof (tiles_replicate_all (eq_sym Hrank) HF (tiles_refl HX)) as T1.
  pose proof (tiles_replicate_all (eq_sym Hrank) HF' (tiles_refl HX)) as T2.
  assert (Hsh : nd_shape (replicate_all A replicas X)
                = nd_shape (replicate_all A replicas' X)).
  { rewrite !replicate_all_shape by assumption. apply map_ext. intros a.
    now rewrite (od_get_Permutation a 1 HP Hk). }
  destruct T1 as (W1 & _ & _ & N1), T2 as (W2 & _ & _ & N2).
  destruct (replicate_all A replicas X) as [sh1 d1],
           (replicate_all A replicas' X) as [sh2 d2].
  cbn [nd_shape nd_data] in *. subst sh2. f_equal.
  unfold nd_wf in W1, W2. cbn [nd_shape nd_data] in W1, W2.
  apply nth_error_ext. intros n.
  destruct (Nat.lt_ge_cases n (np_prod sh1)) as [Hn|Hn].
  - rewrite <- (ravel_unravel sh1 Hn).
    rewrite N1, N2 by now apply unravel_bounds. reflexivity.
  - rewrite (proj2 (nth_error_None _ _)), (proj2 (nth_error_None _ _));
      [reflexivity | lia | lia].
Qed.

(** With keyword arguments whose labels are distinct, as those of a
    dictionary are, [broadcast] on a well-formed space succeeds exactly when
    the array has as many elements as the space, every label named is a leaf
    label of the space and every replica count is at least 1; every failure
    is a ValueError (the size assertion of broadcast never fires), and a
    success returns a well-formed space with every extent multiplied by its
    replica count and an array of the shape of that space. *)
Theorem broadcast_outcome {T} (S : Space) (X : ndarray T) (replicas : odict nat) :
  wf S -> NoDup (od_keys replicas) ->
  (is_ok (broadcast S X replicas)
   <-> nd_size X = size S /\ Forall (replica_ok (folded_axes S)) replicas)
  /\ (forall e, broadcast S X replicas = Raise e -> e = ValueError)
  /\ (forall X' S', broadcast S X replicas = Ok (X', S') ->
        S' = scaled S replicas /\ wf S' /\ nd_shape X' = shape S').
Proof.
  intros Hwf Hk. split; [split|split].
  - intros Hok.
    destruct (broadcast S X replicas) as [[X' S']|e] eqn:H; [|contradiction].
    exact (@broadcast_inv _ _ _ _ _ _ Hwf H).
  - intros [Hsize HF].
    destruct (@broadcast_ok_all _ _ X _ Hwf Hsize Hk HF) as [_ ->]. exact I.
  - intros e H. exact (@broadcast_raises _ _ _ _ _ Hwf Hk H).
  - intros X' S' H. destruct (@broadcast_inv _ _ _ _ _ _ Hwf H) as [Hsize HF].
    destruct (@broadcast_ok_all _ _ X _ Hwf Hsize Hk HF) as [_ Hok].
    rewrite Hok in H. injection H as <- <-.
    split; [reflexivity|]. split; [now apply scaled_wf | reflexivity].
Qed.

(* the element of a broadcast array at a multi-index *)
Lemma broadcast_nth {T} (S S' : Space) (X X' : ndarray T)
  (replicas : odict nat) (idx : list nat) :
  wf S -> nd_wf X -> NoDup (od_keys replicas) ->
  broadcast S X replicas = Ok (X', S') ->
  Forall2 lt idx (folded_shape S') ->
  Forall2 lt (wrapped (folded_shape S) idx) (folded_shape S)
  /\ nth_error (nd_data X') (ravel (folded_shape S') idx)
     = nth_error (nd_data X)
         (ravel (folded_shape S) (wrapped (folded_shape S) idx)).
Proof.
  intros Hwf HX Hk H Hidx. destruct (@broadcast_inv _ _ _ _ _ _ Hwf H) as [Hsize HF].
  destruct (@broadcast_ok_all _ _ X _ Hwf Hsize Hk HF) as [Hshape Hok].
  rewrite Hok in H. injection H as <- <-. cbn [nd_data].
  assert (HX1 : nd_wf (mkArray (folded_shape S) (nd_data X))).
  { unfold nd_wf in *. cbn [nd_shape nd_data].
    change (np_prod (folded_shape S)) with (size S). now rewrite <- Hsize. }
  pose proof (tiles_replicate_all (eq_sym (length_folded_shape Hwf)) HF
                (tiles_refl HX1)) as Ht.
  cbn [nd_shape nd_data] in Ht. rewrite <- Hshape in Hidx |- *. split.
  - exact (tiles_wrapped_valid Ht Hidx).
  - destruct Ht as (_ & _ & _ & Hn). now apply Hn.
Qed.

(** The array [broadcast] returns repeats the argument along every axis: its
    element at a multi-index over the leaf axes is the element of the
    argument at that multi-index with every index taken modulo the extent of
    its axis in the space. *)
Theorem broadcast_pointwise {T} (S S' : Space) (X X' : ndarray T)
  (replicas : odict nat) (idx : list nat) :
  wf S -> nd_wf X -> NoDup (od_keys replicas) ->
  broadcast S X replicas = Ok (X', S') ->
  Forall2 lt idx (folded_shape S') ->
  Forall2 lt (wrapped (folded_shape S) idx) (folded_shape S)
  /\ nth_error (nd_data X') (ravel (folded_shape S') idx)
     = nth_error (nd_data X)
         (ravel (folded_shape S) (wrapped (folded_shape S) idx)).
Proof. exact (@broadcast_nth T S S' X X' replicas idx). Qed.

(** The result of [broadcast] does not depend on the order in which the
    keyword dictionary is iterated: two orders of the same replica counts
    give the same array and space, or both fail. *)
Theorem broadcast_order {T} (S : Space) (X : ndarray T)
  (replicas replicas' : odict nat) :
  wf S -> nd_wf X -> NoDup (od_keys replicas) ->
  Permutation replicas replicas' ->
  broadcast S X replicas = broadcast S X replicas'.
Proof.
  intros Hwf HX Hk HP. pose proof Hwf as [Hkeys Hnd].
  assert (Hk' : NoDup (od_keys replicas'))
    by (apply (Permutation_NoDup (Permutation_map fst HP) Hk)).
  destruct (broadcast S X replicas) as [[X1 S1]|e] eqn:H1.
  - destruct (@broadcast_inv _ _ _ _ _ _ Hwf H1) as [Hsize HF].
    assert (HF' : Forall (replica_ok (folded_axes S)) replicas')
      by (apply (Permutation_Forall HP HF)).
    destruct (@broadcast_ok_all _ _ X _ Hwf Hsize Hk HF) as [_ Hok].
    destruct (@broadcast_ok_all _ _ X _ Hwf Hsize Hk' HF') as [_ Hok'].
    rewrite Hok in H1. rewrite <- H1, Hok'.
    rewrite (scaled_Permutation S HP Hk).
    rewrite (@replicate_all_order T (folded_axes S) replicas replicas'
               (mkArray (folded_shape S) (nd_data X))); auto.
    + unfold nd_wf in *. cbn [nd_shape nd_data].
      change (np_prod (folded_shape S)) with (size S). now rewrite <- Hsize.
    + cbn [nd_shape]. now apply length_folded_shape.
  - rewrite (@broadcast_raises _ _ _ _ _ Hwf Hk H1).
    destruct (broadcast S X replicas') as [[X2 S2]|e'] eqn:H2.
    + destruct (@broadcast_inv _ _ _ _ _ _ Hwf H2) as [Hsize HF'].
      assert (HF : Forall (replica_ok (folded_axes S)) replicas)
        by (apply (Permutation_Forall (Permutation_sym HP) HF')).
      destruct (@broadcast_ok_all _ _ X _ Hwf Hsize Hk HF) as [_ Hok].
      rewrite Hok in H1. discriminate.
    + now rewrite (@broadcast_raises _ _ _ _ _ Hwf Hk' H2).
Qed.

(** ** The broadcasts of the 2 x 3 array *)

Lemma broadcast_outcome_witness :
  (is_ok (broadcast S_23 X_23 [("w"%char, 2); ("b"%char, 2)])
   <-> nd_size X_23 = size S_23
       /\ Forall (replica_ok (folded_axes S_23)) [("w"%char, 2); ("b"%char, 2)])
  /\ (forall e, broadcast S_23 X_23 [("w"%char, 2); ("b"%char, 2)] = Raise e ->
        e = ValueError)
  /\ (forall X' S',
        broadcast S_23 X_23 [("w"%char, 2); ("b"%char, 2)] = Ok (X', S') ->
        S' = scaled S_23 [("w"%char, 2); ("b"%char, 2)]
        /\ wf S' /\ nd_shape X' = shape S').
Proof.
  apply (@broadcast_outcome Z S_23 X_23 [("w"%char, 2); ("b"%char, 2)]).
  - exact S_23_wf.
  - repeat constructor; simpl; intuition discriminate.
Defined.

Lemma broadcast_pointwise_witness :
  Forall2 lt (wrapped (folded_shape S_23) [3; 4]) (folded_shape S_23)
  /\ nth_error
       (nd_data (mkArray [4; 6]
                   [1; 2; 3; 1; 2; 3; 4; 5; 6; 4; 5; 6;
                    1; 2; 3; 1; 2; 3; 4; 5; 6; 4; 5; 6]%Z))
       (ravel (folded_shape (mkSpace ["b"; "w"]%string [("b"%char, 4); ("w"%char, 6)]))
          [3; 4])
     = nth_error (nd_data X_23)
         (ravel (folded_shape S_23) (wrapped (folded_shape S_23) [3; 4])).
Proof.
  apply (@broadcast_pointwise Z S_23
           (mkSpace ["b"; "w"]%string [("b"%char, 4); ("w"%char, 6)])
           X_23
           (mkArray [4; 6]
              [1; 2; 3; 1; 2; 3; 4; 5; 6; 4; 5; 6;
               1; 2; 3; 1; 2; 3; 4; 5; 6; 4; 5; 6]%Z)
           [("w"%char, 2); ("b"%char, 2)] [3; 4]).
  - exact S_23_wf.
  - reflexivity.
  - repeat constructor; simpl; intuition discriminate.
  - reflexivity.
  - unfold folded_shape. simpl. constructor; [lia|]. constructor; [lia|]. constructor.
Defined.

Lemma broadcast_order_witness :
  broadcast S_23 X_23 [("w"%char, 2); ("b"%char, 2)]
  = broadcast S_23 X_23 [("b"%char, 2); ("w"%char, 2)].
Proof.
  apply (@broadcast_order Z S_23 X_23 [("w"%char, 2); ("b"%char, 2)]
           [("b"%char, 2); ("w"%char, 2)]).
  - exact S_23_wf.
  - reflexivity.
  - repeat constructor; simpl; intuition discriminate.
  - apply perm_swap.
Defined.

(** ** set_extent on every store *)

Lemma od_get_od_set {V} (d : odict V) (k k' : label) (v dflt : V) :
  od_get (od_set d k v) k' dflt = if Ascii.eqb k' k then v else od_get d k' dflt.
Proof.
  induction d as [|[a w] d IH]; simpl; [reflexivity|].
  destruct (Ascii.eqb_spec k a) as [E|E]; simpl.
  - subst a. destruct (Ascii.eqb k' k); reflexivity.
  - rewrite IH.
    destruct (Ascii.eqb_spec k' a) as [E1|E1], (Ascii.eqb_spec k' k) as [E2|E2];
      try reflexivity.
    congruence.
Qed.

Lemma od_keys_od_set_key {V} (d : odict V) (k : label) (v : V) :
  In k (od_keys d) -> od_keys (od_set d k v) = od_keys d.
Proof.
  unfold od_keys. induction d as [|[a w] d IH]; simpl; [tauto|]. intros H.
  destruct (Ascii.eqb_spec k a) as [E|E]; simpl; [reflexivity|].
  f_equal. apply IH. destruct H as [H|H]; [congruence | exact H].
Qed.

Lemma od_get_fold_set (extents d : odict nat) (k : label) (dflt : nat) :
  NoDup (od_keys extents) ->
  od_get (fold_left (fun d e => od_set d (fst e) (snd e)) extents d) k dflt
  = od_get extents k (od_get d k dflt).
Proof.
  revert d. induction extents as [|[a v] extents IH]; simpl; intros d H;
    [reflexivity|].
  unfold od_keys in H. simpl in H. apply NoDup_cons_iff in H. destruct H as [Ha H].
  rewrite IH by exact H. rewrite od_get_od_set.
  destruct (Ascii.eqb_spec k a) as [E|_]; [|reflexivity].
  subst k. now apply od_get_not_key.
Qed.

Lemma od_keys_fold_set (extents d : odict nat) :
  incl (od_keys extents) (od_keys d) ->
  od_keys (fold_left (fun d e => od_set d (fst e) (snd e)) extents d) = od_keys d.
Proof.
  revert d. induction extents as [|[a v] extents IH]; simpl; intros d H;
    [reflexivity|].
  assert (Ha : In a (od_keys d)) by (apply H; now left).
  rewrite IH; [now apply od_keys_od_set_key|].
  rewrite od_keys_od_set_key by exact Ha. intros x Hx. apply H. now right.
Qed.

Lemma read_fold_setitem_same (st : Obj.store) (r : Obj.ref) (extents : odict nat) :
  r < List.length st ->
  Obj.read (fold_left (fun st (e : label * nat) => Obj.setitem st r (fst e) (snd e))
                      extents st) r
  = fold_left (fun d e => od_set d (fst e) (snd e)) extents (Obj.read st r).
Proof.
  revert st. induction extents as [|[k v] extents IH]; simpl; intros st Hr;
    [reflexivity|].
  rewrite IH by (rewrite length_setitem; exact Hr).
  now rewrite read_setitem_same.
Qed.

Lemma read_fold_setitem_other (st : Obj.store) (r r' : Obj.ref) (extents : odict nat) :
  r <> r' ->
  Obj.read (fold_left (fun st (e : label * nat) => Obj.setitem st r (fst e) (snd e))
                      extents st) r'
  = Obj.read st r'.
Proof.
  intros Hr. revert st. induction extents as [|[k v] extents IH]; simpl; intros st;
    [reflexivity|].
  rewrite IH. now apply read_setitem_other.
Qed.

Lemma length_fold_setitem (st : Obj.store) (r : Obj.ref) (extents : odict nat) :
  List.length (fold_left (fun st (e : label * nat) => Obj.setitem st r (fst e) (snd e))
                         extents st)
  = List.length st.
Proof.
  revert st. induction extents as [|[k v] extents IH]; simpl; intros st;
    [reflexivity|].
  rewrite IH. apply length_setitem.
Qed.

(** [set_extent] writes into the dictionary the space shares with its
    clone: after the call the space returned has the axes of the source and,
    for every label, the extent named in the call or else the one the source
    had; naming only labels the source has keeps the labels and their order;
    every Space object built on the same dictionary, the source among them,
    shows the new extents, and every Space object built on another
    dictionary is as it was. *)
Theorem set_extent_effect (st st' : Obj.store) (self space other : Obj.SpaceRef)
  (extents : odict nat) :
  Obj._extent self < List.length st -> NoDup (od_keys extents) ->
  Obj.set_extent st self extents = (space, st') ->
  axes (Obj.value st' space) = axes (Obj.value st self)
  /\ (forall k dflt,
        od_get (_extent (Obj.value st' space)) k dflt
        = od_get extents k (od_get (_extent (Obj.value st self)) k dflt))
  /\ (incl (od_keys extents) (od_keys (_extent (Obj.value st self))) ->
      od_keys (_extent (Obj.value st' space))
      = od_keys (_extent (Obj.value st self)))
  /\ (Obj._extent other = Obj._extent self ->
      _extent (Obj.value st' other) = _extent (Obj.value st' space))
  /\ (Obj._extent other <> Obj._extent self ->
      Obj.value st' other = Obj.value st other)
  /\ List.length st' = List.length st.
Proof.
  intros Hr Hk H. unfold Obj.set_extent, Obj.clone in H. cbn in H.
  injection H as <- <-. unfold Obj.value. cbn [axes _axes _extent Obj._axes Obj._extent].
  split; [reflexivity|]. split; [|split; [|split; [|split]]].
  - intros k dflt. rewrite read_fold_setitem_same by exact Hr.
    now apply od_get_fold_set.
  - intros Hincl. rewrite read_fold_setitem_same by exact Hr.
    now apply od_keys_fold_set.
  - intros ->. reflexivity.
  - intros Hne. f_equal. apply read_fold_setitem_other. congruence.
  - apply length_fold_setitem.
Qed.

Lemma set_extent_effect_witness :
  axes (Obj.value [[("b"%char, 7); ("w"%char, 10)]] ref_bw)
  = axes (Obj.value st_bw ref_bw)
  /\ (forall k dflt,
        od_get (_extent (Obj.value [[("b"%char, 7); ("w"%char, 10)]] ref_bw)) k dflt
        = od_get [("b"%char, 7)] k (od_get (_extent (Obj.value st_bw ref_bw)) k dflt))
  /\ (incl (od_keys [("b"%char, 7)]) (od_keys (_extent (Obj.value st_bw ref_bw))) ->
      od_keys (_extent (Obj.value [[("b"%char, 7); ("w"%char, 10)]] ref_bw))
      = od_keys (_extent (Obj.value st_bw ref_bw)))
  /\ (Obj._extent (Obj.mkRef ["bw"%string] 0) = Obj._extent ref_bw ->
      _extent (Obj.value [[("b"%char, 7); ("w"%char, 10)]] (Obj.mkRef ["bw"%string] 0))
      = _extent (Obj.value [[("b"%char, 7); ("w"%char, 10)]] ref_bw))
  /\ (Obj._extent (Obj.mkRef ["bw"%string] 0) <> Obj._extent ref_bw ->
      Obj.value [[("b"%char, 7); ("w"%char, 10)]] (Obj.mkRef ["bw"%string] 0)
      = Obj.value st_bw (Obj.mkRef ["bw"%string] 0))
  /\ List.length [[("b"%char, 7); ("w"%char, 10)]] = List.length st_bw.
Proof.
  apply (@set_extent_effect st_bw [[("b"%char, 7); ("w"%char, 10)]] ref_bw ref_bw
           (Obj.mkRef ["bw"%string] 0) [("b"%char, 7)]).
  - simpl. lia.
  - repeat constructor; simpl; intuition discriminate.
  - reflexivity.
Defined.

(** ** Rows, labels and lengths stay together *)

Lemma nth_error_combine {T U} (a : list T) (b : list U) (i : nat) :
  nth_error (combine a b) i
  = match nth_error a i, nth_error b i with
    | Some x, Some y => Some (x, y)
    | _, _ => None
    end.
Proof.
  revert b i. induction a as [|x a IH]; intros [|y b] [|i]; simpl; auto.
  destruct (nth_error a i); reflexivity.
Qed.

Lemma gather_combine {T U} (a : list T) (b : list U) (p : list nat) :
  List.length a = List.length b ->
  gather (combine a b) p = combine (gather a p) (gather b p).
Proof.
  intros Hl. induction p as [|i p IH]; simpl; [reflexivity|].
  rewrite nth_error_combine.
  destruct (nth_error a i) as [x|] eqn:Ea, (nth_error b i) as [y|] eqn:Eb;
    simpl; rewrite ?IH; try reflexivity.
  - apply nth_error_None in Eb.
    assert (Hi : i < List.length a) by (apply nth_error_Some; congruence). lia.
  - apply nth_error_None in Ea.
    assert (Hi : i < List.length b) by (apply nth_error_Some; congruence). lia.
Qed.

Lemma skipn_combine {T U} (a : list T) (b : list U) (n : nat) :
  skipn n (combine a b) = combine (skipn n a) (skipn n b).
Proof.
  revert a b. induction n as [|n IH]; intros a b; [reflexivity|].
  destruct a as [|x a], b as [|y b]; simpl; auto.
  now destruct (skipn n a).
Qed.

Lemma In_firstn_skipn {T} (l : list T) (n m : nat) (x : T) :
  In x (firstn n (skipn m l)) -> In x l.
Proof.
  intros H. rewrite <- (firstn_skipn m l). apply in_or_app. right.
  rewrite <- (firstn_skipn n (skipn m l)). apply in_or_app. now left.
Qed.

Lemma take_short {T} (d : list T) (perm : list nat) (n : nat) :
  Permutation perm (seq 0 n) -> List.length d < n -> take d perm = Raise IndexError.
Proof.
  intros HP Hd. unfold take. destruct (forallb _ perm) eqn:E; [|reflexivity].
  exfalso. rewrite forallb_forall in E.
  assert (Hin : In (n - 1) perm)
    by (apply (Permutation_in _ (Permutation_sym HP)), in_seq; lia).
  apply E, Nat.ltb_lt in Hin. lia.
Qed.

Lemma take_long {T} (d : list T) (perm : list nat) (n : nat) :
  Permutation perm (seq 0 n) -> n <= List.length d -> take d perm = Ok (gather d perm).
Proof.
  intros HP Hd. unfold take. destruct (forallb _ perm) eqn:E; [reflexivity|].
  exfalso. assert (Ht : forallb (fun i => i <? List.length d) perm = true);
    [|congruence].
  apply forallb_forall. intros i Hi. apply Nat.ltb_lt.
  apply (Permutation_in _ HP), in_seq in Hi. lia.
Qed.

Section Examples.
Variables A B : Type.
Import MinibatchDataProvider.

Variable X0 : matrix A.
Variable Y0 : list B.
Variable lengths0 : list nat.
Variable bs : Z.
Variable g0 : rng.

Hypothesis rng_permutes : rng_ok g0.
Hypothesis Y_rows : List.length Y0 = List.length (rows X0).
Hypothesis lengths_rows : List.length lengths0 = List.length (rows X0).
Hypothesis batch_size_ok : (0 < bs <= Z.of_nat (List.length (rows X0)))%Z.

Lemma next_batch_state (s s' : t A B) (g g' : rng)
  (b : matrix A * list B * meta_t) :
  next_batch s g = Ok (b, s', g') ->
  _prepare_for_next_batch s g = Ok (s', g')
  /\ space_below (snd b)
     = mkSpace ["b"; "w"]%string
         [("b"%char, List.length (rows (fst (fst b)))); ("w"%char, width (X s'))].
Proof.
  unfold next_batch. destruct (_prepare_for_next_batch s g) as [[s1 g1]|e];
    cbn [bind]; [|discriminate].
  unfold infer. cbn [nd_of_matrix nd_shape List.length Nat.eqb bind].
  intros H. injection H as <- <- <-. split; reflexivity.
Qed.

Lemma prepare_examples (n : nat) (s s' : t A B) (g g' : rng) :
  cycle_inv X0 bs g0 n s g ->
  _prepare_for_next_batch s g = Ok (s', g') ->
  Permutation (examples s') (examples s) /\ width (X s') = width (X s).
Proof.
  intros (Hbs & Hbpe & Hidx & HX & HY & HL & HP & Hg).
  unfold _prepare_for_next_batch, py_mod.
  destruct (batches_per_epoch s =? 0)%Z; cbn [bind]; [discriminate|].
  cbn [_batch_index].
  destruct (_ =? 0)%Z.
  - unfold _shuffle_data, np_random_permutation.
    cbn [X Y lengths batch_size _batch_index batches_per_epoch].
    assert (Hperm : Permutation (perm_at g (drawn g) (List.length (rows (X s))))
                                (seq 0 (List.length (rows (X s)))))
      by (rewrite Hg; apply rng_permutes).
    rewrite (take_long (rows (X s)) Hperm) by lia.
    rewrite (take_long (Y s) Hperm) by lia.
    rewrite (take_long (lengths s) Hperm) by lia.
    cbn [bind]. intros H. injection H as <- <-.
    unfold examples. cbn [X Y lengths rows width]. split; [|reflexivity].
    rewrite <- !gather_combine by (rewrite ?length_combine; lia).
    apply take_permutation.
    rewrite length_combine, length_combine.
    replace (Nat.min _ _) with (List.length (rows (X s))) by lia.
    exact Hperm.
  - intros H. injection H as <- <-. split; reflexivity.
Qed.

Lemma after_examples (p0 : t A B) (n : nat) (s : t A B) (g : rng) :
  cycle_inv X0 bs g0 0 p0 g0 ->
  after n p0 g0 = Ok (s, g) ->
  Permutation (examples s) (examples p0) /\ width (X s) = width (X p0).
Proof.
  intros H0. revert s g. induction n as [|n IH]; intros s g Hafter.
  - simpl in Hafter. injection Hafter as <- <-. split; reflexivity.
  - simpl in Hafter.
    destruct (@after_cycle_inv A B X0 Y0 lengths0 bs g0 rng_permutes Y_rows
                lengths_rows batch_size_ok p0 n H0) as (s1 & g1 & Ha & Hinv).
    rewrite Ha in Hafter. cbn [bind fst snd] in Hafter.
    destruct (next_batch s1 g1) as [[[b s2] g2]|e] eqn:Hnb; cbn [bind] in Hafter;
      [|discriminate].
    cbn [fst snd] in Hafter. injection Hafter as <- <-.
    destruct (@next_batch_state _ _ _ _ _ Hnb) as [Hprep _].
    destruct (@prepare_examples _ _ _ _ _ Hinv Hprep) as [HP Hw].
    destruct (IH _ _ Ha) as [HP1 Hw1].
    split; [eapply Permutation_trans; eauto | congruence].
Qed.

(* what the batch of a call holds, in terms of the examples of the dataset *)
Lemma next_batch_examples (p0 : t A B) (n : nat) (s s' : t A B) (g g' : rng)
  (X_batch : matrix A) (Y_batch : list B) (meta : meta_t) :
  __init__ X0 Y0 lengths0 bs = Ok p0 ->
  after n p0 g0 = Ok (s, g) ->
  next_batch s g = Ok ((X_batch, Y_batch, meta), s', g') ->
  Permutation (examples s') (combine (rows X0) (combine Y0 lengths0))
  /\ batch_examples X_batch Y_batch meta
     = firstn (Z.to_nat bs)
         (skipn (Z.to_nat (_batch_index s' * bs)) (examples s'))
  /\ List.length (batch_examples X_batch Y_batch meta) = Z.to_nat bs
  /\ incl (batch_examples X_batch Y_batch meta)
          (combine (rows X0) (combine Y0 lengths0))
  /\ space_below meta
     = mkSpace ["b"; "w"]%string
         [("b"%char, Z.to_nat bs); ("w"%char, width X0)].
Proof.
  intros Hinit Hafter Hnb.
  destruct (@init_cycle_inv A B X0 Y0 lengths0 bs g0 Y_rows lengths_rows
              batch_size_ok) as (p0' & Hinit' & H0).
  assert (p0' = p0) by congruence. subst p0'.
  assert (Hp0 : examples p0 = combine (rows X0) (combine Y0 lengths0)
                /\ width (X p0) = width X0).
  { unfold __init__, py_div in Hinit. destruct (bs =? 0)%Z; [discriminate|].
    cbn [bind] in Hinit. injection Hinit as <-. split; reflexivity. }
  destruct Hp0 as [Hex0 Hw0].
  destruct (@after_cycle_inv A B X0 Y0 lengths0 bs g0 rng_permutes Y_rows
              lengths_rows batch_size_ok p0 n H0) as (s1 & g1 & Hafter1 & Hinv).
  assert (E : (s1, g1) = (s, g)) by congruence. injection E as -> ->.
  destruct (@next_batch_step A B X0 Y0 lengths0 bs g0 rng_permutes Y_rows
              lengths_rows batch_size_ok n s g Hinv)
    as (Xb & Yb & m & s2 & g2 & Hnb2 & Hinv' & Hidx & HXb & HYb & HLb & Hlen & _).
  rewrite Hnb in Hnb2. injection Hnb2 as <- <- <- <- <-.
  destruct (@next_batch_state _ _ _ _ _ Hnb) as [Hprep Hspace].
  destruct (@prepare_examples _ _ _ _ _ Hinv Hprep) as [HP Hw].
  destruct (@after_examples _ _ _ _ H0 Hafter) as [HP1 Hw1].
  assert (HPall : Permutation (examples s') (combine (rows X0) (combine Y0 lengths0))).
  { rewrite <- Hex0. eapply Permutation_trans; eauto. }
  assert (Hbatch : batch_examples X_batch Y_batch meta
                   = firstn (Z.to_nat bs)
                       (skipn (Z.to_nat (_batch_index s' * bs)) (examples s'))).
  { unfold batch_examples, examples.
    rewrite !skipn_combine, !combine_firstn. now rewrite HXb, HYb, HLb. }
  split; [exact HPall|]. split; [exact Hbatch|]. split; [|split].
  - destruct Hinv' as (_ & _ & _ & HX' & HY' & HL' & _).
    unfold batch_examples. rewrite HYb, HLb, !length_combine, Hlen.
    rewrite !length_firstn, !length_skipn.
    rewrite HXb, length_firstn, length_skipn in Hlen. lia.
  - intros x Hx. rewrite Hbatch in Hx. apply In_firstn_skipn in Hx.
    exact (Permutation_in _ HPall Hx).
  - cbn [snd fst] in Hspace. rewrite Hspace, Hlen. congruence.
Qed.

Lemma next_batch_succeeds (p0 : t A B) (n : nat) :
  __init__ X0 Y0 lengths0 bs = Ok p0 ->
  exists s g X_batch Y_batch meta s' g',
    after n p0 g0 = Ok (s, g)
    /\ next_batch s g = Ok ((X_batch, Y_batch, meta), s', g')
    /\ _batch_index s' = (Z.of_nat n mod bpe X0 bs)%Z
    /\ (if (_batch_index s' =? 0)%Z then drawn g' = S (drawn g) else g' = g).
Proof.
  intros Hinit.
  destruct (@init_cycle_inv A B X0 Y0 lengths0 bs g0 Y_rows lengths_rows
              batch_size_ok) as (p0' & Hinit' & H0).
  assert (p0' = p0) by congruence. subst p0'.
  destruct (@after_cycle_inv A B X0 Y0 lengths0 bs g0 rng_permutes Y_rows
              lengths_rows batch_size_ok p0 n H0) as (s & g & Hafter & Hinv).
  destruct (@next_batch_step A B X0 Y0 lengths0 bs g0 rng_permutes Y_rows
              lengths_rows batch_size_ok n s g Hinv)
    as (Xb & Yb & m & s' & g' & Hnb & _ & Hidx & _ & _ & _ & _ & Hsh).
  exists s, g, Xb, Yb, m, s', g'.
  split; [exact Hafter|]. split; [exact Hnb|]. split; [exact Hidx|].
  destruct (_batch_index s' =? 0)%Z; tauto.
Qed.

(** Shuffling never separates a row from its label and its length: over a
    dataset whose labels and lengths are as many as its rows, the provider
    holds after every call the rows, labels and lengths of the dataset
    paired as they were given, in some order; every batch is a run of
    [batch_size] of these triples, so each row of a batch comes with its own
    label and length; and the space of the batch names [batch_size] rows of
    the width of the dataset. *)
Theorem batches_keep_examples :
  exists p0, __init__ X0 Y0 lengths0 bs = Ok p0
  /\ forall n, exists s g X_batch Y_batch meta s' g',
       after n p0 g0 = Ok (s, g)
       /\ next_batch s g = Ok ((X_batch, Y_batch, meta), s', g')
       /\ Permutation (examples s') (combine (rows X0) (combine Y0 lengths0))
       /\ batch_examples X_batch Y_batch meta
          = firstn (Z.to_nat bs)
              (skipn (Z.to_nat (_batch_index s' * bs)) (examples s'))
       /\ List.length (batch_examples X_batch Y_batch meta) = Z.to_nat bs
       /\ incl (batch_examples X_batch Y_batch meta)
               (combine (rows X0) (combine Y0 lengths0))
       /\ space_below meta
          = mkSpace ["b"; "w"]%string
              [("b"%char, Z.to_nat bs); ("w"%char, width X0)].
Proof.
  destruct (@init_cycle_inv A B X0 Y0 lengths0 bs g0 Y_rows lengths_rows
              batch_size_ok) as (p0 & Hinit & H0).
  exists p0. split; [exact Hinit|]. intros n.
  destruct (@next_batch_succeeds p0 n Hinit)
    as (s & g & Xb & Yb & m & s' & g' & Hafter & Hnb & _).
  exists s, g, Xb, Yb, m, s', g'.
  split; [exact Hafter|]. split; [exact Hnb|].
  exact (@next_batch_examples _ _ _ _ _ _ _ _ _ Hinit Hafter Hnb).
Qed.

End Examples.

(** A dataset with fewer labels, or fewer lengths, than rows is accepted by
    the constructor and refused by the first call of [next_batch], whose
    shuffle indexes the labels and the lengths with a permutation of the row
    positions: the call raises an IndexError. *)
Theorem missing_labels_index_error {A B} (X : matrix A) (Y : list B)
  (lengths : list nat) (batch_size : Z) (g : rng) :
  rng_ok g ->
  (0 < batch_size <= Z.of_nat (List.length (rows X)))%Z ->
  List.length Y < List.length (rows X)
  \/ List.length lengths < List.length (rows X) ->
  exists p0,
    MinibatchDataProvider.__init__ X Y lengths batch_size = Ok p0
    /\ MinibatchDataProvider.next_batch p0 g = Raise IndexError.
Proof.
  intros Hg Hbs Hshort.
  unfold MinibatchDataProvider.__init__, py_div.
  destruct (Z.eqb_spec batch_size 0) as [E|_]; [lia|]. cbn [bind].
  eexists. split; [reflexivity|].
  unfold MinibatchDataProvider.next_batch,
    MinibatchDataProvider._prepare_for_next_batch, py_mod.
  cbn [MinibatchDataProvider.batches_per_epoch MinibatchDataProvider._batch_index
       MinibatchDataProvider.X MinibatchDataProvider.Y
       MinibatchDataProvider.lengths MinibatchDataProvider.batch_size].
  assert (Hbpe : (1 <= Z.of_nat (List.length (rows X)) / batch_size)%Z)
    by (apply Z.div_le_lower_bound; lia).
  destruct (Z.eqb_spec (Z.of_nat (List.length (rows X)) / batch_size) 0) as [E|_];
    [lia|].
  cbn [bind]. change (-1 + 1)%Z with 0%Z. rewrite Z.mod_0_l by lia.
  cbn [MinibatchDataProvider._batch_index Z.eqb].
  unfold MinibatchDataProvider._shuffle_data, np_random_permutation.
  cbn [MinibatchDataProvider.X MinibatchDataProvider.Y
       MinibatchDataProvider.lengths].
  pose proof (Hg (drawn g) (List.length (rows X))) as Hperm.
  rewrite (take_long (rows X) Hperm) by lia. cbn [bind].
  destruct (Nat.lt_ge_cases (List.length Y) (List.length (rows X))) as [HY|HY].
  - now rewrite (take_short Y Hperm HY).
  - rewrite (take_long Y Hperm HY). cbn [bind].
    destruct Hshort as [H|H]; [lia|]. now rewrite (take_short lengths Hperm H).
Qed.

Lemma batches_keep_examples_witness :
  exists p0,
    MinibatchDataProvider.__init__ X_5rows [0; 1; 0; 1; 0]%Z [2; 2; 2; 2; 2] 2 = Ok p0
    /\ forall n, exists s g X_batch Y_batch meta s' g',
         MinibatchDataProvider.after n p0 rng_rev = Ok (s, g)
         /\ MinibatchDataProvider.next_batch s g
            = Ok ((X_batch, Y_batch, meta), s', g')
         /\ Permutation (examples s')
              (combine (rows X_5rows) (combine [0; 1; 0; 1; 0]%Z [2; 2; 2; 2; 2]))
         /\ batch_examples X_batch Y_batch meta
            = firstn (Z.to_nat 2)
                (skipn (Z.to_nat (MinibatchDataProvider._batch_index s' * 2))
                   (examples s'))
         /\ List.length (batch_examples X_batch Y_batch meta) = Z.to_nat 2
         /\ incl (batch_examples X_batch Y_batch meta)
              (combine (rows X_5rows) (combine [0; 1; 0; 1; 0]%Z [2; 2; 2; 2; 2]))
         /\ space_below meta
            = mkSpace ["b"; "w"]%string
                [("b"%char, Z.to_nat 2); ("w"%char, width X_5rows)].
Proof.
  apply (@batches_keep_examples Z Z X_5rows [0; 1; 0; 1; 0]%Z [2; 2; 2; 2; 2] 2
           rng_rev rng_rev_ok eq_refl eq_refl).
  simpl. lia.
Defined.

Lemma missing_labels_index_error_witness :
  exists p0,
    MinibatchDataProvider.__init__ X_2rows [1%Z] [2; 2] 1 = Ok p0
    /\ MinibatchDataProvider.next_batch p0 rng_rev = Raise IndexError.
Proof.
  apply (@missing_labels_index_error Z Z X_2rows [1%Z] [2; 2] 1 rng_rev rng_rev_ok).
  - simpl. lia.
  - left. simpl. lia.
Defined.

(** ** Padded batches *)

Lemma fold_left_max_nat_spec (l : list nat) (x : nat) :
  (fold_left Nat.max l x = x \/ In (fold_left Nat.max l x) l)
  /\ x <= fold_left Nat.max l x
  /\ (forall y, In y l -> y <= fold_left Nat.max l x).
Proof.
  revert x. induction l as [|a l IH]; simpl; intros x.
  - split; [now left|]. split; [lia | tauto].
  - destruct (IH (Nat.max x a)) as (Hin & Hle & Hall).
    split; [|split].
    + destruct Hin as [Hm|Hm]; [|now right; right].
      rewrite Hm. destruct (Nat.max_spec x a) as [[_ ->]|[_ ->]]; auto.
    + lia.
    + intros y [->|Hy]; [lia | auto].
Qed.

Lemma np_max_nat_spec (l : list nat) (m : nat) :
  np_max_nat l = Ok m -> In m l /\ (forall y, In y l -> y <= m).
Proof.
  destruct l as [|x l]; simpl; [discriminate|].
  intros H. injection H as <-.
  destruct (fold_left_max_nat_spec l x) as (Hin & Hle & Hall).
  split.
  - destruct Hin as [->|Hin]; auto.
  - intros y [<-|Hy]; auto.
Qed.

Lemma length_concat_uniform {T} (l : list (list T)) (m : nat) :
  (forall r, In r l -> List.length r = m) ->
  List.length (List.concat l) = List.length l * m.
Proof.
  induction l as [|r l IH]; simpl; intros H; [reflexivity|].
  rewrite length_app, IH, (H r) by auto. reflexivity.
Qed.

Lemma length_add_padding {T} (padding : T) (x : list T) (m : nat) :
  List.length x <= m -> List.length (_add_padding padding x m) = m.
Proof.
  intros H. unfold _add_padding. rewrite length_app, repeat_length. lia.
Qed.

(* what a successful call of next_batch of a padded provider returns *)
Lemma padded_next_batch_inv {A} (self self' : PaddedSequenceMinibatchProvider.t A)
  (g g' : rng) (X_batch : matrix A) (meta : meta_t) :
  PaddedSequenceMinibatchProvider.next_batch self g = Ok ((X_batch, meta), self', g') ->
  PaddedSequenceMinibatchProvider._prepare_for_next_batch self g = Ok (self', g')
  /\ padded_batch_rows self' <> []
  /\ meta_lengths meta = map (@List.length A) (padded_batch_rows self')
  /\ In (width X_batch) (meta_lengths meta)
  /\ (forall l, In l (meta_lengths meta) -> l <= width X_batch)
  /\ rows X_batch
     = map (fun x => x ++ repeat (PaddedSequenceMinibatchProvider.padding self')
                              (width X_batch - List.length x))
           (padded_batch_rows self')
  /\ (forall row, In row (rows X_batch) -> List.length row = width X_batch)
  /\ space_below meta
     = mkSpace ["b"; "w"]%string
         [("b"%char, List.length (padded_batch_rows self'));
          ("w"%char, width X_batch)]
  /\ nd_wf (nd_of_matrix X_batch).
Proof.
  unfold PaddedSequenceMinibatchProvider.next_batch.
  destruct (PaddedSequenceMinibatchProvider._prepare_for_next_batch self g)
    as [[s1 g1]|e]; cbn [bind]; [|discriminate].
  fold (padded_batch_rows s1).
  destruct (np_max_nat (map (@List.length A) (padded_batch_rows s1))) as [m|e] eqn:Hm;
    cbn [bind]; [|discriminate].
  unfold infer. cbn [nd_of_matrix nd_shape List.length Nat.eqb bind rows width].
  intros H. injection H as HX Hmeta Hs Hg. subst X_batch meta s1 g1.
  cbn [rows width meta_lengths space_below].
  destruct (np_max_nat_spec _ Hm) as [Hin Hmax].
  assert (Hrow : forall row,
             In row (map (fun x => _add_padding
                                     (PaddedSequenceMinibatchProvider.padding self') x m)
                         (padded_batch_rows self')) ->
             List.length row = m).
  { intros row Hr. apply in_map_iff in Hr. destruct Hr as (x & <- & Hx).
    apply length_add_padding, Hmax, in_map. exact Hx. }
  split; [reflexivity|]. split.
  { intros E. rewrite E in Hm. discriminate. }
  split; [reflexivity|]. split; [exact Hin|]. split; [exact Hmax|].
  split; [reflexivity|]. split; [exact Hrow|]. split.
  { rewrite length_map. reflexivity. }
  unfold nd_wf, nd_of_matrix. cbn [nd_data nd_shape np_prod fold_right rows width].
  rewrite (length_concat_uniform _ Hrow). lia.
Qed.

(** A batch of a padded provider is the slice of its sequences, each
    followed by as many paddings as it is shorter than the longest sequence
    of the batch: every row has the length of that longest sequence, the
    sequence is its prefix, the lengths reported are those of the sequences
    before padding, and the space reported names the rows and that width,
    which are the dimensions of the array. *)
Theorem padded_batch_is_padded {A} (self self' : PaddedSequenceMinibatchProvider.t A)
  (g g' : rng) (X_batch : matrix A) (meta : meta_t) :
  PaddedSequenceMinibatchProvider.next_batch self g = Ok ((X_batch, meta), self', g') ->
  padded_batch_rows self' <> []
  /\ meta_lengths meta = map (@List.length A) (padded_batch_rows self')
  /\ In (width X_batch) (meta_lengths meta)
  /\ (forall l, In l (meta_lengths meta) -> l <= width X_batch)
  /\ rows X_batch
     = map (fun x => x ++ repeat (PaddedSequenceMinibatchProvider.padding self')
                              (width X_batch - List.length x))
           (padded_batch_rows self')
  /\ (forall row, In row (rows X_batch) -> List.length row = width X_batch)
  /\ space_below meta
     = mkSpace ["b"; "w"]%string
         [("b"%char, List.length (padded_batch_rows self'));
          ("w"%char, width X_batch)]
  /\ nd_wf (nd_of_matrix X_batch).
Proof.
  intros H. exact (proj2 (@padded_next_batch_inv _ _ _ _ _ _ _ H)).
Qed.

Lemma padded_batch_is_padded_witness :
  padded_batch_rows
    (PaddedSequenceMinibatchProvider.mk [[5]; [6; 7]; [8]]%Z 2 0%Z false 0 1) <> []
  /\ meta_lengths (mkMeta [1; 2]
                     (mkSpace ["b"; "w"]%string [("b"%char, 2); ("w"%char, 2)]))
     = map (@List.length Z)
         (padded_batch_rows
            (PaddedSequenceMinibatchProvider.mk [[5]; [6; 7]; [8]]%Z 2 0%Z false 0 1))
  /\ In (width (mkMatrix [[5; 0]; [6; 7]]%Z 2))
        (meta_lengths (mkMeta [1; 2]
                         (mkSpace ["b"; "w"]%string [("b"%char, 2); ("w"%char, 2)])))
  /\ (forall l,
        In l (meta_lengths (mkMeta [1; 2]
                              (mkSpace ["b"; "w"]%string
                                 [("b"%char, 2); ("w"%char, 2)]))) ->
        l <= width (mkMatrix [[5; 0]; [6; 7]]%Z 2))
  /\ rows (mkMatrix [[5; 0]; [6; 7]]%Z 2)
     = map (fun x => x ++ repeat
                       (PaddedSequenceMinibatchProvider.padding
                          (PaddedSequenceMinibatchProvider.mk
                             [[5]; [6; 7]; [8]]%Z 2 0%Z false 0 1))
                       (width (mkMatrix [[5; 0]; [6; 7]]%Z 2) - List.length x))
           (padded_batch_rows
              (PaddedSequenceMinibatchProvider.mk [[5]; [6; 7]; [8]]%Z 2 0%Z false 0 1))
  /\ (forall row, In row (rows (mkMatrix [[5; 0]; [6; 7]]%Z 2)) ->
        List.length row = width (mkMatrix [[5; 0]; [6; 7]]%Z 2))
  /\ space_below (mkMeta [1; 2]
                    (mkSpace ["b"; "w"]%string [("b"%char, 2); ("w"%char, 2)]))
     = mkSpace ["b"; "w"]%string
         [("b"%char,
           List.length
             (padded_batch_rows
                (PaddedSequenceMinibatchProvider.mk
                   [[5]; [6; 7]; [8]]%Z 2 0%Z false 0 1)));
          ("w"%char, width (mkMatrix [[5; 0]; [6; 7]]%Z 2))]
  /\ nd_wf (nd_of_matrix (mkMatrix [[5; 0]; [6; 7]]%Z 2)).
Proof.
  apply (@padded_batch_is_padded Z
           (PaddedSequenceMinibatchProvider.mk [[5]; [6; 7]; [8]]%Z 2 0%Z false (-1) 1)
           (PaddedSequenceMinibatchProvider.mk [[5]; [6; 7]; [8]]%Z 2 0%Z false 0 1)
           rng_id rng_id (mkMatrix [[5; 0]; [6; 7]]%Z 2)
           (mkMeta [1; 2]
              (mkSpace ["b"; "w"]%string [("b"%char, 2); ("w"%char, 2)]))).
  reflexivity.
Defined.

(** ** The cycle of batches of PaddedSequenceMinibatchProvider *)

Section PaddedCycle.
Variable A : Type.
Import PaddedSequenceMinibatchProvider.

Variable X0 : list (list A).
Variable bs : Z.
Variable pad : A.
Variable sh : bool.
Variable g0 : rng.

Hypothesis rng_permutes : rng_ok g0.
Hypothesis batch_size_ok : (0 < bs <= Z.of_nat (List.length X0))%Z.

Lemma padded_init_inv :
  exists p0, __init__ X0 bs pad sh = Ok p0 /\ padded_inv X0 bs pad sh g0 0 p0 g0.
Proof.
  unfold __init__, py_div. destruct (Z.eqb_spec bs 0) as [E|_]; [lia|]. cbn [bind].
  eexists. split; [reflexivity|]. unfold padded_inv. simpl. repeat split; auto.
Qed.

Lemma padded_prepare_inv (n : nat) (s : t A) (g : rng) :
  padded_inv X0 bs pad sh g0 n s g ->
  exists s1 g1,
    _prepare_for_next_batch s g = Ok (s1, g1)
    /\ padded_inv X0 bs pad sh g0 (S n) s1 g1
    /\ _batch_index s1 = (Z.of_nat n mod (Z.of_nat (List.length X0) / bs))%Z.
Proof.
  intros (Hbs & Hbpe & Hidx & Hpad & Hsh & HP & Hg & Hns).
  assert (Hpos : (1 <= Z.of_nat (List.length X0) / bs)%Z)
    by (apply Z.div_le_lower_bound; lia).
  destruct s as [Xs bs' pad' sh' idx bpe']. simpl in *. subst bs' bpe' pad' sh'.
  set (bpe0 := (Z.of_nat (List.length X0) / bs)%Z) in *.
  assert (Hi : ((idx + 1) mod bpe0 = Z.of_nat n mod bpe0)%Z).
  { subst idx. destruct (Nat.eqb_spec n 0) as [->|Hn]; [reflexivity|].
    rewrite Z.add_mod_idemp_l by lia. f_equal. lia. }
  assert (Hnext : (if (S n =? 0)%nat then (-1)%Z
                   else ((Z.of_nat (S n) - 1) mod bpe0)%Z)
                  = (Z.of_nat n mod bpe0)%Z).
  { replace (Z.of_nat (S n) - 1)%Z with (Z.of_nat n) by lia. reflexivity. }
  unfold _prepare_for_next_batch, py_mod. simpl.
  destruct (Z.eqb_spec bpe0 0) as [E|_]; [lia|]. simpl. rewrite Hi.
  destruct ((Z.of_nat n mod bpe0 =? 0)%Z && sh) eqn:Hs.
  - unfold _shuffle_data, np_random_permutation. simpl.
    assert (Hperm : Permutation (perm_at g (drawn g) (List.length Xs))
                                (seq 0 (List.length Xs)))
      by (rewrite Hg; apply rng_permutes).
    destruct (take_permutation Xs Hperm) as (_ & _ & HpX).
    do 2 eexists. split; [reflexivity|]. split; [|reflexivity].
    unfold padded_inv. fold bpe0. rewrite Hnext. simpl.
    repeat split; auto.
    + eapply Permutation_trans; eauto.
    + apply andb_true_iff in Hs. destruct Hs as [_ Hs]. congruence.
    + apply andb_true_iff in Hs. destruct Hs as [_ Hs]. congruence.
  - do 2 eexists. split; [reflexivity|]. split; [|reflexivity].
    unfold padded_inv. fold bpe0. rewrite Hnext. simpl. repeat split; auto; now apply Hns.
Qed.

Lemma padded_next_from_prepare (s s1 : t A) (g g1 : rng) :
  _prepare_for_next_batch s g = Ok (s1, g1) ->
  (0 < batch_size s1)%Z -> (0 <= _batch_index s1)%Z ->
  (_batch_index s1 * batch_size s1 + batch_size s1 <= Z.of_nat (List.length (X s1)))%Z ->
  padded_batch_rows s1
  = firstn (Z.to_nat (batch_size s1))
      (skipn (Z.to_nat (_batch_index s1 * batch_size s1)) (X s1))
  /\ List.length (padded_batch_rows s1) = Z.to_nat (batch_size s1)
  /\ exists X_batch meta, next_batch s g = Ok ((X_batch, meta), s1, g1).
Proof.
  intros Hprep Hbs Hidx Hend.
  destruct (@py_slice_range _ (X s1) (_batch_index s1 * batch_size s1)
              (_batch_index s1 * batch_size s1 + batch_size s1))
    as [Hraw Hlen]; [nia | lia |].
  fold (padded_batch_rows s1) in Hraw, Hlen.
  replace (_batch_index s1 * batch_size s1 + batch_size s1
           - _batch_index s1 * batch_size s1)%Z
    with (batch_size s1) in Hraw, Hlen by lia.
  split; [exact Hraw|]. split; [exact Hlen|].
  unfold next_batch. rewrite Hprep. cbn [bind].
  fold (padded_batch_rows s1).
  destruct (padded_batch_rows s1) as [|x raw] eqn:E; [simpl in Hlen; lia|].
  cbn [map np_max_nat bind]. unfold infer.
  cbn [nd_of_matrix nd_shape List.length Nat.eqb bind rows width].
  do 2 eexists. reflexivity.
Qed.

Lemma padded_next_batch_step (n : nat) (s : t A) (g : rng) :
  padded_inv X0 bs pad sh g0 n s g ->
  exists X_batch meta s' g',
    next_batch s g = Ok ((X_batch, meta), s', g')
    /\ padded_inv X0 bs pad sh g0 (S n) s' g'
    /\ _batch_index s' = (Z.of_nat n mod (Z.of_nat (List.length X0) / bs))%Z
    /\ padded_batch_rows s'
       = firstn (Z.to_nat bs) (skipn (Z.to_nat (_batch_index s' * bs)) (X s'))
    /\ List.length (padded_batch_rows s') = Z.to_nat bs.
Proof.
  intros Hinv.
  destruct (padded_prepare_inv Hinv) as (s1 & g1 & Hprep & Hinv1 & Hidx).
  pose proof Hinv1 as (Hbs & _ & _ & _ & _ & HP & _).
  assert (Hpos : (1 <= Z.of_nat (List.length X0) / bs)%Z)
    by (apply Z.div_le_lower_bound; lia).
  assert (Hrange : (0 <= Z.of_nat n mod (Z.of_nat (List.length X0) / bs)
                    < Z.of_nat (List.length X0) / bs)%Z)
    by (apply Z.mod_pos_bound; lia).
  assert (Hrows : (Z.of_nat (List.length X0) / bs * bs
                   <= Z.of_nat (List.length X0))%Z)
    by (rewrite Z.mul_comm; apply Z.mul_div_le; lia).
  destruct (@padded_next_from_prepare s s1 g g1 Hprep) as (Hraw & Hlen & Xb & m & Hnb).
  - lia.
  - lia.
  - rewrite Hbs, Hidx, (Permutation_length HP). nia.
  - exists Xb, m, s1, g1. rewrite Hbs in Hraw, Hlen. auto.
Qed.

Lemma padded_after_inv (p0 : t A) (n : nat) :
  padded_inv X0 bs pad sh g0 0 p0 g0 ->
  exists s g, padded_after n p0 g0 = Ok (s, g) /\ padded_inv X0 bs pad sh g0 n s g.
Proof.
  intros H0. induction n as [|n (s & g & Hafter & Hinv)]; simpl.
  - eauto.
  - destruct (padded_next_batch_step Hinv) as (Xb & m & s' & g' & Hnb & Hinv' & _).
    rewrite Hafter. simpl. rewrite Hnb. simpl. eauto.
Qed.

(** Over sequences X0 and with a batch size B, 0 < B <= len(X0), every call
    of [next_batch] of a padded provider succeeds; the call number n+1 uses
    the batch index n mod floor(len(X0)/B) and returns the B sequences from
    position index*B on, padded to the longest of them; the provider always
    holds the sequences of X0 in some order, and without shuffling it holds
    X0 itself and leaves the generator alone, so that the batches are then
    the same in every epoch. *)
Theorem padded_next_batch_cycle :
  exists p0, __init__ X0 bs pad sh = Ok p0
  /\ forall n, exists s g X_batch meta s' g',
       padded_after n p0 g0 = Ok (s, g)
       /\ next_batch s g = Ok ((X_batch, meta), s', g')
       /\ padded_after (S n) p0 g0 = Ok (s', g')
       /\ _batch_index s' = (Z.of_nat n mod (Z.of_nat (List.length X0) / bs))%Z
       /\ padded_batch_rows s'
          = firstn (Z.to_nat bs) (skipn (Z.to_nat (_batch_index s' * bs)) (X s'))
       /\ rows X_batch
          = map (fun x => x ++ repeat pad (width X_batch - List.length x))
                (padded_batch_rows s')
       /\ List.length (rows X_batch) = Z.to_nat bs
       /\ Permutation (X s') X0
       /\ (sh = false -> X s' = X0 /\ g' = g0).
Proof.
  destruct padded_init_inv as (p0 & Hinit & H0).
  exists p0. split; [exact Hinit|]. intros n.
  destruct (padded_after_inv n H0) as (s & g & Hafter & Hinv).
  destruct (padded_next_batch_step Hinv)
    as (Xb & m & s' & g' & Hnb & Hinv' & Hidx & Hraw & Hlen).
  destruct (@padded_next_batch_inv _ _ _ _ _ _ _ Hnb)
    as (_ & _ & _ & _ & _ & Hrows & _).
  pose proof Hinv' as (_ & _ & _ & Hpad & _ & HP & _ & Hns).
  exists s, g, Xb, m, s', g'.
  split; [exact Hafter|]. split; [exact Hnb|]. split.
  { simpl. rewrite Hafter. simpl. rewrite Hnb. reflexivity. }
  split; [exact Hidx|]. split; [exact Hraw|]. split.
  { rewrite Hrows, Hpad. reflexivity. }
  split.
  { rewrite Hrows, length_map. exact Hlen. }
  split; [exact HP | exact Hns].
Qed.

End PaddedCycle.

Lemma padded_next_batch_cycle_witness :
  exists p0,
    PaddedSequenceMinibatchProvider.__init__ [[5]; [6; 7]; [8]]%Z 2 0%Z false = Ok p0
    /\ forall n, exists s g X_batch meta s' g',
         padded_after n p0 rng_rev = Ok (s, g)
         /\ PaddedSequenceMinibatchProvider.next_batch s g
            = Ok ((X_batch, meta), s', g')
         /\ padded_after (S n) p0 rng_rev = Ok (s', g')
         /\ PaddedSequenceMinibatchProvider._batch_index s'
            = (Z.of_nat n mod (Z.of_nat (List.length [[5]; [6; 7]; [8]]%Z) / 2))%Z
         /\ padded_batch_rows s'
            = firstn (Z.to_nat 2)
                (skipn (Z.to_nat (PaddedSequenceMinibatchProvider._batch_index s' * 2))
                   (PaddedSequenceMinibatchProvider.X s'))
         /\ rows X_batch
            = map (fun x => x ++ repeat 0%Z (width X_batch - List.length x))
                  (padded_batch_rows s')
         /\ List.length (rows X_batch) = Z.to_nat 2
         /\ Permutation (PaddedSequenceMinibatchProvider.X s') [[5]; [6; 7]; [8]]%Z
         /\ (false = false ->
             PaddedSequenceMinibatchProvider.X s' = [[5]; [6; 7]; [8]]%Z
             /\ g' = rng_rev).
Proof.
  apply (@padded_next_batch_cycle Z [[5]; [6; 7]; [8]]%Z 2 0%Z false rng_rev
           rng_rev_ok).
  simpl. lia.
Defined.

(** ** Labelled sequences *)

Lemma combine_map_fst_snd {T U} (c : list (T * U)) :
  combine (map fst c) (map snd c) = c.
Proof.
  induction c as [|[x y] c IH]; simpl; [reflexivity|]. now rewrite IH.
Qed.

(** The shuffle of a labelled provider permutes the pairs of a sequence and
    its label: afterwards the provider holds the pairs it held, in the order
    the generator drew, with the longer of its two lists cut to the length
    of the shorter; with no pair at all the shuffle raises a ValueError. *)
Theorem labelled_shuffle_keeps_pairs {A} (self : LabelledSequenceMinibatchProvider.t A)
  (g : rng) :
  rng_ok g ->
  (combine (LabelledSequenceMinibatchProvider.X self)
           (LabelledSequenceMinibatchProvider.Y self) = [] ->
   LabelledSequenceMinibatchProvider._shuffle_data self g = Raise ValueError)
  /\ (combine (LabelledSequenceMinibatchProvider.X self)
              (LabelledSequenceMinibatchProvider.Y self) <> [] ->
      exists self' g',
        LabelledSequenceMinibatchProvider._shuffle_data self g = Ok (self', g')
        /\ Permutation
             (combine (LabelledSequenceMinibatchProvider.X self')
                      (LabelledSequenceMinibatchProvider.Y self'))
             (combine (LabelledSequenceMinibatchProvider.X self)
                      (LabelledSequenceMinibatchProvider.Y self))
        /\ List.length (LabelledSequenceMinibatchProvider.X self')
           = Nat.min (List.length (LabelledSequenceMinibatchProvider.X self))
                     (List.length (LabelledSequenceMinibatchProvider.Y self))
        /\ List.length (LabelledSequenceMinibatchProvider.Y self')
           = List.length (LabelledSequenceMinibatchProvider.X self')
        /\ drawn g' = S (drawn g)
        /\ LabelledSequenceMinibatchProvider._batch_index self'
           = LabelledSequenceMinibatchProvider._batch_index self
        /\ LabelledSequenceMinibatchProvider.batches_per_epoch self'
           = LabelledSequenceMinibatchProvider.batches_per_epoch self).
Proof.
  intros Hg. unfold LabelledSequenceMinibatchProvider._shuffle_data,
    np_random_permutation.
  set (c := combine (LabelledSequenceMinibatchProvider.X self)
                    (LabelledSequenceMinibatchProvider.Y self)).
  destruct (take_permutation c (Hg (drawn g) (List.length c))) as (_ & Hlen & HP).
  remember (gather c (perm_at g (drawn g) (List.length c))) as gc eqn:Egc.
  split.
  - intros E. rewrite E in Hlen. destruct gc; [reflexivity | discriminate].
  - intros Hne. destruct gc as [|p gc'] eqn:E.
    + destruct c; [congruence | discriminate].
    + rewrite <- E in *. do 2 eexists. split; [subst gc; reflexivity|].
      cbn [LabelledSequenceMinibatchProvider.X LabelledSequenceMinibatchProvider.Y
           LabelledSequenceMinibatchProvider._batch_index
           LabelledSequenceMinibatchProvider.batches_per_epoch drawn].
      rewrite combine_map_fst_snd, !length_map, Hlen.
      split; [subst gc; exact HP|]. split; [apply length_combine|].
      repeat split.
Qed.

Lemma labelled_shuffle_keeps_pairs_witness :
  exists self' g',
    LabelledSequenceMinibatchProvider._shuffle_data labelled_021 rng_rev
    = Ok (self', g')
    /\ Permutation
         (combine (LabelledSequenceMinibatchProvider.X self')
                  (LabelledSequenceMinibatchProvider.Y self'))
         (combine (LabelledSequenceMinibatchProvider.X labelled_021)
                  (LabelledSequenceMinibatchProvider.Y labelled_021))
    /\ List.length (LabelledSequenceMinibatchProvider.X self')
       = Nat.min (List.length (LabelledSequenceMinibatchProvider.X labelled_021))
                 (List.length (LabelledSequenceMinibatchProvider.Y labelled_021))
    /\ List.length (LabelledSequenceMinibatchProvider.Y self')
       = List.length (LabelledSequenceMinibatchProvider.X self')
    /\ drawn g' = S (drawn rng_rev)
    /\ LabelledSequenceMinibatchProvider._batch_index self'
       = LabelledSequenceMinibatchProvider._batch_index labelled_021
    /\ LabelledSequenceMinibatchProvider.batches_per_epoch self'
       = LabelledSequenceMinibatchProvider.batches_per_epoch labelled_021.
Proof.
  apply (proj2 (@labelled_shuffle_keeps_pairs Z labelled_021 rng_rev rng_rev_ok)).
  discriminate.
Defined.

(* what a successful call of next_batch of a labelled provider returns *)
Lemma labelled_next_batch_inv {A} (self self' : LabelledSequenceMinibatchProvider.t A)
  (g g' : rng) (X_batch : list (list A)) (Y_batch : list (list float))
  (meta : meta_t) :
  LabelledSequenceMinibatchProvider.next_batch self g
  = Ok ((X_batch, Y_batch, meta), self', g') ->
  exists m w,
    np_max (LabelledSequenceMinibatchProvider.batch_labels self') = Ok m
    /\ In w (meta_lengths meta)
    /\ (forall l, In l (meta_lengths meta) -> l <= w)
    /\ meta_lengths meta = map (@List.length A) (labelled_batch_rows self')
    /\ X_batch
       = map (fun x => x ++ repeat (LabelledSequenceMinibatchProvider.padding self')
                                (w - List.length x))
             (labelled_batch_rows self')
    /\ (forall row, In row X_batch -> List.length row = w)
    /\ Y_batch
       = LabelledSequenceMinibatchProvider.one_hot
           (LabelledSequenceMinibatchProvider.batch_labels self') (m + 1)
    /\ space_below meta
       = mkSpace ["b"; "w"]%string
           [("b"%char, List.length X_batch); ("w"%char, w)].
Proof.
  unfold LabelledSequenceMinibatchProvider.next_batch.
  destruct (LabelledSequenceMinibatchProvider._prepare_for_next_batch self g)
    as [[s1 g1]|e]; cbn [bind]; [|discriminate].
  fold (labelled_batch_rows s1).
  fold (LabelledSequenceMinibatchProvider.batch_labels s1).
  destruct (np_max (LabelledSequenceMinibatchProvider.batch_labels s1)) as [m|e] eqn:Hm;
    cbn [bind]; [|discriminate].
  destruct (np_max_nat (map (@List.length A) (labelled_batch_rows s1))) as [w|e] eqn:Hw;
    cbn [bind]; [|discriminate].
  intros H. injection H as HX HY Hmeta Hs Hg. subst X_batch Y_batch meta s1 g1.
  cbn [meta_lengths space_below].
  destruct (np_max_nat_spec _ Hw) as [Hin Hmax].
  exists m, w. split; [exact Hm|]. split; [exact Hin|]. split; [exact Hmax|].
  split; [reflexivity|]. split; [reflexivity|]. split; [|split; reflexivity].
  intros row Hr. apply in_map_iff in Hr. destruct Hr as (x & <- & Hx).
  apply length_add_padding, Hmax, in_map. exact Hx.
Qed.

(** A batch of a labelled provider holds the sequences of the slice, each
    followed by paddings up to the length of the longest of them, and the
    one-hot rows of the labels of the same slice; the lengths reported are
    those before padding and the space reported, which the provider builds
    itself, names the number of rows and that longest length. *)
Theorem labelled_batch_is_padded {A} (self self' : LabelledSequenceMinibatchProvider.t A)
  (g g' : rng) (X_batch : list (list A)) (Y_batch : list (list float))
  (meta : meta_t) :
  LabelledSequenceMinibatchProvider.next_batch self g
  = Ok ((X_batch, Y_batch, meta), self', g') ->
  exists m w,
    np_max (LabelledSequenceMinibatchProvider.batch_labels self') = Ok m
    /\ In w (meta_lengths meta)
    /\ (forall l, In l (meta_lengths meta) -> l <= w)
    /\ meta_lengths meta = map (@List.length A) (labelled_batch_rows self')
    /\ X_batch
       = map (fun x => x ++ repeat (LabelledSequenceMinibatchProvider.padding self')
                                (w - List.length x))
             (labelled_batch_rows self')
    /\ (forall row, In row X_batch -> List.length row = w)
    /\ Y_batch
       = LabelledSequenceMinibatchProvider.one_hot
           (LabelledSequenceMinibatchProvider.batch_labels self') (m + 1)
    /\ space_below meta
       = mkSpace ["b"; "w"]%string
           [("b"%char, List.length X_batch); ("w"%char, w)].
Proof.
  intros H. exact (@labelled_next_batch_inv _ _ _ _ _ _ _ _ H).
Qed.

Lemma labelled_batch_is_padded_witness :
  exists m w,
    np_max (LabelledSequenceMinibatchProvider.batch_labels
              (LabelledSequenceMinibatchProvider.mk
                 [[5]; [6; 7]; [8]]%Z [0; 2; 1]%Z 3 0%Z false 0 1)) = Ok m
    /\ In w (meta_lengths
               (mkMeta [1; 2; 1]
                  (mkSpace ["b"; "w"]%string [("b"%char, 3); ("w"%char, 2)])))
    /\ (forall l,
          In l (meta_lengths
                  (mkMeta [1; 2; 1]
                     (mkSpace ["b"; "w"]%string [("b"%char, 3); ("w"%char, 2)]))) ->
          l <= w)
    /\ meta_lengths
         (mkMeta [1; 2; 1]
            (mkSpace ["b"; "w"]%string [("b"%char, 3); ("w"%char, 2)]))
       = map (@List.length Z)
           (labelled_batch_rows
              (LabelledSequenceMinibatchProvider.mk
                 [[5]; [6; 7]; [8]]%Z [0; 2; 1]%Z 3 0%Z false 0 1))
    /\ [[5; 0]; [6; 7]; [8; 0]]%Z
       = map (fun x => x ++ repeat
                         (LabelledSequenceMinibatchProvider.padding
                            (LabelledSequenceMinibatchProvider.mk
                               [[5]; [6; 7]; [8]]%Z [0; 2; 1]%Z 3 0%Z false 0 1))
                         (w - List.length x))
             (labelled_batch_rows
                (LabelledSequenceMinibatchProvider.mk
                   [[5]; [6; 7]; [8]]%Z [0; 2; 1]%Z 3 0%Z false 0 1))
    /\ (forall row, In row [[5; 0]; [6; 7]; [8; 0]]%Z -> List.length row = w)
    /\ [[1; 0; 0]; [0; 0; 1]; [0; 1; 0]]%float
       = LabelledSequenceMinibatchProvider.one_hot
           (LabelledSequenceMinibatchProvider.batch_labels
              (LabelledSequenceMinibatchProvider.mk
                 [[5]; [6; 7]; [8]]%Z [0; 2; 1]%Z 3 0%Z false 0 1))
           (m + 1)
    /\ space_below
         (mkMeta [1; 2; 1]
            (mkSpace ["b"; "w"]%string [("b"%char, 3); ("w"%char, 2)]))
       = mkSpace ["b"; "w"]%string
           [("b"%char, List.length [[5; 0]; [6; 7]; [8; 0]]%Z); ("w"%char, w)].
Proof.
  apply (@labelled_batch_is_padded Z labelled_021
           (LabelledSequenceMinibatchProvider.mk
              [[5]; [6; 7]; [8]]%Z [0; 2; 1]%Z 3 0%Z false 0 1)
           rng_id rng_id
           [[5; 0]; [6; 7]; [8; 0]]%Z
           [[1; 0; 0]; [0; 0; 1]; [0; 1; 0]]%float
           (mkMeta [1; 2; 1]
              (mkSpace ["b"; "w"]%string [("b"%char, 3); ("w"%char, 2)]))).
  reflexivity.
Defined.

(** ** The whole dataset as one batch *)

(** [BatchDataProvider] returns at every call the dataset as it was given,
    with the space of its rows and width, and never shuffles; the minibatch
    provider with the number of rows as its batch size returns at every call
    all the examples of the dataset too, but reshuffled by a permutation it
    draws at that call. *)
Theorem whole_dataset_batches {A B} (X : matrix A) (Y : list B)
  (lengths : list nat) (g0 : rng) :
  rng_ok g0 ->
  List.length Y = List.length (rows X) ->
  List.length lengths = List.length (rows X) ->
  0 < List.length (rows X) ->
  BatchDataProvider.batch_size (BatchDataProvider.__init__ X Y lengths)
  = List.length (rows X)
  /\ BatchDataProvider.next_batch (BatchDataProvider.__init__ X Y lengths)
     = Ok (X, Y,
           mkMeta lengths
             (mkSpace ["b"; "w"]%string
                [("b"%char, List.length (rows X)); ("w"%char, width X)]))
  /\ exists p0,
       MinibatchDataProvider.__init__ X Y lengths (Z.of_nat (List.length (rows X)))
       = Ok p0
       /\ forall n, exists s g X_batch Y_batch meta s' g',
            MinibatchDataProvider.after n p0 g0 = Ok (s, g)
            /\ MinibatchDataProvider.next_batch s g
               = Ok ((X_batch, Y_batch, meta), s', g')
            /\ Permutation (batch_examples X_batch Y_batch meta)
                 (combine (rows X) (combine Y lengths))
            /\ space_below meta
               = mkSpace ["b"; "w"]%string
                   [("b"%char, List.length (rows X)); ("w"%char, width X)]
            /\ drawn g' = S (drawn g).
Proof.
  intros Hg HY HL HD.
  assert (Hbs : (0 < Z.of_nat (List.length (rows X))
                 <= Z.of_nat (List.length (rows X)))%Z) by lia.
  split; [reflexivity|]. split; [reflexivity|].
  destruct (@init_cycle_inv A B X Y lengths _ g0 HY HL Hbs) as (p0 & Hinit & _).
  exists p0. split; [exact Hinit|]. intros n.
  destruct (@next_batch_succeeds A B X Y lengths _ g0 Hg HY HL Hbs p0 n Hinit)
    as (s & g & Xb & Yb & m & s' & g' & Hafter & Hnb & Hidx & Hsh).
  destruct (@next_batch_examples A B X Y lengths _ g0 Hg HY HL Hbs
              p0 n s s' g g' Xb Yb m Hinit Hafter Hnb)
    as (HP & Hbatch & _ & _ & Hspace).
  assert (Hzero : MinibatchDataProvider._batch_index s' = 0%Z).
  { rewrite Hidx. unfold bpe. rewrite Z.div_same by lia. apply Z.mod_1_r. }
  rewrite Hzero in Hsh, Hbatch. rewrite Nat2Z.id in Hbatch, Hspace.
  exists s, g, Xb, Yb, m, s', g'.
  split; [exact Hafter|]. split; [exact Hnb|]. split; [|split; assumption].
  rewrite Hbatch. cbn [Z.mul Z.to_nat skipn].
  rewrite firstn_all2; [exact HP|].
  rewrite (Permutation_length HP), !length_combine. lia.
Qed.

Lemma whole_dataset_batches_witness :
  BatchDataProvider.batch_size
    (BatchDataProvider.__init__ X_2rows [0; 1]%Z [2; 2])
  = List.length (rows X_2rows)
  /\ BatchDataProvider.next_batch (BatchDataProvider.__init__ X_2rows [0; 1]%Z [2; 2])
     = Ok (X_2rows, [0; 1]%Z,
           mkMeta [2; 2]
             (mkSpace ["b"; "w"]%string
                [("b"%char, List.length (rows X_2rows)); ("w"%char, width X_2rows)]))
  /\ exists p0,
       MinibatchDataProvider.__init__ X_2rows [0; 1]%Z [2; 2]
         (Z.of_nat (List.length (rows X_2rows))) = Ok p0
       /\ forall n, exists s g X_batch Y_batch meta s' g',
            MinibatchDataProvider.after n p0 rng_rev = Ok (s, g)
            /\ MinibatchDataProvider.next_batch s g
               = Ok ((X_batch, Y_batch, meta), s', g')
            /\ Permutation (batch_examples X_batch Y_batch meta)
                 (combine (rows X_2rows) (combine [0; 1]%Z [2; 2]))
            /\ space_below meta
               = mkSpace ["b"; "w"]%string
                   [("b"%char, List.length (rows X_2rows)); ("w"%char, width X_2rows)]
            /\ drawn g' = S (drawn g).
Proof.
  apply (@whole_dataset_batches Z Z X_2rows [0; 1]%Z [2; 2] rng_rev rng_rev_ok).
  - reflexivity.
  - reflexivity.
  - simpl. lia.
Defined.

(** ** infer, transform and broadcast together *)

Lemma position_app_l (a : label) (A B : list label) :
  In a A -> position Ascii.eqb a (A ++ B) = position Ascii.eqb a A.
Proof.
  induction A as [|x A IH]; simpl; [tauto|]. intros H.
  destruct (Ascii.eqb_spec a x) as [E|E]; [reflexivity|].
  f_equal. apply IH. destruct H as [H|H]; [congruence | exact H].
Qed.

Lemma wrapped_app_one (sh idx : list nat) (k : nat) :
  Forall2 lt idx sh -> wrapped (sh ++ [1]) (idx ++ [k]) = idx ++ [0].
Proof.
  intros H. unfold wrapped. induction H as [|i d idx sh Hi H IH]; simpl.
  - reflexivity.
  - rewrite IH, Nat.mod_small by exact Hi. reflexivity.
Qed.

Section Pipelines.

Variable set_iter : list label -> list label.
Hypothesis set_iter_perm : forall l, Permutation (set_iter l) l.

(** On a two-dimensional array with the axes [b, w], the transform to
    [w, b] is the transposition of the matrix: the result has the two
    dimensions exchanged and its element in row c and column r is the
    element of the array in row r and column c. *)
Theorem transform_swap_transposes {T} (X : ndarray T) (n m r c : nat) :
  nd_wf X -> nd_shape X = [n; m] -> r < n -> c < m ->
  exists S X' S',
    infer X ["b"%char; "w"%char] = Ok S
    /\ transform set_iter S X ["w"; "b"]%string = Ok (X', S')
    /\ nd_shape X' = [m; n]
    /\ _extent S' = [("w"%char, m); ("b"%char, n)]
    /\ c * n + r < List.length (nd_data X')
    /\ nth_error (nd_data X') (c * n + r) = nth_error (nd_data X) (r * m + c).
Proof.
  intros HX Hsh Hr Hc.
  set (S := mkSpace ["b"; "w"]%string [("b"%char, n); ("w"%char, m)]).
  assert (Hinf : infer X ["b"%char; "w"%char] = Ok S)
    by (unfold infer; rewrite Hsh; reflexivity).
  assert (Hwf : wf S).
  { split; [reflexivity|]. repeat constructor; simpl; intuition discriminate. }
  assert (Hsize : nd_size X = size S) by (unfold nd_size; rewrite Hsh; reflexivity).
  assert (HB : NoDup (_fold_axes ["w"; "b"]%string))
    by (repeat constructor; simpl; intuition discriminate).
  assert (Hincl : incl (folded_axes S) (_fold_axes ["w"; "b"]%string))
    by (intros x [<-|[<-|[]]]; simpl; auto).
  pose proof (@transform_ok set_iter set_iter_perm T S X ["w"; "b"]%string
                Hwf HB Hincl Hsize) as Hok.
  assert (Hj : Forall2 lt [c; r] (folded_shape (target S ["w"; "b"]%string)))
    by (unfold folded_shape; simpl; repeat constructor; assumption).
  destruct (@transform_nth set_iter set_iter_perm T S X ["w"; "b"]%string [c; r]
              Hwf HX HB Hincl Hsize Hj) as (_ & Hlt & Hn).
  destruct (@transform_result_wf set_iter set_iter_perm T S _ X _ _ Hwf HX Hok)
    as (_ & _ & _ & _ & HP).
  cbn [nd_data] in HP.
  assert (E1 : ravel (folded_shape (target S ["w"; "b"]%string)) [c; r] = c * n + r)
    by (unfold folded_shape; simpl; lia).
  assert (E2 : ravel (folded_shape S)
                 (source_index S (target S ["w"; "b"]%string) [c; r]) = r * m + c)
    by (unfold folded_shape, source_index; simpl; lia).
  rewrite E1 in Hlt, Hn. rewrite E2 in Hn.
  do 3 eexists. split; [exact Hinf|]. split; [exact Hok|].
  cbn [nd_shape nd_data]. split; [|split; [reflexivity|split; [|exact Hn]]].
  - unfold shape, target, _size_of_axis. simpl. now rewrite !Nat.mul_1_r.
  - rewrite (Permutation_length HP). unfold nd_wf in HX.
    unfold nd_size in Hsize. now rewrite HX, Hsize.
Qed.

(** A transform that appends a new axis, followed by a broadcast along that
    axis, repeats every element of the array [n] times along the new, last
    axis: the two calls succeed, the leaf shape of the result is the one of
    the space followed by [n], and its element at a multi-index of the space
    followed by any [k < n] is the element of the array at that
    multi-index. *)
Theorem broadcast_new_axis {T} (S : Space) (X : ndarray T) (f : label) (n k : nat)
  (idx : list nat) :
  wf S -> nd_wf X -> nd_size X = size S -> ~ In f (folded_axes S) -> 1 <= n ->
  Forall2 lt idx (folded_shape S) -> k < n ->
  exists X1 S1 X2 S2,
    transform set_iter S X (axes S ++ [axis_of_label f]) = Ok (X1, S1)
    /\ broadcast S1 X1 [(f, n)] = Ok (X2, S2)
    /\ folded_shape S2 = folded_shape S ++ [n]
    /\ ravel (folded_shape S2) (idx ++ [k]) < List.length (nd_data X2)
    /\ nth_error (nd_data X2) (ravel (folded_shape S2) (idx ++ [k]))
       = nth_error (nd_data X) (ravel (folded_shape S) idx).
Proof.
  intros Hwf HX Hsize Hf Hn Hidx Hk. pose proof Hwf as [Hkeys Hnd].
  set (new_axes := axes S ++ [axis_of_label f]).
  assert (EB : _fold_axes new_axes = folded_axes S ++ [f]).
  { unfold new_axes. rewrite _fold_axes_app. reflexivity. }
  assert (HB : NoDup (_fold_axes new_axes)).
  { rewrite EB. apply NoDup_app; [exact Hnd | repeat constructor; simpl; tauto |].
    intros x Hx [<-|[]]. contradiction. }
  assert (Hincl : incl (folded_axes S) (_fold_axes new_axes))
    by (rewrite EB; apply incl_appl, incl_refl).
  pose proof (@transform_ok set_iter set_iter_perm T S X new_axes
                Hwf HB Hincl Hsize) as Hok.
  destruct (@transform_result_wf set_iter set_iter_perm T S _ X _ _ Hwf HX Hok)
    as (Hwf1 & _ & Hsh1 & HX1 & _).
  set (S1 := target S new_axes) in *.
  set (X1 := mkArray (shape S1)
               (transposed (nd_data X) (folded_shape (expanded set_iter S new_axes))
                  (axis_perm set_iter S new_axes))) in *.
  assert (Hfs1 : folded_shape S1 = folded_shape S ++ [1]).
  { unfold S1. rewrite target_folded_shape, EB, map_app, <- (folded_shape_get Hwf).
    simpl. rewrite od_get_not_key by (now rewrite Hkeys). reflexivity. }
  assert (Hsize1 : nd_size X1 = size S1).
  { unfold nd_size. rewrite Hsh1. now apply np_prod_shape. }
  assert (Hk1 : NoDup (od_keys [(f, n)]))
    by (repeat constructor; simpl; tauto).
  assert (HF : Forall (replica_ok (folded_axes S1)) [(f, n)]).
  { repeat constructor; simpl; auto.
    change (folded_axes S1) with (_fold_axes new_axes). rewrite EB.
    apply in_or_app. right. now left. }
  destruct (@broadcast_ok_all _ S1 X1 _ Hwf1 Hsize1 Hk1 HF) as [Hshape Hbok].
  assert (Hfs2 : folded_shape (scaled S1 [(f, n)]) = folded_shape S ++ [n]).
  { unfold folded_shape at 1, scaled, od_values. cbn [_extent].
    rewrite map_map. cbn [snd].
    change (folded_axes S1) with (_fold_axes new_axes). rewrite EB, map_app.
    f_equal.
    - rewrite (folded_shape_get Hwf). apply map_ext_in. intros a Ha.
      unfold S1, target. cbn [_extent].
      rewrite (@od_get_map_pairs _ (fun ax => od_get (_extent S) ax 1) _ a 0
                 (Hincl _ Ha)).
      simpl. destruct (Ascii.eqb_spec a f) as [E|_]; [congruence | lia].
    - simpl. rewrite Ascii.eqb_refl.
      unfold S1, target. cbn [_extent].
      rewrite (@od_get_map_pairs _ (fun ax => od_get (_extent S) ax 1) _ f 0)
        by (rewrite EB; apply in_or_app; right; now left).
      rewrite od_get_not_key by (now rewrite Hkeys). f_equal. lia. }
  assert (Hidx2 : Forall2 lt (idx ++ [k]) (folded_shape (scaled S1 [(f, n)]))).
  { rewrite Hfs2. apply Forall2_app; [exact Hidx | repeat constructor; exact Hk]. }
  destruct (@broadcast_nth T S1 _ X1 _ [(f, n)] (idx ++ [k]) Hwf1 HX1 Hk1 Hbok Hidx2)
    as [Hv Hnth].
  rewrite Hfs1, (wrapped_app_one k Hidx) in Hv, Hnth.
  assert (Hj : Forall2 lt (idx ++ [0]) (folded_shape (target S new_axes)))
    by (fold S1; rewrite Hfs1; exact Hv).
  destruct (@transform_nth set_iter set_iter_perm T S X new_axes (idx ++ [0])
              Hwf HX HB Hincl Hsize Hj) as (_ & _ & Hn1).
  fold S1 in Hn1. rewrite Hfs1 in Hn1.
  assert (Esrc : source_index S S1 (idx ++ [0]) = idx).
  { unfold source_index. change (folded_axes S1) with (_fold_axes new_axes).
    rewrite EB.
    rewrite (map_ext_in _ (fun a => nth (position Ascii.eqb a (folded_axes S)) idx 0)).
    - apply map_position_nth; [exact Hnd|].
      rewrite (Forall2_length Hidx). now apply length_folded_shape.
    - intros a Ha. rewrite position_app_l by exact Ha.
      apply app_nth1.
      destruct (@nth_error_position label Ascii.eqb Ascii.eqb_eq a _ Ha) as [Hlt _].
      rewrite (Forall2_length Hidx), (length_folded_shape Hwf). exact Hlt. }
  rewrite Esrc in Hn1.
  exists X1, S1, (mkArray (shape (scaled S1 [(f, n)]))
                    (nd_data (replicate_all (folded_axes S1) [(f, n)]
                                (mkArray (folded_shape S1) (nd_data X1))))),
    (scaled S1 [(f, n)]).
  split; [exact Hok|]. split; [exact Hbok|]. split; [exact Hfs2|].
  cbn [nd_data] in Hnth |- *. rewrite Hfs1. split.
  - apply nth_error_Some. rewrite Hnth. cbn [X1 nd_data]. rewrite Hn1.
    apply nth_error_Some. unfold nd_wf in HX. unfold nd_size in Hsize.
    rewrite HX, Hsize. now apply ravel_lt.
  - rewrite Hnth. cbn [X1 nd_data]. exact Hn1.
Qed.

End Pipelines.

Lemma transform_swap_transposes_witness :
  exists S X' S',
    infer X_23 ["b"%char; "w"%char] = Ok S
    /\ transform in_order S X_23 ["w"; "b"]%string = Ok (X', S')
    /\ nd_shape X' = [3; 2]
    /\ _extent S' = [("w"%char, 3); ("b"%char, 2)]
    /\ 2 * 2 + 1 < List.length (nd_data X')
    /\ nth_error (nd_data X') (2 * 2 + 1) = nth_error (nd_data X_23) (1 * 3 + 2).
Proof.
  apply (@transform_swap_transposes in_order in_order_perm Z X_23 2 3 1 2).
  - reflexivity.
  - reflexivity.
  - lia.
  - lia.
Defined.

Lemma broadcast_new_axis_witness :
  exists X1 S1 X2 S2,
    transform in_order S_23 X_23 (axes S_23 ++ [axis_of_label "f"%char]) = Ok (X1, S1)
    /\ broadcast S1 X1 [("f"%char, 2)] = Ok (X2, S2)
    /\ folded_shape S2 = folded_shape S_23 ++ [2]
    /\ ravel (folded_shape S2) ([1; 2] ++ [1]) < List.length (nd_data X2)
    /\ nth_error (nd_data X2) (ravel (folded_shape S2) ([1; 2] ++ [1]))
       = nth_error (nd_data X_23) (ravel (folded_shape S_23) [1; 2]).
Proof.
  apply (@broadcast_new_axis in_order in_order_perm Z S_23 X_23 "f"%char 2 1 [1; 2]).
  - exact S_23_wf.
  - reflexivity.
  - reflexivity.
  - simpl. intuition discriminate.
  - lia.
  - unfold folded_shape. simpl. constructor; [lia|]. constructor; [lia|]. constructor.
  - lia.
Defined.

(** ** The cycle of batches of LabelledSequenceMinibatchProvider *)

Section LabelledCycle.
Variable A : Type.
Import LabelledSequenceMinibatchProvider.

Variable X0 : list (list A).
Variable Y0 : list Z.
Variable bs : Z.
Variable pad : A.
Variable sh : bool.
Variable g0 : rng.

Hypothesis rng_permutes : rng_ok g0.
Hypothesis Y_rows : List.length Y0 = List.length X0.
Hypothesis batch_size_ok : (0 < bs <= Z.of_nat (List.length X0))%Z.

Lemma labelled_init_inv :
  exists p0, __init__ X0 Y0 bs pad sh = Ok p0
             /\ labelled_inv X0 Y0 bs pad sh g0 0 p0 g0.
Proof.
  unfold __init__, py_div. destruct (Z.eqb_spec bs 0) as [E|_]; [lia|]. cbn [bind].
  eexists. split; [reflexivity|]. unfold labelled_inv. simpl. repeat split; auto.
Qed.

Lemma labelled_rows (n : nat) (s : t A) (g : rng) :
  labelled_inv X0 Y0 bs pad sh g0 n s g ->
  List.length (X s) = List.length X0 /\ List.length (Y s) = List.length X0.
Proof.
  intros (_ & _ & _ & _ & _ & Hl & HP & _).
  apply Permutation_length in HP. rewrite !length_combine in HP. lia.
Qed.

Lemma labelled_prepare_inv (n : nat) (s : t A) (g : rng) :
  labelled_inv X0 Y0 bs pad sh g0 n s g ->
  exists s1 g1,
    _prepare_for_next_batch s g = Ok (s1, g1)
    /\ labelled_inv X0 Y0 bs pad sh g0 (S n) s1 g1
    /\ _batch_index s1 = (Z.of_nat n mod (Z.of_nat (List.length X0) / bs))%Z.
Proof.
  intros Hinv. destruct (labelled_rows Hinv) as [HlX HlY].
  destruct Hinv as (Hbs & Hbpe & Hidx & Hpad & Hsh & Hl & HP & Hg & Hns).
  assert (Hpos : (1 <= Z.of_nat (List.length X0) / bs)%Z)
    by (apply Z.div_le_lower_bound; lia).
  destruct s as [Xs Ys bs' pad' sh' idx bpe']. simpl in *. subst bs' bpe' pad' sh'.
  set (bpe0 := (Z.of_nat (List.length X0) / bs)%Z) in *.
  assert (Hi : ((idx + 1) mod bpe0 = Z.of_nat n mod bpe0)%Z).
  { subst idx. destruct (Nat.eqb_spec n 0) as [->|Hn]; [reflexivity|].
    rewrite Z.add_mod_idemp_l by lia. f_equal. lia. }
  assert (Hnext : (if (S n =? 0)%nat then (-1)%Z
                   else ((Z.of_nat (S n) - 1) mod bpe0)%Z)
                  = (Z.of_nat n mod bpe0)%Z).
  { replace (Z.of_nat (S n) - 1)%Z with (Z.of_nat n) by lia. reflexivity. }
  unfold _prepare_for_next_batch, py_mod. simpl.
  destruct (Z.eqb_spec bpe0 0) as [E|_]; [lia|]. simpl. rewrite Hi.
  destruct ((Z.of_nat n mod bpe0 =? 0)%Z && sh) eqn:Hs.
  - unfold _shuffle_data, np_random_permutation. simpl.
    assert (Hperm : Permutation (perm_at g (drawn g) (List.length (combine Xs Ys)))
                                (seq 0 (List.length (combine Xs Ys))))
      by (rewrite Hg; apply rng_permutes).
    destruct (take_permutation (combine Xs Ys) Hperm) as (_ & Hlen & HpX).
    remember (gather (combine Xs Ys)
                (perm_at g (drawn g) (List.length (combine Xs Ys)))) as gc eqn:Egc.
    destruct gc as [|[px py] gc'].
    + rewrite length_combine in Hlen. simpl in Hlen. lia.
    + do 2 eexists. split; [reflexivity|]. split; [|reflexivity].
      unfold labelled_inv. fold bpe0. rewrite Hnext. simpl.
      rewrite combine_map_fst_snd, !length_map.
      repeat split; auto.
      * eapply Permutation_trans; eauto.
      * apply andb_true_iff in Hs. destruct Hs as [_ Hs]. congruence.
      * apply andb_true_iff in Hs. destruct Hs as [_ Hs]. congruence.
      * apply andb_true_iff in Hs. destruct Hs as [_ Hs]. congruence.
  - do 2 eexists. split; [reflexivity|]. split; [|reflexivity].
    unfold labelled_inv. fold bpe0. rewrite Hnext. simpl.
    repeat split; auto; now apply Hns.
Qed.

Lemma labelled_next_from_prepare (s s1 : t A) (g g1 : rng) :
  _prepare_for_next_batch s g = Ok (s1, g1) ->
  (0 < batch_size s1)%Z -> (0 <= _batch_index s1)%Z ->
  (_batch_index s1 * batch_size s1 + batch_size s1 <= Z.of_nat (List.length (X s1)))%Z ->
  List.length (X s1) = List.length (Y s1) ->
  labelled_batch_rows s1
  = firstn (Z.to_nat (batch_size s1))
      (skipn (Z.to_nat (_batch_index s1 * batch_size s1)) (X s1))
  /\ batch_labels s1
     = firstn (Z.to_nat (batch_size s1))
         (skipn (Z.to_nat (_batch_index s1 * batch_size s1)) (Y s1))
  /\ List.length (labelled_batch_rows s1) = Z.to_nat (batch_size s1)
  /\ List.length (batch_labels s1) = Z.to_nat (batch_size s1)
  /\ exists X_batch Y_batch meta,
       next_batch s g = Ok ((X_batch, Y_batch, meta), s1, g1).
Proof.
  intros Hprep Hbs Hidx Hend Hl.
  destruct (@py_slice_range _ (X s1) (_batch_index s1 * batch_size s1)
              (_batch_index s1 * batch_size s1 + batch_size s1))
    as [HrawX HlenX]; [nia | lia |].
  destruct (@py_slice_range _ (Y s1) (_batch_index s1 * batch_size s1)
              (_batch_index s1 * batch_size s1 + batch_size s1))
    as [HrawY HlenY]; [nia | lia |].
  fold (labelled_batch_rows s1) in HrawX, HlenX.
  fold (batch_labels s1) in HrawY, HlenY.
  replace (_batch_index s1 * batch_size s1 + batch_size s1
           - _batch_index s1 * batch_size s1)%Z
    with (batch_size s1) in HrawX, HlenX, HrawY, HlenY by lia.
  split; [exact HrawX|]. split; [exact HrawY|].
  split; [exact HlenX|]. split; [exact HlenY|].
  unfold next_batch. rewrite Hprep. cbn [bind].
  fold (labelled_batch_rows s1). fold (batch_labels s1).
  destruct (batch_labels s1) as [|y labels] eqn:EY; [simpl in HlenY; lia|].
  destruct (labelled_batch_rows s1) as [|x raw] eqn:EX; [simpl in HlenX; lia|].
  cbn [map np_max np_max_nat bind]. do 3 eexists. reflexivity.
Qed.

Lemma labelled_next_batch_step (n : nat) (s : t A) (g : rng) :
  labelled_inv X0 Y0 bs pad sh g0 n s g ->
  exists X_batch Y_batch meta s' g',
    next_batch s g = Ok ((X_batch, Y_batch, meta), s', g')
    /\ labelled_inv X0 Y0 bs pad sh g0 (S n) s' g'
    /\ _batch_index s' = (Z.of_nat n mod (Z.of_nat (List.length X0) / bs))%Z
    /\ combine (labelled_batch_rows s') (batch_labels s')
       = firstn (Z.to_nat bs)
           (skipn (Z.to_nat (_batch_index s' * bs)) (combine (X s') (Y s')))
    /\ List.length (labelled_batch_rows s') = Z.to_nat bs
    /\ List.length (batch_labels s') = Z.to_nat bs.
Proof.
  intros Hinv.
  destruct (labelled_prepare_inv Hinv) as (s1 & g1 & Hprep & Hinv1 & Hidx).
  destruct (labelled_rows Hinv1) as [HlX HlY].
  pose proof Hinv1 as (Hbs & _ & _ & _ & _ & Hl & _).
  assert (Hpos : (1 <= Z.of_nat (List.length X0) / bs)%Z)
    by (apply Z.div_le_lower_bound; lia).
  assert (Hrange : (0 <= Z.of_nat n mod (Z.of_nat (List.length X0) / bs)
                    < Z.of_nat (List.length X0) / bs)%Z)
    by (apply Z.mod_pos_bound; lia).
  assert (Hrows : (Z.of_nat (List.length X0) / bs * bs
                   <= Z.of_nat (List.length X0))%Z)
    by (rewrite Z.mul_comm; apply Z.mul_div_le; lia).
  destruct (@labelled_next_from_prepare s s1 g g1 Hprep)
    as (HrawX & HrawY & HlenX & HlenY & Xb & Yb & m & Hnb).
  - lia.
  - lia.
  - rewrite Hbs, Hidx, HlX. nia.
  - exact Hl.
  - exists Xb, Yb, m, s1, g1. rewrite Hbs in HrawX, HrawY, HlenX, HlenY.
    split; [exact Hnb|]. split; [exact Hinv1|]. split; [exact Hidx|].
    split; [|split; assumption].
    rewrite HrawX, HrawY, skipn_combine, combine_firstn. reflexivity.
Qed.

Lemma labelled_after_inv (p0 : t A) (n : nat) :
  labelled_inv X0 Y0 bs pad sh g0 0 p0 g0 ->
  exists s g, labelled_after n p0 g0 = Ok (s, g)
              /\ labelled_inv X0 Y0 bs pad sh g0 n s g.
Proof.
  intros H0. induction n as [|n (s & g & Hafter & Hinv)]; simpl.
  - eauto.
  - destruct (labelled_next_batch_step Hinv)
      as (Xb & Yb & m & s' & g' & Hnb & Hinv' & _).
    rewrite Hafter. simpl. rewrite Hnb. simpl. eauto.
Qed.

(** Over as many labels as sequences and with a batch size B,
    0 < B <= len(X0), every call of [next_batch] of a labelled provider
    succeeds; the call number n+1 uses the batch index
    n mod floor(len(X0)/B); its batch has B padded sequences and B one-hot
    rows, and the sequences and the labels it was built from are B
    consecutive pairs of the provider, each a sequence of the dataset with
    its own label; without shuffling the provider keeps the dataset as it
    was given and leaves the generator alone. *)
Theorem labelled_next_batch_cycle :
  exists p0, __init__ X0 Y0 bs pad sh = Ok p0
  /\ forall n, exists s g X_batch Y_batch meta s' g',
       labelled_after n p0 g0 = Ok (s, g)
       /\ next_batch s g = Ok ((X_batch, Y_batch, meta), s', g')
       /\ labelled_after (S n) p0 g0 = Ok (s', g')
       /\ _batch_index s' = (Z.of_nat n mod (Z.of_nat (List.length X0) / bs))%Z
       /\ combine (labelled_batch_rows s') (batch_labels s')
          = firstn (Z.to_nat bs)
              (skipn (Z.to_nat (_batch_index s' * bs)) (combine (X s') (Y s')))
       /\ incl (combine (labelled_batch_rows s') (batch_labels s')) (combine X0 Y0)
       /\ List.length X_batch = Z.to_nat bs
       /\ List.length Y_batch = Z.to_nat bs
       /\ Permutation (combine (X s') (Y s')) (combine X0 Y0)
       /\ (sh = false -> X s' = X0 /\ Y s' = Y0 /\ g' = g0).
Proof.
  destruct labelled_init_inv as (p0 & Hinit & H0).
  exists p0. split; [exact Hinit|]. intros n.
  destruct (labelled_after_inv n H0) as (s & g & Hafter & Hinv).
  destruct (labelled_next_batch_step Hinv)
    as (Xb & Yb & m & s' & g' & Hnb & Hinv' & Hidx & Hpairs & HlenX & HlenY).
  destruct (@labelled_next_batch_inv _ _ _ _ _ _ _ _ Hnb)
    as (mx & w & _ & _ & _ & _ & HXb & _ & HYb & _).
  pose proof Hinv' as (_ & _ & _ & _ & _ & _ & HP & _ & Hns).
  exists s, g, Xb, Yb, m, s', g'.
  split; [exact Hafter|]. split; [exact Hnb|]. split.
  { simpl. rewrite Hafter. simpl. rewrite Hnb. reflexivity. }
  split; [exact Hidx|]. split; [exact Hpairs|]. split.
  { intros x Hx. rewrite Hpairs in Hx. apply In_firstn_skipn in Hx.
    exact (Permutation_in _ HP Hx). }
  split.
  { rewrite HXb, length_map. exact HlenX. }
  split.
  { rewrite HYb. unfold one_hot. rewrite length_map. exact HlenY. }
  split; [exact HP | exact Hns].
Qed.

End LabelledCycle.

Lemma labelled_next_batch_cycle_witness :
  exists p0,
    LabelledSequenceMinibatchProvider.__init__
      [[5]; [6; 7]; [8]]%Z [0; 2; 1]%Z 2 0%Z true = Ok p0
    /\ forall n, exists s g X_batch Y_batch meta s' g',
         labelled_after n p0 rng_rev = Ok (s, g)
         /\ LabelledSequenceMinibatchProvider.next_batch s g
            = Ok ((X_batch, Y_batch, meta), s', g')
         /\ labelled_after (S n) p0 rng_rev = Ok (s', g')
         /\ LabelledSequenceMinibatchProvider._batch_index s'
            = (Z.of_nat n mod (Z.of_nat (List.length [[5]; [6; 7]; [8]]%Z) / 2))%Z
         /\ combine (labelled_batch_rows s')
                    (LabelledSequenceMinibatchProvider.batch_labels s')
            = firstn (Z.to_nat 2)
                (skipn (Z.to_nat (LabelledSequenceMinibatchProvider._batch_index s' * 2))
                   (combine (LabelledSequenceMinibatchProvider.X s')
                            (LabelledSequenceMinibatchProvider.Y s')))
         /\ incl (combine (labelled_batch_rows s')
                          (LabelledSequenceMinibatchProvider.batch_labels s'))
                 (combine [[5]; [6; 7]; [8]]%Z [0; 2; 1]%Z)
         /\ List.length X_batch = Z.to_nat 2
         /\ List.length Y_batch = Z.to_nat 2
         /\ Permutation (combine (LabelledSequenceMinibatchProvider.X s')
                                 (LabelledSequenceMinibatchProvider.Y s'))
                        (combine [[5]; [6; 7]; [8]]%Z [0; 2; 1]%Z)
         /\ (true = false ->
             LabelledSequenceMinibatchProvider.X s' = [[5]; [6; 7]; [8]]%Z
             /\ LabelledSequenceMinibatchProvider.Y s' = [0; 2; 1]%Z
             /\ g' = rng_rev).
Proof.
  apply (@labelled_next_batch_cycle Z [[5]; [6; 7]; [8]]%Z [0; 2; 1]%Z 2 0%Z true
           rng_rev rng_rev_ok eq_refl).
  simpl. lia.
Defined.
